(** * A row-by-row PNG decoder for 8-bit RGBA images: model and properties

    Shallow embedding of [reader.go] (package [png]): the chunk-order state
    machine of [NewDecoder], the IHDR parser, the IDAT stream adapter
    [decoder.Read], the scanline reconstruction of [DecodeRow] and the
    trailer check of [Close].

    Conventions.
    - A byte ([uint8]) is a [Z] in [0, 256); [+=] on bytes is written out
      as addition modulo 256.  [uint32], [int32], [int64] and the platform
      [int] are [Z] with their wrap-around written out.
    - The input [io.Reader] is an in-memory byte stream: the list of the
      bytes not yet consumed.  A read delivers what is asked for when that
      much is left, as [bytes.Reader] and regular files do.
    - [hash/crc32] and [compress/zlib] are libraries outside the package:
      the checksum function is a section variable and the zlib reader is an
      interface ([ZlibReader]) the decoder is generic in. *)

From Stdlib Require Import ZArith List String Ascii Lia Bool DecimalString.
From stdpp Require Import base tactics option list.

Open Scope Z_scope.
Open Scope list_scope.

(** ** Machine integers *)

Definition byte := Z.

Definition is_byte (b : Z) : Prop := 0 <= b < 256.

Definition to_uint8 (x : Z) : Z := x mod 256.
Definition to_uint32 (x : Z) : Z := x mod 2 ^ 32.

(** Two's complement reading of the low [bits] bits of [x]. *)
Definition wrap_signed (bits : Z) (x : Z) : Z :=
  (x + 2 ^ (bits - 1)) mod 2 ^ bits - 2 ^ (bits - 1).

Definition to_int32 (x : Z) : Z := wrap_signed 32 x.
Definition to_int64 (x : Z) : Z := wrap_signed 64 x.

(** Go's [int] is 32 or 64 bits wide, by platform. *)
Inductive arch : Set := Arch32 | Arch64.

Definition intSize (a : arch) : Z :=
  match a with Arch32 => 32 | Arch64 => 64 end.

Definition to_int (a : arch) (x : Z) : Z := wrap_signed (intSize a) x.

Definition maxInt (a : arch) : Z := 2 ^ (intSize a - 1) - 1.

(** [binary.BigEndian.Uint32] on a four-byte slice, and its inverse. *)
Definition BigEndian_Uint32 (b : list Z) : Z :=
  nth 0 b 0 * 2 ^ 24 + nth 1 b 0 * 2 ^ 16 + nth 2 b 0 * 2 ^ 8 + nth 3 b 0.

Definition BigEndian_PutUint32 (v : Z) : list Z :=
  [ (v / 2 ^ 24) mod 256; (v / 2 ^ 16) mod 256; (v / 2 ^ 8) mod 256; v mod 256 ].

(** ** Strings and byte slices *)

Definition bytes_of_string (s : string) : list Z :=
  map (fun c => Z.of_N (N_of_ascii c)) (list_ascii_of_string s).

(** [string(b)] for a byte slice [b]. *)
Definition string_of_bytes (b : list Z) : string :=
  string_of_list_ascii (map (fun x => ascii_of_N (Z.to_N x)) b).

(** [%d] of a non-negative integer. *)
Definition fmt_d (x : Z) : string := NilZero.string_of_uint (N.to_uint (Z.to_N x)).

Definition bytes_eqb (x y : list Z) : bool := bool_decide (x = y).

(** [copy(dst, src)]: the prefix of [dst] is overwritten. *)
Definition overwrite (src dst : list Z) : list Z :=
  take (length dst) src ++ drop (length src) dst.

(** ** Constants of reader.go *)

Definition ctTrueColorAlpha : Z := 6.

Definition cbInvalid : Z := 0.
Definition cbTCA8 : Z := 1.

Definition ftNone : Z := 0.
Definition ftSub : Z := 1.
Definition ftUp : Z := 2.
Definition ftAverage : Z := 3.
Definition ftPaeth : Z := 4.
Definition nFilter : Z := 5.

Definition dsStart : Z := 0.
Definition dsSeenIHDR : Z := 1.
Definition dsSeenIDAT : Z := 2.
Definition dsSeenIEND : Z := 3.

(** ["\x89PNG\r\n\x1a\n"] *)
Definition pngHeader : list Z := [137; 80; 78; 71; 13; 10; 26; 10].

Definition tagIHDR : list Z := bytes_of_string "IHDR".
Definition tagIDAT : list Z := bytes_of_string "IDAT".
Definition tagIEND : list Z := bytes_of_string "IEND".

(** ** Errors and results *)

Inductive error : Type :=
| EOF                              (* io.EOF *)
| ErrUnexpectedEOF                 (* io.ErrUnexpectedEOF *)
| FormatError (msg : string)
| UnsupportedError (msg : string)
| Errorf (msg : string)            (* fmt.Errorf *)
| ZlibError (msg : string).        (* an error of compress/zlib *)

Definition chunkOrderError : error := FormatError "chunk out of order".

(** The outcome of a call: a value, a returned error, a run-time panic
    (index or slice bound out of range), or a loop cut off by its fuel. *)
Inductive res (A : Type) : Type :=
| Ok (a : A)
| Err (e : error)
| Panic
| OutOfFuel.

Arguments Ok {A} a.
Arguments Err {A} e.
Arguments Panic {A}.
Arguments OutOfFuel {A}.

(** ** The decoder's state *)

(** [struct decoder].  The fields [img], [palette], [interlace],
    [useTransparent] and [transparent] are never read or written by the
    package and are left out.  [crc] holds the bytes written to the hash
    since its last [Reset]. *)
Record decoder : Type := mkDecoder {
  r : list Z;
  crc : list Z;
  width : Z;
  height : Z;
  depth : Z;
  cb : Z;
  stage : Z;
  idatLength : Z;
  tmp : list Z
}.

Definition set_r (v : list Z) (d : decoder) : decoder :=
  mkDecoder v (crc d) (width d) (height d) (depth d) (cb d) (stage d) (idatLength d) (tmp d).
Definition set_crc (v : list Z) (d : decoder) : decoder :=
  mkDecoder (r d) v (width d) (height d) (depth d) (cb d) (stage d) (idatLength d) (tmp d).
Definition set_width (v : Z) (d : decoder) : decoder :=
  mkDecoder (r d) (crc d) v (height d) (depth d) (cb d) (stage d) (idatLength d) (tmp d).
Definition set_height (v : Z) (d : decoder) : decoder :=
  mkDecoder (r d) (crc d) (width d) v (depth d) (cb d) (stage d) (idatLength d) (tmp d).
Definition set_depth (v : Z) (d : decoder) : decoder :=
  mkDecoder (r d) (crc d) (width d) (height d) v (cb d) (stage d) (idatLength d) (tmp d).
Definition set_cb (v : Z) (d : decoder) : decoder :=
  mkDecoder (r d) (crc d) (width d) (height d) (depth d) v (stage d) (idatLength d) (tmp d).
Definition set_stage (v : Z) (d : decoder) : decoder :=
  mkDecoder (r d) (crc d) (width d) (height d) (depth d) (cb d) v (idatLength d) (tmp d).
Definition set_idatLength (v : Z) (d : decoder) : decoder :=
  mkDecoder (r d) (crc d) (width d) (height d) (depth d) (cb d) (stage d) v (tmp d).
Definition set_tmp (v : list Z) (d : decoder) : decoder :=
  mkDecoder (r d) (crc d) (width d) (height d) (depth d) (cb d) (stage d) (idatLength d) v.

(** [&decoder{r: r, crc: crc32.NewIEEE()}]: every other field is zero. *)
Definition new_decoder (input : list Z) : decoder :=
  mkDecoder input [] 0 0 0 0 dsStart 0 (repeat 0 768%nat).

(** A method of [*decoder]: it returns a result and the state it leaves. *)
Definition M (A : Type) : Type := decoder -> res A * decoder.

Definition ret {A} (a : A) : M A := fun d => (Ok a, d).
Definition fail {A} (e : error) : M A := fun d => (Err e, d).
Definition bind {A B} (m : M A) (k : A -> M B) : M B :=
  fun d =>
    match m d with
    | (Ok a, d') => k a d'
    | (Err e, d') => (Err e, d')
    | (Panic, d') => (Panic, d')
    | (OutOfFuel, d') => (OutOfFuel, d')
    end.
Definition modify (f : decoder -> decoder) : M unit := fun d => (Ok tt, f d).
Definition get {A} (f : decoder -> A) : M A := fun d => (Ok (f d), d).

Notation "'do' x <- m ; k" := (bind m (fun x => k))
  (at level 10, x name, m at level 100, k at level 200).
Notation "'exec' m ; k" := (bind m (fun _ => k))
  (at level 10, m at level 100, k at level 200).

(** ** Reading from the input stream *)

(** [io.ReadFull(r, buf)] with [len(buf) = n] on the in-memory stream:
    the bytes copied, the error, and the stream that is left. *)
Definition io_ReadFull (s : list Z) (n : nat) : list Z * option error * list Z :=
  if decide (n <= length s)%nat then (take n s, None, drop n s)
  else (s, Some (match s with [] => EOF | _ => ErrUnexpectedEOF end), []).

(** One [Read(buf)] with [len(buf) = n] on the in-memory stream. *)
Definition io_Read (s : list Z) (n : nat) : list Z * option error * list Z :=
  match s with
  | [] => ([], Some EOF, [])
  | _ => (take n s, None, drop n s)
  end.

(** [io.ReadFull(d.r, d.tmp[:n])]: the bytes land in the scratch buffer
    [tmp]; the bytes read are also handed to the caller, who only ever
    looks at the part of [tmp] just filled. *)
Definition ReadFull_tmp (n : nat) : M (list Z) := fun d =>
  let '(bs, e, s') := io_ReadFull (r d) n in
  let d' := set_tmp (overwrite bs (tmp d)) (set_r s' d) in
  match e with
  | None => (Ok bs, d')
  | Some err => (Err err, d')
  end.

Definition crc_Reset : M unit := modify (set_crc []).
Definition crc_Write (b : list Z) : M unit := modify (fun d => set_crc (crc d ++ b) d).

(** ** Chunk parsing: methods of [*decoder] *)

Section Reader.

(** The platform's [int] width, and [crc32.ChecksumIEEE]. *)
Variable a : arch.
Variable crc32_ieee : list Z -> Z.

(** [d.crc.Sum32()]: a [uint32]. *)
Definition Sum32 (d : decoder) : Z := to_uint32 (crc32_ieee (crc d)).

Definition verifyChecksum : M unit :=
  do t <- ReadFull_tmp 4;
  do sum <- get Sum32;
  if negb (BigEndian_Uint32 t =? sum) then fail (FormatError "invalid checksum")
  else ret tt.

Definition checkHeader : M unit :=
  do t <- ReadFull_tmp (length pngHeader);
  if negb (bytes_eqb t pngHeader) then fail (FormatError "not a PNG file")
  else ret tt.

Definition parseIHDR (len : Z) : M unit :=
  if negb (len =? 13) then fail (FormatError "bad IHDR length") else
  do t <- ReadFull_tmp 13;
  exec crc_Write t;
  if negb (nth 10 t 0 =? 0) then fail (UnsupportedError "compression method") else
  if negb (nth 11 t 0 =? 0) then fail (UnsupportedError "filter method") else
  let w := to_int32 (BigEndian_Uint32 (take 4 t)) in
  let h := to_int32 (BigEndian_Uint32 (take 4 (drop 4 t))) in
  if (w <=? 0) || (h <=? 0) then fail (FormatError "non-positive dimension") else
  let nPixels64 := to_int64 (w * h) in
  let nPixels := to_int a nPixels64 in
  if negb (nPixels64 =? to_int64 nPixels) then fail (UnsupportedError "dimension overflow") else
  (* There can be up to 8 bytes per pixel, for 16 bits per channel RGBA. *)
  if negb (nPixels =? Z.quot (to_int a (nPixels * 8)) 8)
  then fail (UnsupportedError "dimension overflow") else
  exec modify (set_cb cbInvalid);
  exec modify (set_depth (nth 8 t 0));
  exec (if (nth 8 t 0 =? 8) && (nth 9 t 0 =? ctTrueColorAlpha)
        then modify (set_cb cbTCA8) else ret tt);
  do c <- get cb;
  if c =? cbInvalid
  then fail (UnsupportedError
               ("bit depth " ++ fmt_d (nth 8 t 0) ++ ", color type " ++ fmt_d (nth 9 t 0)))
  else
  exec modify (fun d => set_height h (set_width w d));
  verifyChecksum.

(** [io.ReadFull(d.r, ignored[:n])]: into a local array, [tmp] is not
    touched. *)
Definition ReadFull_ignored (n : nat) : M (list Z) := fun d =>
  let '(bs, e, s') := io_ReadFull (r d) n in
  match e with
  | None => (Ok bs, set_r s' d)
  | Some err => (Err err, set_r s' d)
  end.

(** The loop [for length > 0] that skips a chunk of no interest in
    pieces of at most 4096 bytes.  Every round consumes input, so the
    length of the input is fuel enough. *)
Fixpoint skip_loop (fuel : nat) (len : Z) : M unit :=
  if negb (len >? 0) then ret tt else
  match fuel with
  | O => fun d => (OutOfFuel, d)
  | S fuel' =>
      do bs <- ReadFull_ignored (Z.to_nat (Z.min 4096 (to_int a len)));
      exec crc_Write bs;
      skip_loop fuel' (to_uint32 (len - Z.of_nat (length bs)))
  end.

(** [if err == io.EOF { return io.ErrUnexpectedEOF }; return err] *)
Definition eof_unexpected {A} (m : M A) : M A := fun d =>
  match m d with
  | (Err EOF, d') => (Err ErrUnexpectedEOF, d')
  | other => other
  end.

(** One round of the loop [for header != "IDAT"] of [NewDecoder]: it
    reads a chunk header and dispatches on its tag.  The result is
    [header != "IDAT"], the loop's condition for another round. *)
Definition chunk_round : M bool :=
  do t <- ReadFull_tmp 8;
  let len := BigEndian_Uint32 (take 4 t) in
  exec crc_Reset;
  exec crc_Write (drop 4 t);
  let header := drop 4 t in
  if bytes_eqb header tagIHDR then
    do st <- get stage;
    if negb (st =? dsStart) then fail chunkOrderError else
    exec modify (set_stage dsSeenIHDR);
    exec eof_unexpected (parseIHDR len);
    do c <- get cb;
    if negb (c =? cbTCA8)
    then fail (Errorf ("color type and bit depth not cbTCA8 " ++ fmt_d c))
    else ret true
  else if bytes_eqb header tagIDAT then
    do st <- get stage;
    if (st <? dsSeenIHDR) || (st >? dsSeenIDAT) then fail chunkOrderError else
    exec modify (set_idatLength len);
    exec modify (set_stage dsSeenIDAT);
    ret false
  else
    if len >? 2147483647
    then fail (FormatError ("Bad chunk length: " ++ fmt_d len))
    else
    (* Ignore this chunk (of a known length). *)
    do n <- get (fun d => S (length (r d)));
    exec skip_loop n len;
    exec verifyChecksum;
    ret true.

(** The loop itself.  Every round consumes the eight bytes of a chunk
    header, so the length of the input is fuel enough. *)
Fixpoint chunk_loop (fuel : nat) : M unit :=
  match fuel with
  | O => fun d => (OutOfFuel, d)
  | S fuel' =>
      do again <- chunk_round;
      if again : bool then chunk_loop fuel' else ret tt
  end.

(** The loop [for d.idatLength == 0] of [Read]. *)
Fixpoint Read_loop (fuel : nat) : M unit := fun d =>
  if negb (idatLength d =? 0) then (Ok tt, d) else
  match fuel with
  | O => (OutOfFuel, d)
  | S fuel' =>
      (* We have exhausted an IDAT chunk. Verify the checksum of that chunk. *)
      (exec verifyChecksum;
       (* Read the length and chunk type of the next chunk, and check that
          it is an IDAT chunk. *)
       do t <- ReadFull_tmp 8;
       exec modify (set_idatLength (BigEndian_Uint32 (take 4 t)));
       if negb (bytes_eqb (drop 4 t) tagIDAT)
       then fail (FormatError "not enough pixel data")
       else
       exec crc_Reset;
       exec crc_Write (drop 4 t);
       Read_loop fuel') d
  end.

(** [func (d *decoder) Read(p []byte) (int, error)] with [len(p) = n].
    [Ok (bs, e)] stands for the return of [(len(bs), e)] with [bs] copied
    to the front of [p]. *)
Definition Read (n : nat) : M (list Z * option error) := fun d =>
  if (n =? 0)%nat then (Ok ([], None), d) else
  match Read_loop (S (length (r d))) d with
  | (Err e, d') => (Ok ([], Some e), d')
  | (Panic, d') => (Panic, d')
  | (OutOfFuel, d') => (OutOfFuel, d')
  | (Ok _, d') =>
      if to_int a (idatLength d') <? 0
      then (Ok ([], Some (UnsupportedError "IDAT chunk length overflow")), d')
      else
        let k := Z.to_nat (Z.min (Z.of_nat n) (to_int a (idatLength d'))) in
        let '(bs, e, s') := io_Read (r d') k in
        (Ok (bs, e),
         set_idatLength (to_uint32 (idatLength d' - Z.of_nat (length bs)))
           (set_crc (crc d' ++ bs) (set_r s' d')))
  end.

Definition readIEND : M unit :=
  (* Read the length and chunk type. *)
  do t <- ReadFull_tmp 8;
  let len := BigEndian_Uint32 (take 4 t) in
  exec crc_Reset;
  exec crc_Write (drop 4 t);
  let header := drop 4 t in
  if negb (bytes_eqb header tagIEND)
  then fail (FormatError ("not IEND " ++ string_of_bytes header))
  else
  if negb (len =? 0) then fail (FormatError "bad IEND length") else
  verifyChecksum.

End Reader.

(** ** The zlib reader *)

(** [zlibR io.ReadCloser]: the reader [zlib.NewReader(d)] returns.  It
    holds a pointer to the [decoder] and pulls compressed bytes through
    [decoder.Read], so each operation takes the decoder's state and
    returns the state it leaves.
    - [zlib_NewReader d]: [zlib.NewReader(d)];
    - [zlib_ReadFull z n d]: [io.ReadFull(z, buf)] with [len(buf) = n > 0],
      giving the bytes copied to the front of [buf] and the error;
    - [zlib_Close z]: [z.Close()]. *)
Class ZlibReader (ZR : Type) : Type := {
  zlib_NewReader : decoder -> res ZR * decoder;
  zlib_ReadFull : ZR -> nat -> decoder -> list Z * option error * ZR * decoder;
  zlib_Close : ZR -> option error * ZR
}.

(** ** Scanline filters *)

(** [s[i]] and [s[i] = v] with Go's bounds check: [None] is the panic. *)
Definition at_ (s : list Z) (i : Z) : option Z :=
  if i <? 0 then None else s !! Z.to_nat i.

Definition upd (s : list Z) (i : Z) (v : Z) : option (list Z) :=
  if (0 <=? i) && (i <? Z.of_nat (length s)) then Some (<[Z.to_nat i := v]> s) else None.

(** [for i := lo; i < hi; i++ { body }] over a state that the body may
    update or panic on. *)
Fixpoint for_loop {S : Type} (n : nat) (i : Z) (body : Z -> S -> option S) (s : S) : option S :=
  match n with
  | O => Some s
  | S n' => match body i s with
            | Some s' => for_loop n' (i + 1) body s'
            | None => None
            end
  end.

Definition for_range {S : Type} (lo hi : Z) (body : Z -> S -> option S) (s : S) : option S :=
  for_loop (Z.to_nat (hi - lo)) lo body s.

Definition len (s : list Z) : Z := Z.of_nat (length s).

(** [case ftSub] *)
Definition unfilterSub (cdat : list Z) (bytesPerPixel : Z) : option (list Z) :=
  for_range bytesPerPixel (len cdat)
    (fun i c => x ← at_ c i; l ← at_ c (i - bytesPerPixel); upd c i (to_uint8 (x + l)))
    cdat.

(** [case ftUp] *)
Definition unfilterUp (cdat pdat : list Z) : option (list Z) :=
  for_range 0 (len pdat)
    (fun i c => p ← at_ pdat i; x ← at_ c i; upd c i (to_uint8 (x + p)))
    cdat.

(** [case ftAverage] *)
Definition unfilterAverage (cdat pdat : list Z) (bytesPerPixel : Z) : option (list Z) :=
  (* The first column has no column to the left of it, so it is a
     special case. *)
  c1 ← for_range 0 bytesPerPixel
          (fun i c => x ← at_ c i; p ← at_ pdat i; upd c i (to_uint8 (x + Z.quot p 2)))
          cdat;
  for_range bytesPerPixel (len c1)
    (fun i c => x ← at_ c i; l ← at_ c (i - bytesPerPixel); p ← at_ pdat i;
                upd c i (to_uint8 (x + to_uint8 (Z.quot (l + p) 2))))
    c1.

(** Modelled from the spec: [filterPaeth], whose file is not among the
    sources.  The predictor is [p = a + b - c] with [a] the byte to the
    left (0 if absent), [b] the byte above and [c] the byte above left (0
    if absent); the predicted value is the one of [a], [b], [c] closest to
    [p] by absolute distance, ties going to [a], then [b], then [c]; the
    predictor math and the final addition are modulo 256. *)
Definition paeth (a b c : Z) : Z :=
  let p := to_uint8 (a + b - c) in
  let pa := Z.abs (p - a) in
  let pb := Z.abs (p - b) in
  let pc := Z.abs (p - c) in
  if (pa <=? pb) && (pa <=? pc) then a
  else if pb <=? pc then b
  else c.

(** Modelled from the spec: the left and upper-left neighbours, 0 where
    the row has none. *)
Definition left_of (s : list Z) (i bytesPerPixel : Z) : option Z :=
  if i <? bytesPerPixel then Some 0 else at_ s (i - bytesPerPixel).

(** Modelled from the spec: [filterPaeth(cdat, pdat, bytesPerPixel)],
    reconstruction in place, [cdat[i] += predicted]. *)
Definition filterPaeth (cdat pdat : list Z) (bytesPerPixel : Z) : option (list Z) :=
  for_range 0 (len cdat)
    (fun i c => x ← at_ c i;
                a ← left_of c i bytesPerPixel;
                b ← at_ pdat i;
                c' ← left_of pdat i bytesPerPixel;
                upd c i (to_uint8 (x + paeth a b c')))
    cdat.

(** The outcome of the [switch d.cr[0]] of [DecodeRow]. *)
Inductive filtered : Type :=
| Filtered (cdat : list Z)
| BadFilter
| FilterPanic.

Definition of_option (o : option (list Z)) : filtered :=
  match o with Some c => Filtered c | None => FilterPanic end.

Definition unfilter (ft : Z) (cdat pdat : list Z) (bytesPerPixel : Z) : filtered :=
  if ft =? ftNone then Filtered cdat
  else if ft =? ftSub then of_option (unfilterSub cdat bytesPerPixel)
  else if ft =? ftUp then of_option (unfilterUp cdat pdat)
  else if ft =? ftAverage then of_option (unfilterAverage cdat pdat bytesPerPixel)
  else if ft =? ftPaeth then of_option (filterPaeth cdat pdat bytesPerPixel)
  else BadFilter.

(** ** The row decoder *)

(** The two row buffers [NewDecoder] allocates.  [d.cr] and [d.pr] are
    slices over them, never over the same one: the model keeps the two
    buffers and which of them [d.cr] refers to; [d.pr] refers to the
    other.  The swap [d.pr, d.cr = d.cr, d.pr] flips that reference and
    moves no byte. *)
Inductive bufref : Set := Buf0 | Buf1.

Definition other (b : bufref) : bufref :=
  match b with Buf0 => Buf1 | Buf1 => Buf0 end.

(** [struct Decoder] *)
Record Decoder (ZR : Type) : Type := mkDec {
  dd : decoder;             (* d *)
  zlibR : ZR;
  bytesPerPixel : Z;
  buf0 : list Z;
  buf1 : list Z;
  cur : bufref;             (* the buffer behind cr *)
  y : Z
}.

Arguments mkDec {ZR}.
Arguments dd {ZR}.
Arguments zlibR {ZR}.
Arguments bytesPerPixel {ZR}.
Arguments buf0 {ZR}.
Arguments buf1 {ZR}.
Arguments cur {ZR}.
Arguments y {ZR}.

Section RowDecoder.

Variable a : arch.
Variable crc32_ieee : list Z -> Z.
Context {ZR : Type} {zlib : ZlibReader ZR}.

Definition load (D : Decoder ZR) (b : bufref) : list Z :=
  match b with Buf0 => buf0 D | Buf1 => buf1 D end.

Definition store (b : bufref) (v : list Z) (D : Decoder ZR) : Decoder ZR :=
  match b with
  | Buf0 => mkDec (dd D) (zlibR D) (bytesPerPixel D) v (buf1 D) (cur D) (y D)
  | Buf1 => mkDec (dd D) (zlibR D) (bytesPerPixel D) (buf0 D) v (cur D) (y D)
  end.

(** [d.cr] and [d.pr] *)
Definition cr (D : Decoder ZR) : list Z := load D (cur D).
Definition pr (D : Decoder ZR) : list Z := load D (other (cur D)).

Definition set_dd (v : decoder) (D : Decoder ZR) : Decoder ZR :=
  mkDec v (zlibR D) (bytesPerPixel D) (buf0 D) (buf1 D) (cur D) (y D).
Definition set_zlibR (v : ZR) (D : Decoder ZR) : Decoder ZR :=
  mkDec (dd D) v (bytesPerPixel D) (buf0 D) (buf1 D) (cur D) (y D).
Definition set_cur (v : bufref) (D : Decoder ZR) : Decoder ZR :=
  mkDec (dd D) (zlibR D) (bytesPerPixel D) (buf0 D) (buf1 D) v (y D).
Definition set_y (v : Z) (D : Decoder ZR) : Decoder ZR :=
  mkDec (dd D) (zlibR D) (bytesPerPixel D) (buf0 D) (buf1 D) (cur D) v.

(** [NewDecoder] decodes the metadata of an image data stream. *)
Definition NewDecoder (input : list Z) : res (Decoder ZR) :=
  let d0 := new_decoder input in
  match eof_unexpected (checkHeader) d0 with
  | (Err e, _) => Err e
  | (Panic, _) => Panic
  | (OutOfFuel, _) => OutOfFuel
  | (Ok _, d1) =>
  match chunk_loop a crc32_ieee (S (length (r d1))) d1 with
  | (Err e, _) => Err e
  | (Panic, _) => Panic
  | (OutOfFuel, _) => OutOfFuel
  | (Ok _, d2) =>
  match zlib_NewReader d2 with
  | (Err e, _) => Err e
  | (Panic, _) => Panic
  | (OutOfFuel, _) => OutOfFuel
  | (Ok z, d3) =>
      let bitsPerPixel := 32 in
      (* The +1 is for the per-row filter type, which is at cr[0]. *)
      let rowSize := to_int64 (1 + Z.quot (to_int64 (bitsPerPixel * width d3 + 7)) 8) in
      if negb (rowSize =? to_int64 (to_int a rowSize))
      then Err (UnsupportedError "dimension overflow")
      else
        Ok (mkDec d3 z (Z.quot (bitsPerPixel + 7) 8)
              (repeat 0 (Z.to_nat rowSize)) (repeat 0 (Z.to_nat rowSize)) Buf0 0)
  end end end.

(** [Bounds]: [image.Rect(0, 0, d.d.width, d.d.height)] *)
Definition Bounds (D : Decoder ZR) : Z * Z * Z * Z :=
  (0, 0, width (dd D), height (dd D)).

(** [io.ReadFull(d.zlibR, buf)]: nothing is read into an empty buffer. *)
Definition io_ReadFull_zlib (z : ZR) (n : nat) (d : decoder)
  : list Z * option error * ZR * decoder :=
  match n with
  | O => ([], None, z, d)
  | _ => zlib_ReadFull z n d
  end.

(** [DecodeRow] decodes the current row.  The row returned is the slice
    [cdat = d.cr[1:]] of the buffer that [d.pr] refers to afterwards. *)
Definition DecodeRow (D : Decoder ZR) : res (list Z) * Decoder ZR :=
  if y D >=? height (dd D) then (Err EOF, D) else
  (* Read the decompressed bytes. *)
  let '(bs, e, z', d') := io_ReadFull_zlib (zlibR D) (length (cr D)) (dd D) in
  let D1 := store (cur D) (overwrite bs (cr D)) (set_zlibR z' (set_dd d' D)) in
  match e with
  | Some EOF | Some ErrUnexpectedEOF => (Err (FormatError "not enough pixel data"), D1)
  | Some err => (Err err, D1)
  | None =>
      (* Apply the filter. *)
      match cr D1, pr D1 with
      | ft :: cdat, _ :: pdat =>
          match unfilter ft cdat pdat (bytesPerPixel D1) with
          | BadFilter => (Err (FormatError "bad filter type"), D1)
          | FilterPanic => (Panic, D1)
          | Filtered cdat' =>
              let D2 := store (cur D1) (ft :: cdat') D1 in
              (Ok cdat', set_y (to_int a (y D2 + 1)) (set_cur (other (cur D2)) D2))
          end
      | _, _ => (Panic, D1)
      end
  end.

(** [Close] checks the validity of the decoded image stream at the end. *)
Definition Close (D : Decoder ZR) : res unit * Decoder ZR :=
  if stage (dd D) =? dsSeenIEND then (Ok tt, D) else
  match zlib_Close (zlibR D) with
  | (Some e, z') => (Err e, set_zlibR z' D)
  | (None, z') =>
      let D1 := set_zlibR z' D in
      match (exec verifyChecksum crc32_ieee; readIEND crc32_ieee) (dd D1) with
      | (Ok _, d') => (Ok tt, set_dd d' D1)
      | (Err e, d') => (Err e, set_dd d' D1)
      | (Panic, d') => (Panic, set_dd d' D1)
      | (OutOfFuel, d') => (OutOfFuel, set_dd d' D1)
      end
  end.

End RowDecoder.

(** ** A pull-based model of the zlib reader *)

(** What a streaming inflater has made of the compressed bytes it has
    been fed so far: it wants more input for more data; it has met the end
    of the data and wants the rest of the stream's trailer (for zlib the
    Adler-32 checksum of the data); it has met the end of the compressed
    stream; or the input is corrupt. *)
Inductive zstatus : Type :=
| ZMore
| ZTail
| ZDone
| ZBad (msg : string).

(** The reader's state: the compressed bytes pulled so far, how many
    decompressed bytes have been handed out, and the error it has met. *)
Record zstate : Type := mkZ {
  zin : list Z;
  zpos : nat;
  zerr : option error
}.

(** [bufio]'s default buffer size: the reader asks its source for up to
    this many bytes at a time. *)
Definition defaultBufSize : nat := 4096.

Definition no_eof (e : error) : error :=
  match e with EOF => ErrUnexpectedEOF | _ => e end.

(** The error [io.ReadFull] returns when the reader failed with [e] after
    [got] was copied. *)
Definition readfull_err (got : list Z) (e : error) : error :=
  match e, got with
  | EOF, _ :: _ => ErrUnexpectedEOF
  | _, _ => e
  end.

Section PullZlib.

Variable a : arch.
Variable crc32_ieee : list Z -> Z.

(** The decompression itself is a parameter: [inflate c] is the output
    the compressed prefix [c] determines, with the inflater's status. *)
Variable inflate : list Z -> list Z * zstatus.

(** One fill of the input buffer through [decoder.Read]. *)
Definition zfill (z : zstate) (d : decoder) : zstate * decoder :=
  match Read a crc32_ieee defaultBufSize d with
  | (Ok (bs, None), d') => (mkZ (zin z ++ bs) (zpos z) (zerr z), d')
  | (Ok (bs, Some e), d') => (mkZ (zin z ++ bs) (zpos z) (Some (no_eof e)), d')
  | (_, d') => (mkZ (zin z) (zpos z) (Some (ZlibError "no progress")), d')
  end.

(** Fill until [k] compressed bytes are there or the source fails. *)
Fixpoint zneed (fuel : nat) (k : nat) (z : zstate) (d : decoder) : zstate * decoder :=
  if decide (k <= length (zin z))%nat then (z, d) else
  match zerr z, fuel with
  | Some _, _ => (z, d)
  | None, O => (mkZ (zin z) (zpos z) (Some (ZlibError "no progress")), d)
  | None, S fuel' => let '(z', d') := zfill z d in zneed fuel' k z' d'
  end.

(** [zlib.NewReader(d)]: reads and checks the two-byte stream header. *)
Definition pull_NewReader (d : decoder) : res zstate * decoder :=
  let '(z, d') := zneed (S (length (r d))) 2 (mkZ [] 0 None) d in
  if decide (2 <= length (zin z))%nat then
    match inflate (take 2 (zin z)) with
    | (_, ZBad msg) => (Err (ZlibError msg), d')
    | _ => (Ok z, d')
    end
  else (Err (match zerr z with Some e => e | None => ErrUnexpectedEOF end), d').

(** [io.ReadFull(z, buf)] with [len(buf) = n]: input is pulled when the
    output determined so far does not fill the buffer.  A read that takes
    the last of that output comes back with what the inflater has met
    behind it: at the end of the data the reader first pulls the stream's
    trailer, as [zlib]'s [Read] does in the call in which the decompressor
    reports the end ("Finished file; check checksum"), and keeps the error
    of a corrupt stream for [Close]. *)
Fixpoint pull_ReadFull_loop (fuel : nat) (z : zstate) (n : nat) (d : decoder)
  : list Z * option error * zstate * decoder :=
  let '(out, st) := inflate (zin z) in
  let avail := drop (zpos z) out in
  if decide (n <= length avail)%nat
  then
    let give (e : option error) :=
      (take n avail, None, mkZ (zin z) (zpos z + n) e, d) in
    if decide (n = length avail)
    then
      match zerr z, st, fuel with
      | None, ZTail, S fuel' =>
          let '(z', d') := zfill z d in pull_ReadFull_loop fuel' z' n d'
      | None, ZBad msg, _ => give (Some (ZlibError msg))
      | e, _, _ => give e
      end
    else give (zerr z)
  else
    let stop (e : error) :=
      (avail, Some (readfull_err avail e), mkZ (zin z) (length out) (Some e), d) in
    match zerr z, st, fuel with
    | Some e, _, _ => stop e
    | None, ZDone, _ => stop EOF
    | None, ZBad msg, _ => stop (ZlibError msg)
    | None, (ZMore | ZTail), O => stop (ZlibError "no progress")
    | None, (ZMore | ZTail), S fuel' =>
        let '(z', d') := zfill z d in pull_ReadFull_loop fuel' z' n d'
    end.

Definition pull_ReadFull (z : zstate) (n : nat) (d : decoder)
  : list Z * option error * zstate * decoder :=
  pull_ReadFull_loop (S (length (r d))) z n d.

(** [z.Close()]: the error the reader met, unless it is the end of the
    stream. *)
Definition pull_Close (z : zstate) : option error * zstate :=
  match zerr z with
  | Some EOF | None => (None, z)
  | Some e => (Some e, z)
  end.

#[local] Instance PullZlib : ZlibReader zstate := {
  zlib_NewReader := pull_NewReader;
  zlib_ReadFull := pull_ReadFull;
  zlib_Close := pull_Close
}.

End PullZlib.

(** ** Concrete parameters, for running the model *)

(** CRC-32 with the IEEE polynomial, bit by bit. *)
Definition crc32_bit (c : Z) : Z :=
  if Z.testbit c 0 then Z.lxor (Z.shiftr c 1) 3988292384 else Z.shiftr c 1.

Definition crc32_byte (c : Z) (b : Z) : Z :=
  Nat.iter 8 crc32_bit (Z.lxor c b).

Definition crc32 (bs : list Z) : Z :=
  Z.lxor (fold_left crc32_byte bs 4294967295) 4294967295.

(** A store-only codec: one length byte, then the data as they are. *)
Definition stored_deflate (x : list Z) : list Z := len x :: x.

Definition stored_inflate (c : list Z) : list Z * zstatus :=
  match c with
  | [] => ([], ZMore)
  | n :: rest =>
      if len rest <? n then (rest, ZMore) else (take (Z.to_nat n) rest, ZDone)
  end.




(** A chunk as it stands in a file: length, tag, payload, checksum. *)
Definition chunk (crc32_ieee : list Z -> Z) (tag payload : list Z) : list Z :=
  BigEndian_PutUint32 (len payload) ++ tag ++ payload
  ++ BigEndian_PutUint32 (to_uint32 (crc32_ieee (tag ++ payload))).

(** The payload of an IHDR chunk for the supported profile. *)
Definition ihdr_payload (w h : Z) : list Z :=
  BigEndian_PutUint32 w ++ BigEndian_PutUint32 h ++ [8; ctTrueColorAlpha; 0; 0; 0].

(** ** The header checks as the specification words them *)

(** The checks on a 13-byte IHDR payload in the order the specification
    lists them, with the error of the first one that fails: compression
    method, filter method, positive 32-bit dimensions, no overflow of the
    platform's [int] by width * height * 8, and the 8-bit
    truecolor-with-alpha profile. *)
Definition ihdr_checks (a : arch) (p : list Z) : option error :=
  let w := BigEndian_Uint32 (take 4 p) in
  let h := BigEndian_Uint32 (take 4 (drop 4 p)) in
  let bitDepth := nth 8 p 0 in
  let colorType := nth 9 p 0 in
  if negb (nth 10 p 0 =? 0) then Some (UnsupportedError "compression method")
  else if negb (nth 11 p 0 =? 0) then Some (UnsupportedError "filter method")
  else if negb ((0 <? w) && (w <? 2 ^ 31) && (0 <? h) && (h <? 2 ^ 31))
  then Some (FormatError "non-positive dimension")
  else if maxInt a <? w * h * 8 then Some (UnsupportedError "dimension overflow")
  else if negb ((bitDepth =? 8) && (colorType =? ctTrueColorAlpha))
  then Some (UnsupportedError
               ("bit depth " ++ fmt_d bitDepth ++ ", color type " ++ fmt_d colorType))
  else None.


(** ** The reader of the test suite *)

(** [image.NRGBA], as far as [readPNG] uses it. *)
Record NRGBA : Type := mkNRGBA {
  Pix : list Z;
  Stride : Z;
  Rect : Z * Z * Z * Z
}.

(** [copy(dst[offset:], src)]; [None] is the panic of a slice bound out
    of range. *)
Definition copy_at (dst : list Z) (offset : Z) (src : list Z) : option (list Z) :=
  if (offset <? 0) || (len dst <? offset) then None
  else Some (take (Z.to_nat offset) dst ++ overwrite src (drop (Z.to_nat offset) dst)).

Section ReadPNG.

Variable a : arch.
Variable crc32_ieee : list Z -> Z.
Context {ZR : Type} {zlib : ZlibReader ZR}.

(** The loop [for y := 0; y < h; y++] of [readPNG] in reader_test.go,
    with [n] rounds to go. *)
Fixpoint readPNG_rows (n : nat) (yy w h : Z) (img : NRGBA) (D : Decoder ZR)
  : res NRGBA * Decoder ZR :=
  match n with
  | O => (Ok img, D)
  | S n' =>
      match DecodeRow a D with
      | (Ok row, D') =>
          if negb (len row =? to_int a (w * 4))
          then (Err (Errorf (fmt_d (len row) ++ " " ++ fmt_d (to_int a (w * h)))), D')
          else
            (* img.PixOffset(0, y) *)
            let offset := to_int a (yy * Stride img) in
            match copy_at (Pix img) offset row with
            | Some pix =>
                readPNG_rows n' (yy + 1) w h (mkNRGBA pix (Stride img) (Rect img)) D'
            | None => (Panic, D')
            end
      | (Err e, D') => (Err e, D')
      | (Panic, D') => (Panic, D')
      | (OutOfFuel, D') => (OutOfFuel, D')
      end
  end.

(** [readPNG]: [NewDecoder], every row copied into a fresh
    [image.NewNRGBA(image.Rect(0, 0, w, h))], then [Close].  The pixel
    buffer is taken as [image.NewNRGBA] returns it, [4 * w * h] zero bytes:
    the model has no bound on memory, so a buffer that the Go runtime
    would refuse to allocate is there too. *)
Definition readPNG (input : list Z) : res NRGBA :=
  match NewDecoder a crc32_ieee input with
  | Err e => Err e
  | Panic => Panic
  | OutOfFuel => OutOfFuel
  | Ok D =>
      let '(_, _, w, h) := Bounds D in
      let img := mkNRGBA (repeat 0 (Z.to_nat (to_int a (4 * w * h))))
                   (to_int a (4 * w)) (0, 0, w, h) in
      match readPNG_rows (Z.to_nat h) 0 w h img D with
      | (Err e, _) => Err e
      | (Panic, _) => Panic
      | (OutOfFuel, _) => OutOfFuel
      | (Ok img', D') =>
          match Close crc32_ieee D' with
          | (Err e, _) => Err e
          | (Panic, _) => Panic
          | (OutOfFuel, _) => OutOfFuel
          | (Ok _, _) => Ok img'
          end
      end
  end.

End ReadPNG.

(** ** Sample streams *)

(** A sample decoder: 64-bit [int], the real CRC-32, the store-only
    codec behind the pull-based zlib reader. *)
Definition sample_zlib : ZlibReader zstate := PullZlib Arch64 crc32 stored_inflate.

Definition sample_NewDecoder (input : list Z) : res (Decoder zstate) :=
  NewDecoder Arch64 crc32 (zlib := sample_zlib) input.


Definition sample_DecodeRow (D : Decoder zstate) : res (list Z) * Decoder zstate :=
  DecodeRow Arch64 (zlib := sample_zlib) D.

(** The decoder after [n] calls of [DecodeRow], whatever they returned. *)
Fixpoint after_rows (n : nat) (D : Decoder zstate) : Decoder zstate :=
  match n with
  | O => D
  | S n' => after_rows n' (snd (sample_DecodeRow D))
  end.

Definition session (input : list Z) (n : nat) : Decoder zstate :=
  match sample_NewDecoder input with
  | Ok D => after_rows n D
  | _ => mkDec (new_decoder []) (mkZ [] 0 None) 0 [] [] Buf0 0
  end.

(** A 2 x 3 image: a row filtered None, one filtered Average, one
    filtered Paeth. *)
Definition sample_scanlines : list Z :=
  [ftNone; 0; 0; 0; 0; 100; 0; 0; 0]
  ++ [ftAverage; 200; 0; 0; 0; 0; 0; 0; 0]
  ++ [ftPaeth; 1; 2; 3; 4; 5; 6; 7; 8].

Definition sample_png : list Z :=
  pngHeader ++ chunk crc32 tagIHDR (ihdr_payload 2 3)
  ++ chunk crc32 tagIDAT (stored_deflate sample_scanlines)
  ++ chunk crc32 tagIEND [].

(** The same image with its compressed stream cut into two IDAT chunks. *)
Definition split_png : list Z :=
  pngHeader ++ chunk crc32 tagIHDR (ihdr_payload 2 3)
  ++ chunk crc32 tagIDAT (take 10 (stored_deflate sample_scanlines))
  ++ chunk crc32 tagIDAT (drop 10 (stored_deflate sample_scanlines))
  ++ chunk crc32 tagIEND [].

(** The same image followed by an IDAT chunk that the compressed stream
    does not need. *)
Definition surplus_png : list Z :=
  pngHeader ++ chunk crc32 tagIHDR (ihdr_payload 2 3)
  ++ chunk crc32 tagIDAT (stored_deflate sample_scanlines)
  ++ chunk crc32 tagIDAT [0]
  ++ chunk crc32 tagIEND [].

(** A stream with its header chunk twice. *)
Definition twice_IHDR_png : list Z :=
  pngHeader ++ chunk crc32 tagIHDR (ihdr_payload 2 3)
  ++ chunk crc32 tagIHDR (ihdr_payload 2 3)
  ++ chunk crc32 tagIDAT (stored_deflate sample_scanlines)
  ++ chunk crc32 tagIEND [].

(** A stream whose IDAT chunk declares 2^31 bytes, and the decoder of a
    32-bit platform after the chunk loop of [NewDecoder] has read that
    header. *)
Definition overflow_png : list Z :=
  pngHeader ++ chunk crc32 tagIHDR (ihdr_payload 1 1)
  ++ [128; 0; 0; 0] ++ tagIDAT ++ [1; 2; 3].

Definition overflow_decoder : decoder :=
  snd (chunk_loop Arch32 crc32 64 (snd (checkHeader (new_decoder overflow_png)))).

(** ** Notions the properties are stated with *)

(** A method that never puts bytes back into the input stream. *)
Definition no_grow {A : Type} (m : M A) : Prop :=
  forall d, (length (r (snd (m d))) <= length (r d))%nat.

(** [rounds a crc d0 d]: the chunk loop of [NewDecoder], entered in state
    [d0], begins a round in state [d]. *)
Inductive rounds (a : arch) (crc32_ieee : list Z -> Z) : decoder -> decoder -> Prop :=
| rounds_first (d : decoder) : rounds a crc32_ieee d d
| rounds_next (d0 d d' : decoder) :
    rounds a crc32_ieee d0 d ->
    chunk_round a crc32_ieee d = (Ok true, d') ->
    rounds a crc32_ieee d0 d'.

(** The byte to the left of index [i] in a row of [bpp]-byte pixels, 0
    for the first pixel. *)
Definition left_nth (bpp : nat) (s : list Z) (i : nat) : Z :=
  if decide (i < bpp)%nat then 0 else nth (i - bpp) s 0.

(** What a filter type adds to a byte, from the reconstructed byte to the
    left, the byte above and the byte above left. *)
Definition predictor (ft : Z) (l u ul : Z) : Z :=
  if ft =? ftSub then l
  else if ft =? ftUp then u
  else if ft =? ftAverage then Z.quot (l + u) 2
  else if ft =? ftPaeth then paeth l u ul
  else 0.

(** Modelled from the spec: the reconstruction of a scanline (section
    4.5).  [reconstructs ft raw prev row]: [row] holds the reconstructed
    (filter type None) bytes of the scanline whose filter byte is [ft] and
    whose filtered bytes are [raw], under the reconstructed row [prev] above
    it.  None leaves every byte as it is, and so does Sub in the first
    pixel; every other byte is the filtered byte plus, modulo 256, what
    the filter type predicts from the reconstructed bytes to the left,
    above and above left.  The Average sum is the one the code computes,
    in [int]. *)
Definition reconstructs (ft : Z) (raw prev row : list Z) : Prop :=
  0 <= ft < nFilter
  /\ length row = length raw
  /\ forall k, (k < length raw)%nat ->
       nth k row 0
       = if (ft =? ftNone) || ((ft =? ftSub) && bool_decide (k < 4)%nat)
         then nth k raw 0
         else to_uint8 (nth k raw 0
                        + predictor ft (left_nth 4 row k) (nth k prev 0) (left_nth 4 prev k)).

(** The row above the latest of the rows returned so far, the latest
    first: the row returned before it, or [n] zeros above the first row. *)
Definition row_above (above : list (list Z)) (n : nat) : list Z :=
  match above with
  | [] => repeat 0 n
  | up :: _ => up
  end.

(** The Average formula as the claim words it: the sum of the left and
    upper bytes wraps at 8 bits before it is halved. *)
Definition average_wrapped (x l p : Z) : Z :=
  to_uint8 (x + to_uint8 (l + p) / 2).

(** The decoders a session passes through: [NewDecoder] on [input], then
    calls of [DecodeRow] that returned, with the rows they returned, the
    latest first. *)
Inductive Reach (a : arch) (crc32_ieee : list Z -> Z) {ZR : Type} {zlib : ZlibReader ZR}
          (input : list Z) : Decoder ZR -> list (list Z) -> Prop :=
| Reach_new (D : Decoder ZR) :
    NewDecoder a crc32_ieee input = Ok D -> Reach a crc32_ieee input D []
| Reach_row (D D' : Decoder ZR) (row : list Z) (rows : list (list Z)) :
    Reach a crc32_ieee input D rows ->
    DecodeRow a D = (Ok row, D') ->
    Reach a crc32_ieee input D' (row :: rows)
| Reach_err (D D' : Decoder ZR) (e : error) (rows : list (list Z)) :
    Reach a crc32_ieee input D rows ->
    DecodeRow a D = (Err e, D') ->
    Reach a crc32_ieee input D' rows.


(** ** The encoder, from the specification *)

(** Modelled from the spec: the encoder's compression-effort levels
    (section 6); the encoder itself is not among the sources. *)
Inductive CompressionLevel : Set := BestSpeed | DefaultCompression | BestCompression.

(** Modelled from the spec: the filter an encoder records for a row. *)
Inductive filterType : Set := FNone | FSub | FUp | FAverage | FPaeth.

Definition filter_tag (f : filterType) : Z :=
  match f with
  | FNone => ftNone
  | FSub => ftSub
  | FUp => ftUp
  | FAverage => ftAverage
  | FPaeth => ftPaeth
  end.

(** Modelled from the spec: filter application, "the algebraic inverse of
    each formula (subtraction instead of addition ...)" (section 4.5): the
    value reconstruction adds, computed from the original bytes of the
    row and of the row above, is subtracted modulo 256. *)
Definition apply_filter (f : filterType) (row prev : list Z) : list Z :=
  imap (fun i x =>
          to_uint8 (x - predictor (filter_tag f)
                          (left_nth 4 row i) (nth i prev 0) (left_nth 4 prev i)))
       row.

(** Modelled from the spec: the scanlines fed to the compression
    transform (section 4.7): for each row in order, the filter byte the
    policy [choose] picks and the filtered bytes; the row above the first
    is all zeros. *)
Fixpoint scanlines (choose : nat -> list Z -> list Z -> filterType)
         (i : nat) (prev : list Z) (rows : list (list Z)) : list Z :=
  match rows with
  | [] => []
  | row :: rows' =>
      let f := choose i row prev in
      (filter_tag f :: apply_filter f row prev) ++ scanlines choose (S i) row rows'
  end.

(** The pixel rows of an [image.NRGBA]: row [i] of the rectangle is the
    [4 * width] bytes of [Pix] from [i * Stride] on (its [PixOffset]). *)
Definition image_rows (img : NRGBA) : list (list Z) :=
  let '(x0, y0, x1, y1) := Rect img in
  map (fun i => take (Z.to_nat (4 * (x1 - x0)))
                     (drop (Z.to_nat (Z.of_nat i * Stride img)) (Pix img)))
      (seq 0 (Z.to_nat (y1 - y0))).


(** Modelled from the spec: the compressed stream cut into segments of at
    most [m] bytes, one per IDAT chunk (section 4.4). *)
Fixpoint segments (fuel m : nat) (c : list Z) : list (list Z) :=
  match fuel, c with
  | S fuel', _ :: _ => take m c :: segments fuel' m (drop m c)
  | _, _ => []
  end.

Section Encoder.

Variable crc32_ieee : list Z -> Z.

(** The compression transform is a parameter, as the inflater is. *)
Variable deflate : CompressionLevel -> list Z -> list Z.

(** Modelled from the spec: [Encode] (sections 4.7 and 6): the signature,
    the header chunk, the IDAT chunks of the compressed scanlines, and
    the zero-length terminal chunk. *)
Definition Encode (level : CompressionLevel)
           (choose : nat -> list Z -> list Z -> filterType) (maxChunk : nat)
           (img : NRGBA) : list Z :=
  let '(x0, y0, x1, y1) := Rect img in
  (* b.Dx(), b.Dy() *)
  let w := x1 - x0 in
  let h := y1 - y0 in
  let data := scanlines choose 0 (repeat 0 (Z.to_nat (4 * w))) (image_rows img) in
  let compressed := deflate level data in
  pngHeader
  ++ chunk crc32_ieee tagIHDR (ihdr_payload w h)
  ++ concat (map (chunk crc32_ieee tagIDAT)
                 (segments (length compressed) maxChunk compressed))
  ++ chunk crc32_ieee tagIEND [].

End Encoder.


(** A sample image and the policy that cycles through the five filters. *)
Definition sample_image : NRGBA :=
  mkNRGBA [0; 0; 0; 0; 100; 0; 0; 0;
           200; 0; 0; 0; 150; 0; 0; 0;
           201; 2; 3; 4; 155; 8; 10; 12] 8 (0, 0, 2, 3).




Definition cycle_filters (i : nat) (row prev : list Z) : filterType :=
  match (i mod 5)%nat with
  | 0%nat => FPaeth
  | 1%nat => FAverage
  | 2%nat => FSub
  | 3%nat => FUp
  | _ => FNone
  end.


(** ** The decoder on the encoder's output *)

(** The input left when the adapter stands in an IDAT chunk of which
    [done] has been read and [todo] is still to come, with the IDAT chunks
    [more] and then [rest] behind it. *)
Definition idat_tail (crc32_ieee : list Z -> Z) (done todo : list Z)
           (more : list (list Z)) (rest : list Z) : list Z :=
  todo ++ BigEndian_PutUint32 (to_uint32 (crc32_ieee (tagIDAT ++ done ++ todo)))
  ++ concat (map (chunk crc32_ieee tagIDAT) more) ++ rest.

(** The decoder stands at that place. *)
Definition Adapter (crc32_ieee : list Z -> Z) (d : decoder) (done todo : list Z)
           (more : list (list Z)) (rest : list Z) : Prop :=
  r d = idat_tail crc32_ieee done todo more rest
  /\ crc d = tagIDAT ++ done
  /\ idatLength d = len todo
  /\ len (done ++ todo) < 2 ^ 31
  /\ Forall (fun s => s <> [] /\ len s < 2 ^ 31) more.

(** The fields of the decoder that chunk data never change. *)
Definition meta (d : decoder) : Z * Z * Z * Z * Z :=
  (width d, height d, depth d, cb d, stage d).

(** What the round trip asks of the compression transform, with
    [inflate c] what the inflater hands out of the compressed bytes [c]:
    inflating a whole compressed stream gives the data back; of a
    compressed stream cut short the inflater hands out a part of the
    data, and it either asks for more data, some being left, or has
    handed out all of the data and waits for the rest of the stream's
    trailer; a compressed stream holds at least its two-byte header.  An
    inflater that hands out the last of the data while it still asks for
    more is not covered: behind such a stream the reader would not stand
    at the end of the last IDAT chunk when [Close] checks it. *)
Definition streaming_codec (inflate : list Z -> list Z * zstatus)
           (deflate : CompressionLevel -> list Z -> list Z) : Prop :=
  (forall l x, inflate (deflate l x) = (x, ZDone))
  /\ (forall l x c s, x <> [] -> deflate l x = c ++ s -> s <> [] ->
        exists o t, x = o ++ t
                    /\ ((t <> [] /\ inflate c = (o, ZMore))
                        \/ (t = [] /\ inflate c = (o, ZTail))))
  /\ (forall l x, x <> [] -> (2 <= length (deflate l x))%nat).



(** ** Notions for the properties of whole sessions *)

(** A call that came back, with a value or with an error: it neither
    panicked nor was cut off by the fuel of a loop. *)
Definition returned {A : Type} (x : res A) : Prop :=
  match x with
  | Ok _ | Err _ => True
  | Panic | OutOfFuel => False
  end.

(** A method that leaves the header fields and the stage alone. *)
Definition keeps_meta {A : Type} (m : M A) : Prop :=
  forall d, meta (snd (m d)) = meta d.

(** What a successful [parseIHDR] has recorded. *)
Definition header_ok (a : arch) (d : decoder) : Prop :=
  0 < width d < 2 ^ 31 /\ 0 < height d < 2 ^ 31
  /\ width d * height d * 8 <= maxInt a
  /\ depth d = 8 /\ cb d = cbTCA8.

(** [reads a crc d d']: the decoder went from [d] to [d'] by calls of
    its method [Read] alone. *)
Inductive reads (a : arch) (crc32_ieee : list Z -> Z) : decoder -> decoder -> Prop :=
| reads_none (d : decoder) : reads a crc32_ieee d d
| reads_more (d d' : decoder) (n : nat) :
    reads a crc32_ieee d d' ->
    reads a crc32_ieee d (snd (Read a crc32_ieee n d')).

(** A zlib reader that uses the decoder it was given as an [io.Reader]
    only, as [zlib.NewReader(d)] does: whatever it does to the decoder it
    does through [Read]; and [zlib.NewReader] returns. *)
Definition reads_only (a : arch) (crc32_ieee : list Z -> Z)
           {ZR : Type} (zlib : ZlibReader ZR) : Prop :=
  (forall d, reads a crc32_ieee d (snd (zlib_NewReader d))
             /\ returned (fst (zlib_NewReader d)))
  /\ (forall z n d, reads a crc32_ieee d (snd (zlib_ReadFull z n d))).

(** What holds of a [Decoder] between the calls of a session. *)
Definition SessInv (a : arch) {ZR : Type} (D : Decoder ZR) : Prop :=
  header_ok a (dd D)
  /\ stage (dd D) = dsSeenIDAT
  /\ bytesPerPixel D = 4
  /\ length (buf0 D) = S (Z.to_nat (4 * width (dd D)))
  /\ length (buf1 D) = S (Z.to_nat (4 * width (dd D)))
  /\ 0 <= y D <= height (dd D).

(** A result that is not an error made by [fmt.Errorf]. *)
Definition not_Errorf {A : Type} (x : res A) : Prop :=
  match x with
  | Err (Errorf _) => False
  | _ => True
  end.

(** The decoder's remaining IDAT length is a [uint32] and its input is a
    stream of bytes. *)
Definition well_typed (d : decoder) : Prop :=
  0 <= idatLength d < 2 ^ 32 /\ Forall is_byte (r d).

(** A result whose error, if it is one, is among [P]. *)
Definition fails_only (P : error -> Prop) {A : Type} (x : res A) : Prop :=
  match x with
  | Err e => P e
  | _ => True
  end.

(** The errors of [io.ReadFull] and the format errors. *)
Definition io_or_format (e : error) : Prop :=
  match e with
  | EOF | ErrUnexpectedEOF | FormatError _ => True
  | _ => False
  end.

(** Every error but those made by [fmt.Errorf]. *)
Definition no_Errorf (e : error) : Prop :=
  match e with
  | Errorf _ => False
  | _ => True
  end.

(** ** More sample streams *)

(** A 2 x 2 image: a row filtered Sub and a row filtered Up. *)
Definition sub_up_png : list Z :=
  pngHeader ++ chunk crc32 tagIHDR (ihdr_payload 2 2)
  ++ chunk crc32 tagIDAT
       (stored_deflate ([ftSub; 10; 20; 30; 40; 1; 2; 3; 4]
                        ++ [ftUp; 250; 0; 0; 0; 0; 0; 0; 250]))
  ++ chunk crc32 tagIEND [].

(** A 1 x 1 image whose only row has the filter byte 7. *)
Definition bad_filter_png : list Z :=
  pngHeader ++ chunk crc32 tagIHDR (ihdr_payload 1 1)
  ++ chunk crc32 tagIDAT (stored_deflate [7; 1; 2; 3; 4])
  ++ chunk crc32 tagIEND [].

Definition tagtEXt : list Z := bytes_of_string "tEXt".

(** [sample_png] with a text chunk of 5000 bytes, more than one piece of
    the skipping loop, between its header and its data. *)
Definition text_png : list Z :=
  pngHeader ++ chunk crc32 tagIHDR (ihdr_payload 2 3)
  ++ chunk crc32 tagtEXt (repeat 65 5000)
  ++ chunk crc32 tagIDAT (stored_deflate sample_scanlines)
  ++ chunk crc32 tagIEND [].

(** A text chunk with a wrong checksum behind the signature. *)
Definition bad_text_png : list Z :=
  pngHeader ++ ([0; 0; 0; 2] ++ tagtEXt ++ [104; 105] ++ [0; 0; 0; 0])
  ++ chunk crc32 tagIEND [].

(** The decoder after the signature of [input]. *)
Definition after_signature (input : list Z) : decoder :=
  snd (checkHeader (new_decoder input)).

(** * Properties *)

(** ** Reading from the stream *)

Lemma io_ReadFull_ok (s : list Z) (n : nat) :
  (n <= length s)%nat -> io_ReadFull s n = (take n s, None, drop n s).
Proof. intros H. unfold io_ReadFull. destruct (decide (n <= length s)%nat); [done | lia]. Qed.

Lemma io_ReadFull_app (p s : list Z) :
  io_ReadFull (p ++ s) (length p) = (p, None, s).
Proof.
  rewrite io_ReadFull_ok by (rewrite length_app; lia).
  by rewrite take_app_length, drop_app_length.
Qed.

Lemma ReadFull_tmp_app (p s : list Z) (d : decoder) (n : nat) :
  r d = p ++ s -> n = length p ->
  ReadFull_tmp n d = (Ok p, set_tmp (overwrite p (tmp d)) (set_r s d)).
Proof. intros E ->. unfold ReadFull_tmp. rewrite E, io_ReadFull_app. reflexivity. Qed.

Lemma ReadFull_tmp_short (d : decoder) (n : nat) :
  (length (r d) < n)%nat ->
  ReadFull_tmp n d
  = (Err (match r d with [] => EOF | _ => ErrUnexpectedEOF end),
     set_tmp (overwrite (r d) (tmp d)) (set_r [] d)).
Proof.
  intros H. unfold ReadFull_tmp, io_ReadFull.
  destruct (decide (n <= length (r d))%nat); [lia | reflexivity].
Qed.

Lemma bytes_eqb_eq (x y : list Z) : bytes_eqb x y = true <-> x = y.
Proof. unfold bytes_eqb. apply bool_decide_eq_true. Qed.

Lemma bytes_eqb_neq (x y : list Z) : bytes_eqb x y = false <-> x <> y.
Proof. unfold bytes_eqb. apply bool_decide_eq_false. Qed.

(** [copy] keeps the length of its destination. *)
Lemma length_overwrite (src dst : list Z) : length (overwrite src dst) = length dst.
Proof. unfold overwrite. rewrite length_app, length_take, length_drop. lia. Qed.

(** ** Machine arithmetic *)

Lemma wrap_signed_small (bits x : Z) :
  0 < bits -> - 2 ^ (bits - 1) <= x < 2 ^ (bits - 1) -> wrap_signed bits x = x.
Proof.
  intros Hb Hx. unfold wrap_signed.
  assert (2 ^ bits = 2 * 2 ^ (bits - 1)) as E.
  { rewrite <- Z.pow_succ_r by lia. f_equal. lia. }
  rewrite Z.mod_small; lia.
Qed.

Lemma to_int32_u32 (x : Z) :
  0 <= x < 2 ^ 32 ->
  (to_int32 x <=? 0) = negb ((0 <? x) && (x <? 2 ^ 31))
  /\ (0 < x < 2 ^ 31 -> to_int32 x = x).
Proof.
  intros Hx. split.
  - unfold to_int32, wrap_signed. change (2 ^ (32 - 1)) with 2147483648.
    change (2 ^ 32) with 4294967296 in *. change (2 ^ 31) with 2147483648.
    destruct (Z.ltb_spec 0 x), (Z.ltb_spec x 2147483648), (Z.leb_spec ((x + 2147483648) mod 4294967296 - 2147483648) 0);
      simpl; try reflexivity; exfalso; Z.div_mod_to_equations; lia.
  - intros H. apply wrap_signed_small; [lia|]. change (2 ^ (32 - 1)) with (2 ^ 31). lia.
Qed.

Lemma BigEndian_Uint32_range (b : list Z) :
  Forall is_byte b -> 0 <= BigEndian_Uint32 b < 2 ^ 32.
Proof.
  intros H. unfold BigEndian_Uint32.
  assert (forall i, 0 <= nth i b 0 < 256) as Hn.
  { intros i. destruct (nth_in_or_default i b 0) as [Hin | ->]; [|lia].
    rewrite Forall_forall in H. apply H. by apply list_elem_of_In. }
  pose proof (Hn 0%nat). pose proof (Hn 1%nat). pose proof (Hn 2%nat). pose proof (Hn 3%nat).
  change (2 ^ 24) with 16777216. change (2 ^ 16) with 65536. change (2 ^ 8) with 256.
  change (2 ^ 32) with 4294967296. lia.
Qed.

Lemma wrap_signed_range (bits x : Z) :
  0 < bits -> - 2 ^ (bits - 1) <= wrap_signed bits x < 2 ^ (bits - 1).
Proof.
  intros Hb. unfold wrap_signed.
  assert (2 ^ bits = 2 * 2 ^ (bits - 1)) as E.
  { rewrite <- Z.pow_succ_r by lia. f_equal. lia. }
  assert (0 < 2 ^ (bits - 1)) by (apply Z.pow_pos_nonneg; lia).
  pose proof (Z.mod_pos_bound (x + 2 ^ (bits - 1)) (2 ^ bits)). lia.
Qed.

(** [(n * 8) / 8] gives [n] back exactly when [n * 8] did not wrap. *)
Lemma times8_roundtrip (bits n : Z) :
  3 < bits -> 0 < n < 2 ^ (bits - 1) ->
  (n =? Z.quot (wrap_signed bits (n * 8)) 8) = (n * 8 <? 2 ^ (bits - 1)).
Proof.
  intros Hb Hn.
  destruct (Z.ltb_spec (n * 8) (2 ^ (bits - 1))) as [Hlt|Hge].
  - rewrite wrap_signed_small by lia. rewrite Z.quot_mul by lia. apply Z.eqb_refl.
  - pose proof (wrap_signed_range bits (n * 8)).
    apply Z.eqb_neq. intros E.
    assert (wrap_signed bits (n * 8) < n * 8) as Hlt by lia.
    revert E Hlt. generalize (wrap_signed bits (n * 8)). intros v E Hlt.
    destruct (Z.lt_ge_cases v 0).
    + assert (Z.quot v 8 <= 0); [|lia].
      rewrite <- (Z.opp_involutive v), Z.quot_opp_l by lia.
      pose proof (Z.quot_pos (- v) 8). lia.
    + rewrite Z.quot_div_nonneg in E by lia.
      pose proof (Z.mul_div_le v 8). lia.
Qed.

(** The two overflow tests of [parseIHDR] together say that the pixel
    count times eight fits the platform's [int]. *)
Lemma dimension_overflow_test (a : arch) (n : Z) :
  0 < n < 2 ^ 62 ->
  let nPixels64 := to_int64 n in
  let nPixels := to_int a nPixels64 in
  negb (nPixels64 =? to_int64 nPixels) || negb (nPixels =? Z.quot (to_int a (nPixels * 8)) 8)
  = (maxInt a <? n * 8).
Proof.
  intros Hn. cbv zeta.
  change (2 ^ 62) with 4611686018427387904 in Hn.
  assert (forall x, - 2147483648 <= x < 4611686018427387904 -> to_int64 x = x) as small64.
  { intros x Hx. apply wrap_signed_small; [lia|].
    change (2 ^ (64 - 1)) with 9223372036854775808. lia. }
  rewrite (small64 n) by lia.
  unfold to_int, maxInt.
  destruct (Z.lt_ge_cases n (2 ^ (intSize a - 1))) as [Hs|Hl].
  - assert (0 < intSize a) by (destruct a; done).
    rewrite (wrap_signed_small (intSize a) n) by lia.
    rewrite (small64 n) by lia.
    rewrite Z.eqb_refl. simpl.
    rewrite times8_roundtrip by (destruct a; simpl in *; lia).
    destruct (Z.ltb_spec (n * 8) (2 ^ (intSize a - 1))),
             (Z.ltb_spec (2 ^ (intSize a - 1) - 1) (n * 8));
      simpl; try reflexivity; lia.
  - assert (intSize a = 32) as E32.
    { destruct a; [done|]. simpl in Hl.
      change (2 ^ (64 - 1)) with 9223372036854775808 in Hl. lia. }
    rewrite E32 in *.
    pose proof (wrap_signed_range 32 n) as Hr.
    change (2 ^ (32 - 1)) with 2147483648 in *.
    rewrite (small64 (wrap_signed 32 n)) by lia.
    destruct (Z.eqb_spec n (wrap_signed 32 n)); [lia|]. simpl.
    symmetry. apply Z.ltb_lt. lia.
Qed.

(** ** The IDAT stream adapter [Read] *)

Section ReaderFacts.
Variable a : arch.
Variable crc32_ieee : list Z -> Z.

Lemma to_int_zero : to_int a 0 = 0.
Proof. destruct a; reflexivity. Qed.

Lemma Read_loop_pending fuel d :
  idatLength d <> 0 -> Read_loop crc32_ieee fuel d = (Ok tt, d).
Proof.
  intros H. destruct fuel; simpl; destruct (Z.eqb_spec (idatLength d) 0); try lia; reflexivity.
Qed.

Lemma verifyChecksum_app (c s : list Z) (d : decoder) :
  r d = c ++ s -> length c = 4%nat ->
  verifyChecksum crc32_ieee d
  = (if BigEndian_Uint32 c =? Sum32 crc32_ieee d then Ok tt
     else Err (FormatError "invalid checksum"),
     set_tmp (overwrite c (tmp d)) (set_r s d)).
Proof.
  intros E L. unfold verifyChecksum, bind.
  rewrite (ReadFull_tmp_app c s) by done.
  unfold get, Sum32; simpl.
  destruct (BigEndian_Uint32 c =? _); reflexivity.
Qed.

(** The stream a successful [verifyChecksum] leaves is shorter. *)
Lemma verifyChecksum_ok_inv (d d' : decoder) :
  verifyChecksum crc32_ieee d = (Ok tt, d') ->
  exists c, r d = c ++ r d' /\ length c = 4%nat /\ idatLength d' = idatLength d /\
            BigEndian_Uint32 c = Sum32 crc32_ieee d /\
            d' = set_tmp (overwrite c (tmp d)) (set_r (r d') d).
Proof.
  intros H. destruct (le_lt_dec 4 (length (r d))) as [L|L].
  - rewrite (verifyChecksum_app (take 4 (r d)) (drop 4 (r d))) in H.
    + destruct (Z.eqb_spec (BigEndian_Uint32 (take 4 (r d))) (Sum32 crc32_ieee d)); [|done].
      injection H as <-. exists (take 4 (r d)). simpl. rewrite take_drop.
      split_and!; try done. rewrite length_take. lia.
    + by rewrite take_drop.
    + rewrite length_take. lia.
  - unfold verifyChecksum, bind in H. rewrite ReadFull_tmp_short in H by lia. done.
Qed.

Lemma Read_loop_S (f : nat) (d : decoder) :
  idatLength d = 0 ->
  Read_loop crc32_ieee (S f) d
  = match verifyChecksum crc32_ieee d with
    | (Ok _, d1) =>
        match ReadFull_tmp 8 d1 with
        | (Ok t, d2) =>
            let d3 := set_idatLength (BigEndian_Uint32 (take 4 t)) d2 in
            if bytes_eqb (drop 4 t) tagIDAT
            then Read_loop crc32_ieee f (set_crc (drop 4 t) d3)
            else (Err (FormatError "not enough pixel data"), d3)
        | (Err e, d2) => (Err e, d2)
        | (Panic, d2) => (Panic, d2)
        | (OutOfFuel, d2) => (OutOfFuel, d2)
        end
    | (Err e, d1) => (Err e, d1)
    | (Panic, d1) => (Panic, d1)
    | (OutOfFuel, d1) => (OutOfFuel, d1)
    end.
Proof.
  intros H. simpl. rewrite H. simpl. unfold bind.
  destruct (verifyChecksum crc32_ieee d) as [[[]| | |] d1]; try reflexivity.
  destruct (ReadFull_tmp 8 d1) as [[t| | |] d2]; try reflexivity.
  unfold modify. simpl.
  destruct (bytes_eqb (drop 4 t) tagIDAT); reflexivity.
Qed.

Lemma Read_loop_fuel (f1 f2 : nat) (d : decoder) :
  (length (r d) < f1)%nat -> (length (r d) < f2)%nat ->
  Read_loop crc32_ieee f1 d = Read_loop crc32_ieee f2 d.
Proof.
  revert f2 d. induction f1 as [|f1 IH]; intros f2 d H1 H2; [lia|].
  destruct f2 as [|f2]; [lia|].
  destruct (Z.eq_dec (idatLength d) 0) as [E0|E0].
  2:{ simpl. destruct (Z.eqb_spec (idatLength d) 0); [lia | reflexivity]. }
  rewrite !Read_loop_S by done.
  destruct (verifyChecksum crc32_ieee d) as [[[]| | |] d1] eqn:V; try done.
  apply verifyChecksum_ok_inv in V as (c & E & L & _).
  destruct (ReadFull_tmp 8 d1) as [[t| | |] d2] eqn:R8; try done.
  assert (length (r d2) + 8 <= length (r d1))%nat as L2.
  { unfold ReadFull_tmp, io_ReadFull in R8.
    destruct (decide (8 <= length (r d1))%nat); [|done].
    injection R8 as <- <-. simpl. rewrite length_drop. lia. }
  simpl. destruct (bytes_eqb (drop 4 t) tagIDAT); [|done].
  apply IH; simpl; rewrite E, length_app in *; lia.
Qed.

Lemma Read_nonempty (n : nat) (d : decoder) :
  n <> 0%nat ->
  Read a crc32_ieee n d
  = match Read_loop crc32_ieee (S (length (r d))) d with
    | (Err e, d') => (Ok ([], Some e), d')
    | (Panic, d') => (Panic, d')
    | (OutOfFuel, d') => (OutOfFuel, d')
    | (Ok _, d') =>
        if to_int a (idatLength d') <? 0
        then (Ok ([], Some (UnsupportedError "IDAT chunk length overflow")), d')
        else
          let k := Z.to_nat (Z.min (Z.of_nat n) (to_int a (idatLength d'))) in
          let '(bs, e, s') := io_Read (r d') k in
          (Ok (bs, e),
           set_idatLength (to_uint32 (idatLength d' - Z.of_nat (length bs)))
             (set_crc (crc d' ++ bs) (set_r s' d')))
    end.
Proof. intros H. unfold Read. destruct (Nat.eqb_spec n 0); [done | reflexivity]. Qed.

(** C10: a [Read] with an empty buffer returns [(0, nil)] and leaves the
    whole decoder state as it was: checksum, remaining segment length,
    stream position and scratch buffer; an exhausted segment included, so
    the checksum test and the next header read wait for the next [Read]
    with a buffer that is not empty. *)
Theorem Read_empty_buffer (d : decoder) :
  Read a crc32_ieee 0 d = (Ok ([], None), d).
Proof. reflexivity. Qed.

(** C9 (amended): a [Read] with a buffer that is not empty, called while
    the remaining segment length is negative as a platform [int], returns
    the unsupported-feature error "IDAT chunk length overflow", transfers
    no byte and leaves the state as it was. *)
Theorem Read_length_overflow (d : decoder) (n : nat) :
  n <> 0%nat ->
  to_int a (idatLength d) < 0 ->
  Read a crc32_ieee n d
  = (Ok ([], Some (UnsupportedError "IDAT chunk length overflow")), d).
Proof.
  intros Hn Hneg. rewrite Read_nonempty by done.
  rewrite Read_loop_pending.
  - destruct (Z.ltb_spec (to_int a (idatLength d)) 0); [done | lia].
  - intros E. rewrite E, to_int_zero in Hneg. lia.
Qed.

(** One round of the loop of [Read] at the end of a segment. *)
Lemma Read_loop_exhausted (d : decoder) (c0 lenb tag rest : list Z) :
  idatLength d = 0 ->
  r d = c0 ++ lenb ++ tag ++ rest ->
  length c0 = 4%nat -> length lenb = 4%nat -> length tag = 4%nat ->
  let d1 := set_tmp (overwrite c0 (tmp d)) (set_r (lenb ++ tag ++ rest) d) in
  let d2 := set_idatLength (BigEndian_Uint32 lenb)
              (set_tmp (overwrite (lenb ++ tag) (tmp d1)) (set_r rest d1)) in
  Read_loop crc32_ieee (S (length (r d))) d
  = if BigEndian_Uint32 c0 =? Sum32 crc32_ieee d
    then if bytes_eqb tag tagIDAT
         then Read_loop crc32_ieee (length (r d)) (set_crc tag d2)
         else (Err (FormatError "not enough pixel data"), d2)
    else (Err (FormatError "invalid checksum"), d1).
Proof.
  intros H0 Hr L0 L1 L2 d1 d2.
  rewrite Read_loop_S by done.
  rewrite (verifyChecksum_app c0 (lenb ++ tag ++ rest)) by done. fold d1.
  destruct (BigEndian_Uint32 c0 =? Sum32 crc32_ieee d); [|done].
  rewrite (ReadFull_tmp_app (lenb ++ tag) rest d1 8).
  - simpl. rewrite take_app_length' by done. rewrite drop_app_length' by done.
    reflexivity.
  - subst d1. simpl. by rewrite <- app_assoc.
  - rewrite length_app. lia.
Qed.

(** At the end of a segment whose checksum is right and that is followed
    by another IDAT chunk, [Read] goes on in that chunk. *)
Lemma Read_next_segment (d : decoder) (n : nat) (c0 lenb rest : list Z) :
  n <> 0%nat ->
  idatLength d = 0 ->
  r d = c0 ++ lenb ++ tagIDAT ++ rest ->
  length c0 = 4%nat -> length lenb = 4%nat ->
  BigEndian_Uint32 c0 = Sum32 crc32_ieee d ->
  Read a crc32_ieee n d
  = Read a crc32_ieee n
      (set_crc tagIDAT
         (set_idatLength (BigEndian_Uint32 lenb)
            (set_tmp (overwrite (lenb ++ tagIDAT) (overwrite c0 (tmp d))) (set_r rest d)))).
Proof.
  intros Hn H0 Hr L0 L1 Hc.
  rewrite !Read_nonempty by done.
  rewrite (Read_loop_exhausted d c0 lenb tagIDAT rest) by done. cbv zeta.
  destruct (Z.eqb_spec (BigEndian_Uint32 c0) (Sum32 crc32_ieee d)); [|done].
  replace (bytes_eqb tagIDAT tagIDAT) with true by done.
  match goal with
  | |- context [Read_loop _ (length (r d)) ?d2] =>
      rewrite (Read_loop_fuel (length (r d)) (S (length (r d2))) d2)
  end; [reflexivity| |].
  - simpl. rewrite Hr, !length_app. lia.
  - simpl. lia.
Qed.

(** Inside a segment, [Read] copies from the stream. *)
Lemma Read_copy (s : decoder) (n : nat) :
  n <> 0%nat ->
  idatLength s <> 0 -> 0 <= to_int a (idatLength s) -> r s <> [] ->
  let k := Z.to_nat (Z.min (Z.of_nat n) (to_int a (idatLength s))) in
  let bs := take k (r s) in
  Read a crc32_ieee n s
  = (Ok (bs, None),
     set_idatLength (to_uint32 (idatLength s - len bs))
       (set_crc (crc s ++ bs) (set_r (drop k (r s)) s))).
Proof.
  intros Hn Hs Hpos Hne k bs.
  rewrite Read_nonempty, Read_loop_pending by done.
  destruct (Z.ltb_spec (to_int a (idatLength s)) 0); [lia|].
  fold k. unfold io_Read. destruct (r s) eqn:E; [done|]. reflexivity.
Qed.

(** C6: a [Read] with a buffer that is not empty, called when the
    current IDAT segment is exhausted ([idatLength = 0]) and the stream
    goes on with the four bytes [c0] of the segment's checksum and an
    eight-byte chunk header [lenb ++ tag]: it first checks [c0] against
    the running checksum (format error "invalid checksum" on mismatch);
    then, if [tag] is not IDAT, it returns the format error "not enough
    pixel data"; otherwise it resets the checksum over the new tag, takes
    the declared length as the remaining length and goes on as a [Read]
    from there.  With a remaining length that is not zero, it copies
    [min(n, remaining)] bytes of the stream, no more than remain in the
    segment, and feeds each of them to the checksum. *)
Theorem Read_segment_exhausted (d : decoder) (n : nat) (c0 lenb tag rest : list Z) :
  n <> 0%nat ->
  idatLength d = 0 ->
  r d = c0 ++ lenb ++ tag ++ rest ->
  length c0 = 4%nat -> length lenb = 4%nat -> length tag = 4%nat ->
  let d1 := set_tmp (overwrite c0 (tmp d)) (set_r (lenb ++ tag ++ rest) d) in
  let d2 := set_idatLength (BigEndian_Uint32 lenb)
              (set_tmp (overwrite (lenb ++ tag) (tmp d1)) (set_r rest d1)) in
  (BigEndian_Uint32 c0 <> Sum32 crc32_ieee d ->
     Read a crc32_ieee n d = (Ok ([], Some (FormatError "invalid checksum")), d1))
  /\ (BigEndian_Uint32 c0 = Sum32 crc32_ieee d -> tag <> tagIDAT ->
     Read a crc32_ieee n d = (Ok ([], Some (FormatError "not enough pixel data")), d2))
  /\ (BigEndian_Uint32 c0 = Sum32 crc32_ieee d -> tag = tagIDAT ->
     Read a crc32_ieee n d = Read a crc32_ieee n (set_crc tagIDAT d2))
  /\ (forall s : decoder,
       idatLength s <> 0 -> 0 <= to_int a (idatLength s) -> r s <> [] ->
       let k := Z.to_nat (Z.min (Z.of_nat n) (to_int a (idatLength s))) in
       let bs := take k (r s) in
       Read a crc32_ieee n s
       = (Ok (bs, None),
          set_idatLength (to_uint32 (idatLength s - len bs))
            (set_crc (crc s ++ bs) (set_r (drop k (r s)) s)))
       /\ len bs <= to_int a (idatLength s) /\ (length bs <= n)%nat).
Proof.
  intros Hn H0 Hr L0 L1 L2 d1 d2.
  pose proof (Read_loop_exhausted d c0 lenb tag rest H0 Hr L0 L1 L2) as Hloop.
  cbv zeta in Hloop. fold d1 in Hloop. fold d2 in Hloop.
  split_and!.
  - intros Hc. rewrite Read_nonempty, Hloop by done.
    destruct (Z.eqb_spec (BigEndian_Uint32 c0) (Sum32 crc32_ieee d)); done.
  - intros Hc Ht. rewrite Read_nonempty, Hloop by done.
    destruct (Z.eqb_spec (BigEndian_Uint32 c0) (Sum32 crc32_ieee d)); [|done].
    apply bytes_eqb_neq in Ht. by rewrite Ht.
  - intros Hc ->. rewrite (Read_next_segment d n c0 lenb rest) by done. reflexivity.
  - intros s Hs Hpos Hne k bs.
    split_and!.
    + by apply Read_copy.
    + subst bs. unfold len. rewrite length_take. lia.
    + subst bs. rewrite length_take. lia.
Qed.

End ReaderFacts.

(** ** The header parser *)

Section IHDR.
Variable a : arch.
Variable crc32_ieee : list Z -> Z.

Lemma parseIHDR_unfold (d : decoder) (p rest : list Z) :
  r d = p ++ rest -> length p = 13%nat ->
  parseIHDR a crc32_ieee 13 d
  = let d1 := set_crc (crc d ++ p) (set_tmp (overwrite p (tmp d)) (set_r rest d)) in
    let w := to_int32 (BigEndian_Uint32 (take 4 p)) in
    let h := to_int32 (BigEndian_Uint32 (take 4 (drop 4 p))) in
    if negb (nth 10 p 0 =? 0) then (Err (UnsupportedError "compression method"), d1) else
    if negb (nth 11 p 0 =? 0) then (Err (UnsupportedError "filter method"), d1) else
    if (w <=? 0) || (h <=? 0) then (Err (FormatError "non-positive dimension"), d1) else
    if negb (to_int64 (w * h) =? to_int64 (to_int a (to_int64 (w * h))))
       || negb (to_int a (to_int64 (w * h))
                =? Z.quot (to_int a (to_int a (to_int64 (w * h)) * 8)) 8)
    then (Err (UnsupportedError "dimension overflow"), d1) else
    let d2 := set_depth (nth 8 p 0) (set_cb cbInvalid d1) in
    if (nth 8 p 0 =? 8) && (nth 9 p 0 =? ctTrueColorAlpha)
    then verifyChecksum crc32_ieee (set_height h (set_width w (set_cb cbTCA8 d2)))
    else (Err (UnsupportedError
                 ("bit depth " ++ fmt_d (nth 8 p 0) ++ ", color type " ++ fmt_d (nth 9 p 0))),
          d2).
Proof.
  intros Hr Lp. unfold parseIHDR.
  change (negb (13 =? 13)) with false. cbv iota.
  unfold bind at 1. rewrite (ReadFull_tmp_app p rest d 13) by done.
  unfold bind at 1. unfold crc_Write at 1. unfold modify at 1. cbn [set_crc crc].
  cbv zeta.
  destruct (negb (nth 10 p 0 =? 0)); [reflexivity|].
  destruct (negb (nth 11 p 0 =? 0)); [reflexivity|].
  destruct (_ || _); [reflexivity|].
  destruct (negb (to_int64 _ =? _)); [reflexivity|].
  destruct (negb (to_int a _ =? _)); [reflexivity|].
  cbn [orb]. unfold bind, modify, get, ret.
  destruct ((nth 8 p 0 =? 8) && (nth 9 p 0 =? ctTrueColorAlpha)); reflexivity.
Qed.

(** On a 13-byte payload [parseIHDR] returns the error of the first of
    the [ihdr_checks] that fails, and goes on to its checksum when none
    does. *)
Lemma parseIHDR_payload (d : decoder) (p rest : list Z) :
  r d = p ++ rest -> length p = 13%nat -> Forall is_byte p ->
  let d1 := set_crc (crc d ++ p) (set_tmp (overwrite p (tmp d)) (set_r rest d)) in
  match ihdr_checks a p with
  | Some e => fst (parseIHDR a crc32_ieee 13 d) = Err e
  | None =>
      parseIHDR a crc32_ieee 13 d
      = verifyChecksum crc32_ieee
          (set_height (BigEndian_Uint32 (take 4 (drop 4 p)))
             (set_width (BigEndian_Uint32 (take 4 p))
                (set_cb cbTCA8 (set_depth 8 (set_cb cbInvalid d1)))))
  end.
Proof.
  intros Hr Lp Hb d1.
  rewrite (parseIHDR_unfold d p rest) by done. fold d1. cbv zeta.
  unfold ihdr_checks.
  destruct (negb (nth 10 p 0 =? 0)); [reflexivity|].
  destruct (negb (nth 11 p 0 =? 0)); [reflexivity|].
  assert (Forall is_byte (take 4 p)) as Hw by (by apply Forall_take).
  assert (Forall is_byte (take 4 (drop 4 p))) as Hh by (by apply Forall_take, Forall_drop).
  apply BigEndian_Uint32_range in Hw, Hh.
  set (w := BigEndian_Uint32 (take 4 p)) in *.
  set (h := BigEndian_Uint32 (take 4 (drop 4 p))) in *.
  destruct (to_int32_u32 w Hw) as [Ew Ew'], (to_int32_u32 h Hh) as [Eh Eh'].
  rewrite Ew, Eh.
  destruct (Z.ltb_spec 0 w), (Z.ltb_spec w (2 ^ 31)); try reflexivity.
  destruct (Z.ltb_spec 0 h), (Z.ltb_spec h (2 ^ 31)); try reflexivity.
  cbn [negb andb orb].
  rewrite Ew', Eh' by lia.
  assert (0 < w * h < 2 ^ 62) as Hwh.
  { change (2 ^ 62) with (2 ^ 31 * 2 ^ 31). nia. }
  rewrite (dimension_overflow_test a (w * h) Hwh).
  destruct (maxInt a <? w * h * 8); [reflexivity|].
  destruct (Z.eqb_spec (nth 8 p 0) 8) as [->|]; [|reflexivity].
  destruct (nth 9 p 0 =? ctTrueColorAlpha); reflexivity.
Qed.

(** C5: [parseIHDR] rejects a declared length other than 13 with a
    format error; on a 13-byte payload it returns the error of the first
    check that fails in the order compression method, filter method,
    positive 32-bit dimensions, dimension overflow, bit depth and color
    type ([ihdr_checks], the order the specification gives), and when none
    fails it records width, height, depth and profile and goes on to
    verify the chunk's checksum. *)
Theorem parseIHDR_first_failure (d : decoder) :
  (forall n, n <> 13 ->
     parseIHDR a crc32_ieee n d = (Err (FormatError "bad IHDR length"), d))
  /\ (forall p rest, r d = p ++ rest -> length p = 13%nat -> Forall is_byte p ->
     let d1 := set_crc (crc d ++ p) (set_tmp (overwrite p (tmp d)) (set_r rest d)) in
     match ihdr_checks a p with
     | Some e => fst (parseIHDR a crc32_ieee 13 d) = Err e
     | None =>
         parseIHDR a crc32_ieee 13 d
         = verifyChecksum crc32_ieee
             (set_height (BigEndian_Uint32 (take 4 (drop 4 p)))
                (set_width (BigEndian_Uint32 (take 4 p))
                   (set_cb cbTCA8 (set_depth 8 (set_cb cbInvalid d1)))))
     end).
Proof.
  split.
  - intros n Hn. unfold parseIHDR. destruct (Z.eqb_spec n 13); [lia | reflexivity].
  - intros p rest Hr Lp Hb. exact (parseIHDR_payload d p rest Hr Lp Hb).
Qed.

End IHDR.

(** ** [Close] *)

Section CloseFacts.
Variable crc32_ieee : list Z -> Z.
Context {ZR : Type} {zlib : ZlibReader ZR}.

Lemma readIEND_app (lenb tag rest : list Z) (d : decoder) :
  r d = lenb ++ tag ++ rest -> length lenb = 4%nat -> length tag = 4%nat ->
  readIEND crc32_ieee d
  = let d2 := set_crc tag (set_tmp (overwrite (lenb ++ tag) (tmp d)) (set_r rest d)) in
    if bytes_eqb tag tagIEND then
      if BigEndian_Uint32 lenb =? 0 then verifyChecksum crc32_ieee d2
      else (Err (FormatError "bad IEND length"), d2)
    else (Err (FormatError ("not IEND " ++ string_of_bytes tag)), d2).
Proof.
  intros E L1 L2. unfold readIEND, bind at 1.
  rewrite (ReadFull_tmp_app (lenb ++ tag) rest d 8).
  - rewrite take_app_length', drop_app_length' by done.
    unfold bind, crc_Reset, crc_Write, modify. simpl.
    destruct (bytes_eqb tag tagIEND); [|done]. simpl.
    destruct (BigEndian_Uint32 lenb =? 0); done.
  - by rewrite <- app_assoc.
  - rewrite length_app. lia.
Qed.

Lemma readIEND_ok_inv (d d' : decoder) :
  readIEND crc32_ieee d = (Ok tt, d') ->
  exists lenb c1 rest,
    r d = lenb ++ tagIEND ++ c1 ++ rest /\ length lenb = 4%nat /\ length c1 = 4%nat /\
    BigEndian_Uint32 lenb = 0 /\ BigEndian_Uint32 c1 = to_uint32 (crc32_ieee tagIEND).
Proof.
  intros H. destruct (le_lt_dec 8 (length (r d))) as [L|L].
  - rewrite (readIEND_app (take 4 (r d)) (take 4 (drop 4 (r d))) (drop 8 (r d))) in H.
    + cbv zeta in H.
      destruct (bytes_eqb _ tagIEND) eqn:Et; [|done]. apply bytes_eqb_eq in Et.
      destruct (Z.eqb_spec (BigEndian_Uint32 (take 4 (r d))) 0) as [E0|]; [|done].
      apply verifyChecksum_ok_inv in H as (c1 & E1 & L1 & _ & Hc & _).
      simpl in E1. exists (take 4 (r d)), c1, (r d').
      split_and!; try done.
      * rewrite <- E1, <- Et.
        replace (drop 8 (r d)) with (drop 4 (drop 4 (r d))) by (by rewrite drop_drop).
        by rewrite !take_drop.
      * rewrite length_take. lia.
      * rewrite Hc. unfold Sum32. simpl. by rewrite Et.
    + replace (drop 8 (r d)) with (drop 4 (drop 4 (r d))) by (by rewrite drop_drop).
      by rewrite !take_drop.
    + rewrite length_take. lia.
    + rewrite length_take, length_drop. lia.
  - unfold readIEND, bind in H. rewrite ReadFull_tmp_short in H by lia. done.
Qed.

(** C8 (amended): when the terminal chunk has not been consumed yet,
    [Close] closes the zlib reader and returns its error if it has one;
    else it checks the last IDAT chunk's checksum [c0] ("invalid
    checksum"), reads the next chunk header and returns the format error
    "not IEND " followed by the tag found if the tag is not IEND, "bad
    IEND length" if the declared length is not zero, and else checks the
    IEND chunk's checksum.  [Close] succeeds only if all of these pass. *)
Theorem Close_checks (D : Decoder ZR) :
  stage (dd D) <> dsSeenIEND ->
  (forall e z', zlib_Close (zlibR D) = (Some e, z') -> fst (Close crc32_ieee D) = Err e)
  /\ (forall z' c0 lenb tag rest,
        zlib_Close (zlibR D) = (None, z') ->
        r (dd D) = c0 ++ lenb ++ tag ++ rest ->
        length c0 = 4%nat -> length lenb = 4%nat -> length tag = 4%nat ->
        (BigEndian_Uint32 c0 <> Sum32 crc32_ieee (dd D) ->
           fst (Close crc32_ieee D) = Err (FormatError "invalid checksum"))
        /\ (BigEndian_Uint32 c0 = Sum32 crc32_ieee (dd D) -> tag <> tagIEND ->
           fst (Close crc32_ieee D)
           = Err (FormatError ("not IEND " ++ string_of_bytes tag)))
        /\ (BigEndian_Uint32 c0 = Sum32 crc32_ieee (dd D) -> tag = tagIEND ->
           BigEndian_Uint32 lenb <> 0 ->
           fst (Close crc32_ieee D) = Err (FormatError "bad IEND length"))
        /\ (BigEndian_Uint32 c0 = Sum32 crc32_ieee (dd D) -> tag = tagIEND ->
           BigEndian_Uint32 lenb = 0 ->
           forall c1 rest', rest = c1 ++ rest' -> length c1 = 4%nat ->
           fst (Close crc32_ieee D)
           = if BigEndian_Uint32 c1 =? to_uint32 (crc32_ieee tagIEND) then Ok tt
             else Err (FormatError "invalid checksum")))
  /\ (fst (Close crc32_ieee D) = Ok tt ->
      exists z' c0 lenb c1 rest',
        zlib_Close (zlibR D) = (None, z')
        /\ r (dd D) = c0 ++ lenb ++ tagIEND ++ c1 ++ rest'
        /\ length c0 = 4%nat /\ length lenb = 4%nat /\ length c1 = 4%nat
        /\ BigEndian_Uint32 c0 = Sum32 crc32_ieee (dd D)
        /\ BigEndian_Uint32 lenb = 0
        /\ BigEndian_Uint32 c1 = to_uint32 (crc32_ieee tagIEND)).
Proof.
  intros Hst. unfold Close.
  destruct (Z.eqb_spec (stage (dd D)) dsSeenIEND); [done|].
  split_and!.
  - intros e z' ->. reflexivity.
  - intros z' c0 lenb tag rest -> Hr L0 L1 L2.
    unfold bind. cbn [dd set_zlibR].
    rewrite (verifyChecksum_app crc32_ieee c0 (lenb ++ tag ++ rest)) by done.
    split_and!.
    + intros Hc. destruct (Z.eqb_spec (BigEndian_Uint32 c0) (Sum32 crc32_ieee (dd D))); done.
    + intros Hc Ht. destruct (Z.eqb_spec (BigEndian_Uint32 c0) (Sum32 crc32_ieee (dd D))); [|done].
      rewrite (readIEND_app lenb tag rest) by done. cbv zeta.
      apply bytes_eqb_neq in Ht. by rewrite Ht.
    + intros Hc Ht Hl. destruct (Z.eqb_spec (BigEndian_Uint32 c0) (Sum32 crc32_ieee (dd D))); [|done].
      rewrite (readIEND_app lenb tag rest) by done. cbv zeta.
      apply bytes_eqb_eq in Ht. rewrite Ht.
      destruct (Z.eqb_spec (BigEndian_Uint32 lenb) 0); done.
    + intros Hc Ht Hl c1 rest' -> L3.
      destruct (Z.eqb_spec (BigEndian_Uint32 c0) (Sum32 crc32_ieee (dd D))); [|done].
      rewrite (readIEND_app lenb tag (c1 ++ rest')) by done. cbv zeta.
      pose proof Ht as Ht'. apply bytes_eqb_eq in Ht'. rewrite Ht', Hl. simpl.
      rewrite (verifyChecksum_app crc32_ieee c1 rest') by done.
      unfold Sum32. simpl. rewrite Ht.
      destruct (BigEndian_Uint32 c1 =? _); done.
  - destruct (zlib_Close (zlibR D)) as [[e|] z'] eqn:Hz; [done|].
    unfold bind. cbn [dd set_zlibR].
    destruct (verifyChecksum crc32_ieee (dd D)) as [[[]| | |] d1] eqn:V; try done.
    destruct (readIEND crc32_ieee d1) as [[[]| | |] d2] eqn:R; try done.
    intros _.
    apply verifyChecksum_ok_inv in V as (c0 & E0 & L0 & _ & Hc & _).
    apply readIEND_ok_inv in R as (lenb & c1 & rest' & E1 & L1 & L3 & Hl & Hc1).
    exists z', c0, lenb, c1, rest'. rewrite E0, E1. done.
Qed.

End CloseFacts.

(** ** The chunk loop of [NewDecoder] *)

Lemma no_grow_ret {A} (x : A) : no_grow (ret x).
Proof. intros d. reflexivity. Qed.

Lemma no_grow_fail {A} (e : error) : no_grow (@fail A e).
Proof. intros d. reflexivity. Qed.

Lemma no_grow_get {A} (f : decoder -> A) : no_grow (get f).
Proof. intros d. reflexivity. Qed.

Lemma no_grow_modify (f : decoder -> decoder) :
  (forall d, r (f d) = r d) -> no_grow (modify f).
Proof. intros H d. simpl. by rewrite H. Qed.

Lemma no_grow_bind {A B} (m : M A) (k : A -> M B) :
  no_grow m -> (forall x, no_grow (k x)) -> no_grow (bind m k).
Proof.
  intros Hm Hk d. unfold bind. specialize (Hm d).
  destruct (m d) as [[x| | |] d1]; simpl in *; try done.
  specialize (Hk x d1). lia.
Qed.

Lemma no_grow_if {A} (b : bool) (m1 m2 : M A) :
  no_grow m1 -> no_grow m2 -> no_grow (if b then m1 else m2).
Proof. by destruct b. Qed.

Lemma no_grow_ReadFull_tmp (n : nat) : no_grow (ReadFull_tmp n).
Proof.
  intros d. unfold ReadFull_tmp, io_ReadFull.
  destruct (decide _); simpl; [rewrite length_drop|]; lia.
Qed.

Lemma no_grow_ReadFull_ignored (n : nat) : no_grow (ReadFull_ignored n).
Proof.
  intros d. unfold ReadFull_ignored, io_ReadFull.
  destruct (decide _); simpl; [rewrite length_drop|]; lia.
Qed.

Lemma no_grow_eof_unexpected {A} (m : M A) : no_grow m -> no_grow (eof_unexpected m).
Proof.
  intros H d. unfold eof_unexpected. specialize (H d).
  destruct (m d) as [[x|[]| |] d1]; simpl in *; done.
Qed.

Create HintDb no_grow.
#[local] Hint Resolve no_grow_ret no_grow_fail no_grow_get no_grow_ReadFull_tmp
  no_grow_ReadFull_ignored : no_grow.

Ltac no_grow_step :=
  first
    [ apply no_grow_ret | apply no_grow_fail | apply no_grow_get
    | apply no_grow_ReadFull_tmp | apply no_grow_ReadFull_ignored
    | apply no_grow_modify; reflexivity
    | apply no_grow_eof_unexpected
    | apply no_grow_if
    | apply no_grow_bind; [| intros ? ] ].

Section ChunkOrder.
Variable a : arch.
Variable crc32_ieee : list Z -> Z.

Lemma no_grow_crc_Reset : no_grow crc_Reset.
Proof. by apply no_grow_modify. Qed.

Lemma no_grow_crc_Write (b : list Z) : no_grow (crc_Write b).
Proof. by apply no_grow_modify. Qed.

Lemma no_grow_verifyChecksum : no_grow (verifyChecksum crc32_ieee).
Proof. unfold verifyChecksum. repeat no_grow_step. Qed.

Lemma no_grow_parseIHDR (n : Z) : no_grow (parseIHDR a crc32_ieee n).
Proof.
  unfold parseIHDR.
  repeat first [ apply no_grow_crc_Write | apply no_grow_verifyChecksum | no_grow_step ].
Qed.

Lemma no_grow_skip_loop (fuel : nat) (n : Z) : no_grow (skip_loop a fuel n).
Proof.
  revert n. induction fuel as [|fuel IH]; intros n; simpl.
  - apply no_grow_if; [apply no_grow_ret | intros d; reflexivity].
  - repeat first [ apply no_grow_crc_Write | apply IH | no_grow_step ].
Qed.

Lemma chunk_round_consumes (d d' : decoder) (b : bool) :
  chunk_round a crc32_ieee d = (Ok b, d') ->
  (length (r d') + 8 <= length (r d))%nat.
Proof.
  unfold chunk_round. unfold bind at 1.
  destruct (ReadFull_tmp 8 d) as [[t| | |] d1] eqn:R8; try done.
  assert (length (r d1) + 8 <= length (r d))%nat as L1.
  { unfold ReadFull_tmp, io_ReadFull in R8.
    destruct (decide (8 <= length (r d))%nat); [|done].
    injection R8 as <- <-. simpl. rewrite length_drop. lia. }
  match goal with |- ?m d1 = _ -> _ => assert (no_grow m) as Hm end.
  { repeat first [ apply no_grow_crc_Reset | apply no_grow_crc_Write
                 | apply no_grow_verifyChecksum | apply no_grow_parseIHDR
                 | apply no_grow_skip_loop | no_grow_step ]. }
  intros E. specialize (Hm d1). rewrite E in Hm. simpl in Hm. lia.
Qed.

Lemma chunk_loop_rounds (d0 d : decoder) :
  rounds a crc32_ieee d0 d ->
  forall f, (length (r d0) < f)%nat ->
  exists f', (length (r d) < f')%nat
             /\ chunk_loop a crc32_ieee f d0 = chunk_loop a crc32_ieee f' d.
Proof.
  induction 1 as [d|d0 d d' _ IH Hround]; intros f Hf.
  - exists f. done.
  - destruct (IH f Hf) as (f' & Hf' & E).
    destruct f' as [|f']; [lia|].
    exists f'. split.
    + apply chunk_round_consumes in Hround. lia.
    + rewrite E. simpl. unfold bind. by rewrite Hround.
Qed.

Lemma chunk_round_order (d : decoder) (lenb tag rest : list Z) :
  r d = lenb ++ tag ++ rest -> length lenb = 4%nat ->
  (tag = tagIHDR /\ stage d <> dsStart) \/ (tag = tagIDAT /\ stage d = dsStart) ->
  fst (chunk_round a crc32_ieee d) = Err chunkOrderError.
Proof.
  intros Hr L Hcase. unfold chunk_round, bind at 1.
  assert (length tag = 4%nat) as Lt by (by destruct Hcase as [[-> _]|[-> _]]).
  rewrite (ReadFull_tmp_app (lenb ++ tag) rest d 8).
  2:{ by rewrite <- app_assoc. }
  2:{ rewrite length_app. lia. }
  rewrite drop_app_length' by done.
  unfold bind, crc_Reset, crc_Write, modify, get.
  destruct Hcase as [[-> Hs]|[-> Hs]].
  - replace (bytes_eqb tagIHDR tagIHDR) with true by done. cbv beta iota.
    match goal with |- context [stage ?s =? _] => change (stage s) with (stage d) end.
    destruct (Z.eqb_spec (stage d) dsStart) as [e|ne]; [by destruct Hs | reflexivity].
  - replace (bytes_eqb tagIDAT tagIHDR) with false by done.
    replace (bytes_eqb tagIDAT tagIDAT) with true by done. cbv beta iota.
    match goal with |- context [stage ?s <? _] => change (stage s) with (stage d) end.
    rewrite Hs. reflexivity.
Qed.

Context {ZR : Type} {zlib : ZlibReader ZR}.

(** C4: whenever the chunk loop of [NewDecoder] begins a round at an
    IHDR chunk header in a stage other than Start (a header chunk met
    twice or out of place), or at an IDAT chunk header in stage Start (no
    header chunk seen yet), [NewDecoder] returns the format error "chunk
    out of order". *)
Theorem NewDecoder_chunk_order (input : list Z) (d1 d : decoder) (lenb tag rest : list Z) :
  checkHeader (new_decoder input) = (Ok tt, d1) ->
  rounds a crc32_ieee d1 d ->
  r d = lenb ++ tag ++ rest -> length lenb = 4%nat ->
  (tag = tagIHDR /\ stage d <> dsStart) \/ (tag = tagIDAT /\ stage d = dsStart) ->
  NewDecoder a crc32_ieee (ZR := ZR) input = Err chunkOrderError.
Proof.
  intros Hh Hr Hd L Hcase. unfold NewDecoder, eof_unexpected. rewrite Hh.
  destruct (chunk_loop_rounds d1 d Hr (S (length (r d1)))) as (f' & Hf' & ->); [lia|].
  destruct f' as [|f']; [lia|]. simpl. unfold bind.
  pose proof (chunk_round_order d lenb tag rest Hd L Hcase) as E.
  destruct (chunk_round a crc32_ieee d) as [[b| | |] d2]; simpl in E; try done.
  by injection E as ->.
Qed.

End ChunkOrder.

(** ** Scanline filters *)

Lemma at_nth (s : list Z) (i : nat) :
  (i < length s)%nat -> at_ s (Z.of_nat i) = Some (nth i s 0).
Proof.
  intros H. unfold at_. destruct (Z.ltb_spec (Z.of_nat i) 0); [lia|].
  rewrite Nat2Z.id. rewrite nth_lookup.
  destruct (lookup_lt_is_Some_2 s i H) as [x ->]. reflexivity.
Qed.

Lemma upd_insert (s : list Z) (i : nat) (v : Z) :
  (i < length s)%nat -> upd s (Z.of_nat i) v = Some (<[i := v]> s).
Proof.
  intros H. unfold upd.
  destruct (Z.leb_spec 0 (Z.of_nat i)); [|lia].
  destruct (Z.ltb_spec (Z.of_nat i) (Z.of_nat (length s))); [|lia].
  simpl. by rewrite Nat2Z.id.
Qed.

Lemma nth_insert (s : list Z) (i k : nat) (v : Z) :
  (i < length s)%nat ->
  nth k (<[i := v]> s) 0 = if decide (k = i) then v else nth k s 0.
Proof.
  intros H. rewrite !nth_lookup. destruct (decide (k = i)) as [->|Hne].
  - by rewrite list_lookup_insert_eq.
  - by rewrite list_lookup_insert_ne.
Qed.

Lemma left_of_nth (bpp : nat) (s : list Z) (i : nat) :
  (i < length s)%nat ->
  left_of s (Z.of_nat i) (Z.of_nat bpp) = Some (left_nth bpp s i).
Proof.
  intros H. unfold left_of, left_nth.
  destruct (Z.ltb_spec (Z.of_nat i) (Z.of_nat bpp)), (decide (i < bpp)%nat); try lia; [done|].
  replace (Z.of_nat i - Z.of_nat bpp) with (Z.of_nat (i - bpp)) by lia.
  apply at_nth. lia.
Qed.

(** A loop that rewrites the bytes [lo, lo + cnt) of a row from left to
    right, each from its old value and the new value [bpp] places to its
    left. *)
Lemma for_loop_scan (F : nat -> Z -> Z -> Z) (bpp n : nat)
      (body : Z -> list Z -> option (list Z)) :
  (0 < bpp)%nat ->
  forall (cnt lo : nat) (c : list Z),
    (forall i s, (lo <= i < lo + cnt)%nat -> length s = n ->
       body (Z.of_nat i) s = Some (<[i := F i (nth i s 0) (left_nth bpp s i)]> s)) ->
    length c = n -> (lo + cnt <= n)%nat ->
    exists out,
      for_loop cnt (Z.of_nat lo) body c = Some out
      /\ length out = n
      /\ (forall k, (k < lo \/ lo + cnt <= k)%nat -> nth k out 0 = nth k c 0)
      /\ (forall k, (lo <= k < lo + cnt)%nat ->
            nth k out 0 = F k (nth k c 0) (left_nth bpp out k)).
Proof.
  intros Hbpp cnt. induction cnt as [|cnt IH]; intros lo c Hbody Hlen Hn.
  - exists c. simpl. split_and!; try done. intros k Hk. lia.
  - simpl. rewrite Hbody by (done || lia).
    set (c1 := <[lo := _]> c).
    assert (length c1 = n) as Hlen1 by (subst c1; by rewrite length_insert).
    replace (Z.of_nat lo + 1) with (Z.of_nat (S lo)) by lia.
    destruct (IH (S lo) c1) as (out & E & Lout & Hout1 & Hout2); [|done|lia|].
    { intros i s Hi Hs. apply Hbody; [lia | done]. }
    assert (forall k, k <> lo -> nth k c1 0 = nth k c 0) as Hc1.
    { intros k Hk. subst c1. rewrite nth_insert by lia. by destruct (decide (k = lo)). }
    exists out. split_and!; try done.
    + intros k Hk. rewrite Hout1 by lia. apply Hc1. lia.
    + intros k Hk. destruct (decide (k = lo)) as [->|Hne].
      * rewrite Hout1 by lia. subst c1. rewrite nth_insert by lia.
        destruct (decide (lo = lo)); [|done]. f_equal.
        unfold left_nth. destruct (decide (lo < bpp)%nat); [done|].
        rewrite Hout1 by lia. rewrite nth_insert by lia.
        destruct (decide (lo - bpp = lo)%nat); [lia | done].
      * rewrite Hout2 by lia. f_equal. apply Hc1. done.
Qed.

Lemma for_range_scan (F : nat -> Z -> Z -> Z) (bpp n : nat)
      (body : Z -> list Z -> option (list Z)) (lo hi : nat) (c : list Z) :
  (0 < bpp)%nat ->
  (forall i s, (lo <= i < hi)%nat -> length s = n ->
     body (Z.of_nat i) s = Some (<[i := F i (nth i s 0) (left_nth bpp s i)]> s)) ->
  length c = n -> (lo <= hi <= n)%nat ->
  exists out,
    for_range (Z.of_nat lo) (Z.of_nat hi) body c = Some out
    /\ length out = n
    /\ (forall k, (k < lo \/ hi <= k)%nat -> nth k out 0 = nth k c 0)
    /\ (forall k, (lo <= k < hi)%nat ->
          nth k out 0 = F k (nth k c 0) (left_nth bpp out k)).
Proof.
  intros Hbpp Hbody Hlen Hn. unfold for_range.
  replace (Z.to_nat (Z.of_nat hi - Z.of_nat lo)) with (hi - lo)%nat by lia.
  destruct (for_loop_scan F bpp n body Hbpp (hi - lo) lo c) as (out & E & L & H1 & H2);
    try done; try lia.
  { intros i s Hi. apply Hbody. lia. }
  exists out. split_and!; try done.
  - intros k Hk. apply H1. lia.
  - intros k Hk. apply H2. lia.
Qed.

Lemma unfilterSub_pointwise (bpp : nat) (cdat : list Z) :
  (0 < bpp <= length cdat)%nat ->
  exists out,
    unfilterSub cdat (Z.of_nat bpp) = Some out
    /\ length out = length cdat
    /\ (forall k, (k < bpp)%nat -> nth k out 0 = nth k cdat 0)
    /\ (forall k, (bpp <= k < length cdat)%nat ->
          nth k out 0 = to_uint8 (nth k cdat 0 + nth (k - bpp) out 0)).
Proof.
  intros Hbpp. unfold unfilterSub, len.
  destruct (for_range_scan (fun _ x l => to_uint8 (x + l)) bpp (length cdat)
              (fun i c => x ← at_ c i; l ← at_ c (i - Z.of_nat bpp); upd c i (to_uint8 (x + l)))
              bpp (length cdat) cdat) as (out & E & L & H1 & H2); try done; try lia.
  { intros i s Hi Hs. rewrite at_nth by lia. simpl.
    replace (Z.of_nat i - Z.of_nat bpp) with (Z.of_nat (i - bpp)) by lia.
    rewrite at_nth by lia. simpl. rewrite upd_insert by lia.
    unfold left_nth. destruct (decide (i < bpp)%nat); [lia | done]. }
  exists out. split_and!; try done.
  - intros k Hk. apply H1. lia.
  - intros k Hk. rewrite H2 by done. unfold left_nth.
    destruct (decide (k < bpp)%nat); [lia | done].
Qed.

Lemma unfilterUp_pointwise (cdat pdat : list Z) :
  length pdat = length cdat ->
  exists out,
    unfilterUp cdat pdat = Some out
    /\ length out = length cdat
    /\ (forall k, (k < length cdat)%nat ->
          nth k out 0 = to_uint8 (nth k cdat 0 + nth k pdat 0)).
Proof.
  intros same_length. unfold unfilterUp, len. rewrite same_length.
  destruct (for_range_scan (fun i x _ => to_uint8 (x + nth i pdat 0)) 1 (length cdat)
              (fun i c => p ← at_ pdat i; x ← at_ c i; upd c i (to_uint8 (x + p)))
              0 (length cdat) cdat) as (out & E & L & H1 & H2); try done; try lia.
  { intros i s Hi Hs. rewrite at_nth by lia. simpl.
    rewrite at_nth by lia. simpl. by rewrite upd_insert by lia. }
  exists out. split_and!; try done.
  intros k Hk. apply H2. lia.
Qed.

Lemma unfilterAverage_pointwise (bpp : nat) (cdat pdat : list Z) :
  (0 < bpp <= length cdat)%nat ->
  length pdat = length cdat ->
  exists out,
    unfilterAverage cdat pdat (Z.of_nat bpp) = Some out
    /\ length out = length cdat
    /\ (forall k, (k < bpp)%nat ->
          nth k out 0 = to_uint8 (nth k cdat 0 + Z.quot (nth k pdat 0) 2))
    /\ (forall k, (bpp <= k < length cdat)%nat ->
          nth k out 0
          = to_uint8 (nth k cdat 0
                      + to_uint8 (Z.quot (nth (k - bpp) out 0 + nth k pdat 0) 2))).
Proof.
  intros Hbpp same_length. unfold unfilterAverage.
  destruct (for_range_scan (fun i x _ => to_uint8 (x + Z.quot (nth i pdat 0) 2)) bpp (length cdat)
              (fun i c => x ← at_ c i; p ← at_ pdat i; upd c i (to_uint8 (x + Z.quot p 2)))
              0 bpp cdat) as (c1 & E1 & L1 & H11 & H12); try done; try lia.
  { intros i s Hi Hs. rewrite at_nth by lia. simpl.
    rewrite at_nth by lia. simpl. by rewrite upd_insert by lia. }
  change (Z.of_nat 0) with 0 in E1. rewrite E1. simpl. unfold len. rewrite L1.
  destruct (for_range_scan
              (fun i x l => to_uint8 (x + to_uint8 (Z.quot (l + nth i pdat 0) 2))) bpp (length cdat)
              (fun i c => x ← at_ c i; l ← at_ c (i - Z.of_nat bpp); p ← at_ pdat i;
                          upd c i (to_uint8 (x + to_uint8 (Z.quot (l + p) 2))))
              bpp (length cdat) c1) as (out & E & L & H1 & H2); try done; try lia.
  { intros i s Hi Hs. rewrite at_nth by lia. simpl.
    replace (Z.of_nat i - Z.of_nat bpp) with (Z.of_nat (i - bpp)) by lia.
    rewrite at_nth by lia. simpl. rewrite at_nth by lia. simpl.
    rewrite upd_insert by lia.
    unfold left_nth. destruct (decide (i < bpp)%nat); [lia | done]. }
  exists out. split_and!; try done.
  - intros k Hk. rewrite H1 by lia. apply H12. lia.
  - intros k Hk. rewrite H2 by done. rewrite H11 by lia. unfold left_nth.
    destruct (decide (k < bpp)%nat); [lia | done].
Qed.

Lemma filterPaeth_pointwise (bpp : nat) (cdat pdat : list Z) :
  (0 < bpp)%nat ->
  length pdat = length cdat ->
  exists out,
    filterPaeth cdat pdat (Z.of_nat bpp) = Some out
    /\ length out = length cdat
    /\ (forall k, (k < length cdat)%nat ->
          nth k out 0
          = to_uint8 (nth k cdat 0
                      + paeth (left_nth bpp out k) (nth k pdat 0) (left_nth bpp pdat k))).
Proof.
  intros Hbpp same_length. unfold filterPaeth, len.
  destruct (for_range_scan
              (fun i x l => to_uint8 (x + paeth l (nth i pdat 0) (left_nth bpp pdat i)))
              bpp (length cdat)
              (fun i c => x ← at_ c i; a ← left_of c i (Z.of_nat bpp); b ← at_ pdat i;
                          c' ← left_of pdat i (Z.of_nat bpp);
                          upd c i (to_uint8 (x + paeth a b c')))
              0 (length cdat) cdat) as (out & E & L & H1 & H2); try done; try lia.
  { intros i s Hi Hs. rewrite at_nth by lia. simpl.
    rewrite left_of_nth by lia. simpl. rewrite at_nth by lia. simpl.
    rewrite left_of_nth by lia. simpl. by rewrite upd_insert by lia. }
  exists out. split_and!; try done.
  intros k Hk. apply H2. lia.
Qed.

(** A row shorter than a pixel: Sub has nothing to add, and the first
    loop of Average runs off the row. *)
Lemma unfilter_short (cdat pdat : list Z) :
  length pdat = length cdat -> (length cdat < 4)%nat ->
  unfilterSub cdat 4 = Some cdat /\ unfilterAverage cdat pdat 4 = None.
Proof.
  intros Hl H4.
  destruct cdat as [|c0 [|c1 [|c2 [|c3 cdat]]]]; try (simpl in H4; lia);
    destruct pdat as [|p0 [|p1 [|p2 [|p3 pdat]]]]; try (simpl in Hl; lia);
    split; reflexivity.
Qed.

(** What [unfilter] returns is the reconstruction of the row. *)
Lemma unfilter_reconstructs (ft : Z) (cdat pdat row : list Z) :
  length pdat = length cdat ->
  unfilter ft cdat pdat 4 = Filtered row ->
  reconstructs ft cdat pdat row.
Proof.
  intros Hlen. unfold unfilter, reconstructs, predictor, nFilter,
    ftNone, ftSub, ftUp, ftAverage, ftPaeth.
  destruct (Z.eqb_spec ft 0) as [->|N0].
  { intros [= <-]. split_and!; try done; lia. }
  destruct (Z.eqb_spec ft 1) as [->|N1].
  { destruct (le_lt_dec 4 (length cdat)) as [H4|H4].
    - destruct (unfilterSub_pointwise 4 cdat ltac:(lia)) as (out & E & L & H1 & H2).
      change (Z.of_nat 4) with 4 in E. rewrite E. intros [= <-].
      split_and!; try done; try lia. intros k Hk. cbn [orb andb].
      destruct (decide (k < 4)%nat) as [Hk4|Hk4].
      + rewrite bool_decide_eq_true_2 by done. by apply H1.
      + rewrite bool_decide_eq_false_2 by done. rewrite H2 by lia.
        unfold left_nth. by destruct (decide (k < 4)%nat).
    - destruct (unfilter_short cdat pdat Hlen H4) as [-> _]. intros [= <-].
      split_and!; try done; try lia. intros k Hk. cbn [orb andb].
      by rewrite bool_decide_eq_true_2 by lia. }
  destruct (Z.eqb_spec ft 2) as [->|N2].
  { destruct (unfilterUp_pointwise cdat pdat Hlen) as (out & E & L & H1).
    rewrite E. intros [= <-]. split_and!; try done; try lia. }
  destruct (Z.eqb_spec ft 3) as [->|N3].
  { destruct (le_lt_dec 4 (length cdat)) as [H4|H4].
    - destruct (unfilterAverage_pointwise 4 cdat pdat ltac:(lia) Hlen)
        as (out & E & L & H1 & H2).
      change (Z.of_nat 4) with 4 in E. rewrite E. intros [= <-].
      split_and!; try done; try lia. intros k Hk. cbn [orb andb].
      unfold left_nth. destruct (decide (k < 4)%nat) as [Hk4|Hk4].
      + by rewrite H1.
      + rewrite H2 by lia. unfold to_uint8. by rewrite Zplus_mod_idemp_r.
    - destruct (unfilter_short cdat pdat Hlen H4) as [_ ->]. done. }
  destruct (Z.eqb_spec ft 4) as [->|N4]; [|done].
  destruct (filterPaeth_pointwise 4 cdat pdat ltac:(lia) Hlen) as (out & E & L & H1).
  change (Z.of_nat 4) with 4 in E. rewrite E. intros [= <-].
  split_and!; try done; try lia.
Qed.


(** ** [DecodeRow] *)

Section RowFacts.
Variable a : arch.
Context {ZR : Type} {zlib : ZlibReader ZR}.

Lemma load_store_same (D : Decoder ZR) (b : bufref) (v : list Z) :
  load (store b v D) b = v.
Proof. by destruct b. Qed.

Lemma load_store_other (D : Decoder ZR) (b : bufref) (v : list Z) :
  load (store b v D) (other b) = load D (other b).
Proof. by destruct b. Qed.

Lemma other_other (b : bufref) : other (other b) = b.
Proof. by destruct b. Qed.

Lemma other_neq (b : bufref) : other b <> b.
Proof. by destruct b. Qed.

(** [DecodeRow] once the row has been read in full. *)
Lemma DecodeRow_read (D : Decoder ZR) (bs : list Z) (z' : ZR) (d' : decoder)
      (ft p0 : Z) (cdat pdat : list Z) :
  y D < height (dd D) ->
  io_ReadFull_zlib (zlibR D) (length (cr D)) (dd D) = (bs, None, z', d') ->
  overwrite bs (cr D) = ft :: cdat ->
  pr D = p0 :: pdat ->
  let D1 := store (cur D) (ft :: cdat) (set_zlibR z' (set_dd d' D)) in
  DecodeRow a D
  = match unfilter ft cdat pdat (bytesPerPixel D) with
    | Filtered cdat' =>
        (Ok cdat',
         set_y (to_int a (y D + 1))
           (set_cur (other (cur D)) (store (cur D) (ft :: cdat') D1)))
    | BadFilter => (Err (FormatError "bad filter type"), D1)
    | FilterPanic => (Panic, D1)
    end.
Proof.
  intros Hy Hread Hcr Hpr D1. unfold DecodeRow.
  destruct (Z.geb_spec (y D) (height (dd D))); [lia|].
  rewrite Hread, Hcr. fold D1.
  assert (cr D1 = ft :: cdat) as ->.
  { unfold cr. subst D1. destruct D as [? ? ? ? ? [] ?]; reflexivity. }
  assert (pr D1 = p0 :: pdat) as ->.
  { rewrite <- Hpr. unfold pr. subst D1. destruct D as [? ? ? ? ? [] ?]; reflexivity. }
  assert (bytesPerPixel D1 = bytesPerPixel D) as ->.
  { subst D1. destruct D as [? ? ? ? ? [] ?]; reflexivity. }
  destruct (unfilter ft cdat pdat (bytesPerPixel D)); try reflexivity.
  subst D1. destruct D as [? ? ? ? ? [] ?]; reflexivity.
Qed.

Lemma quot2_uint8 (x l p : Z) :
  0 <= l -> 0 <= p ->
  to_uint8 (x + to_uint8 (Z.quot (l + p) 2)) = (x + (l + p) / 2) mod 256.
Proof.
  intros Hl Hp. unfold to_uint8. rewrite Z.quot_div_nonneg by lia.
  by rewrite Zplus_mod_idemp_r.
Qed.

Lemma nth_is_byte (s : list Z) (i : nat) : Forall is_byte s -> 0 <= nth i s 0 < 256.
Proof.
  intros H. destruct (nth_in_or_default i s 0) as [Hin | ->]; [|lia].
  rewrite Forall_forall in H. apply H. by apply list_elem_of_In.
Qed.

(** C1 (amended): for a row whose filter byte is 3 (Average),
    [DecodeRow] reconstructs the row in place: byte [i < 4] becomes
    [raw[i] + pdat[i] / 2] and byte [i >= 4] becomes
    [raw[i] + (out[i-4] + pdat[i]) / 2], where only the outer addition
    wraps modulo 256: the sum inside the division is taken in plain
    integers, it does not wrap. *)
Theorem DecodeRow_average (D : Decoder ZR) (bs : list Z) (z' : ZR) (d' : decoder)
        (p0 : Z) (raw pdat : list Z) :
  y D < height (dd D) ->
  bytesPerPixel D = 4 ->
  io_ReadFull_zlib (zlibR D) (length (cr D)) (dd D) = (bs, None, z', d') ->
  overwrite bs (cr D) = ftAverage :: raw ->
  pr D = p0 :: pdat ->
  length pdat = length raw ->
  (4 <= length raw)%nat ->
  Forall is_byte pdat ->
  exists out D',
    DecodeRow a D = (Ok out, D')
    /\ pr D' = ftAverage :: out
    /\ length out = length raw
    /\ (forall i, (i < 4)%nat ->
          nth i out 0 = (nth i raw 0 + nth i pdat 0 / 2) mod 256)
    /\ (forall i, (4 <= i < length raw)%nat ->
          nth i out 0
          = (nth i raw 0 + (nth (i - 4) out 0 + nth i pdat 0) / 2) mod 256).
Proof.
  intros Hy Hbpp Hread Hcr Hpr Hlen H4 Hb.
  rewrite (DecodeRow_read D bs z' d' ftAverage p0 raw pdat) by done. cbv zeta.
  rewrite Hbpp. unfold unfilter. cbn [Z.eqb ftAverage ftNone ftSub ftUp Pos.eqb].
  destruct (unfilterAverage_pointwise 4 raw pdat ltac:(lia) Hlen)
    as (out & E & L & H1 & H2).
  change (Z.of_nat 4) with 4 in E. rewrite E. cbn [of_option].
  eexists out, _. split; [reflexivity|]. split_and!.
  - unfold pr. destruct D as [? ? ? ? ? [] ?]; reflexivity.
  - done.
  - intros i Hi. rewrite H1 by done. unfold to_uint8.
    pose proof (nth_is_byte pdat i Hb). by rewrite Z.quot_div_nonneg by lia.
  - intros i Hi. rewrite H2 by done.
    pose proof (nth_is_byte pdat i Hb).
    apply quot2_uint8; [|lia].
    destruct (decide (i - 4 < 4)%nat).
    + rewrite H1 by done. unfold to_uint8. apply Z.mod_pos_bound. lia.
    + rewrite H2 by lia. unfold to_uint8. apply Z.mod_pos_bound. lia.
Qed.

End RowFacts.

Lemma paeth_closest (a b c : Z) :
  let p := to_uint8 (a + b - c) in
  let pa := Z.abs (p - a) in
  let pb := Z.abs (p - b) in
  let pc := Z.abs (p - c) in
  let pred := paeth a b c in
  (pred = a \/ pred = b \/ pred = c)
  /\ Z.abs (p - pred) <= pa /\ Z.abs (p - pred) <= pb /\ Z.abs (p - pred) <= pc
  /\ (pa <= pb -> pa <= pc -> pred = a)
  /\ (~ (pa <= pb /\ pa <= pc) -> pb <= pc -> pred = b)
  /\ (~ (pa <= pb /\ pa <= pc) -> pc < pb -> pred = c).
Proof.
  cbv zeta. unfold paeth.
  set (p := to_uint8 (a + b - c)).
  destruct (Z.leb_spec (Z.abs (p - a)) (Z.abs (p - b))),
           (Z.leb_spec (Z.abs (p - a)) (Z.abs (p - c))),
           (Z.leb_spec (Z.abs (p - b)) (Z.abs (p - c)));
    cbn [andb]; split_and!; auto; lia.
Qed.

Section RowFacts2.
Variable a : arch.
Variable crc32_ieee : list Z -> Z.
Context {ZR : Type} {zlib : ZlibReader ZR}.

(** C3: for a row whose filter byte is 4 (Paeth), reconstruction adds
    to each byte, modulo 256, the one of [a] (reconstructed byte to the
    left, 0 if [i < 4]), [b] (byte above) and [c] (byte above left, 0 if
    [i < 4]) that is closest to [p = (a + b - c) mod 256] by absolute
    distance, ties going to [a], then [b], then [c]; so [a] is chosen
    when [|p-a| = |p-b| <= |p-c|]. *)
Theorem DecodeRow_paeth (D : Decoder ZR) (bs : list Z) (z' : ZR) (d' : decoder)
        (p0 : Z) (raw pdat : list Z) :
  y D < height (dd D) ->
  bytesPerPixel D = 4 ->
  io_ReadFull_zlib (zlibR D) (length (cr D)) (dd D) = (bs, None, z', d') ->
  overwrite bs (cr D) = ftPaeth :: raw ->
  pr D = p0 :: pdat ->
  length pdat = length raw ->
  exists out D',
    DecodeRow a D = (Ok out, D')
    /\ pr D' = ftPaeth :: out
    /\ length out = length raw
    /\ (forall i, (i < length raw)%nat ->
          let a := if decide (i < 4)%nat then 0 else nth (i - 4) out 0 in
          let b := nth i pdat 0 in
          let c := if decide (i < 4)%nat then 0 else nth (i - 4) pdat 0 in
          let p := (a + b - c) mod 256 in
          exists pred,
            nth i out 0 = (nth i raw 0 + pred) mod 256
            /\ pred = paeth a b c
            /\ (pred = a \/ pred = b \/ pred = c)
            /\ Z.abs (p - pred) <= Z.abs (p - a)
            /\ Z.abs (p - pred) <= Z.abs (p - b)
            /\ Z.abs (p - pred) <= Z.abs (p - c)
            /\ (Z.abs (p - a) <= Z.abs (p - b) -> Z.abs (p - a) <= Z.abs (p - c) -> pred = a)
            /\ (~ (Z.abs (p - a) <= Z.abs (p - b) /\ Z.abs (p - a) <= Z.abs (p - c)) ->
                Z.abs (p - b) <= Z.abs (p - c) -> pred = b)
            /\ (~ (Z.abs (p - a) <= Z.abs (p - b) /\ Z.abs (p - a) <= Z.abs (p - c)) ->
                Z.abs (p - c) < Z.abs (p - b) -> pred = c)).
Proof.
  intros Hy Hbpp Hread Hcr Hpr Hlen.
  rewrite (DecodeRow_read a D bs z' d' ftPaeth p0 raw pdat) by done. cbv zeta.
  rewrite Hbpp. unfold unfilter. cbn [Z.eqb ftPaeth ftAverage ftNone ftSub ftUp Pos.eqb].
  destruct (filterPaeth_pointwise 4 raw pdat ltac:(lia) Hlen) as (out & E & L & H1).
  change (Z.of_nat 4) with 4 in E. rewrite E. cbn [of_option].
  eexists out, _. split; [reflexivity|]. split_and!.
  - unfold pr. destruct D as [? ? ? ? ? [] ?]; reflexivity.
  - done.
  - intros i Hi. cbv zeta. eexists. split; [apply H1; done|].
    unfold left_nth. split; [reflexivity|].
    apply paeth_closest.
Qed.

Lemma DecodeRow_ok_inv (D D' : Decoder ZR) (row : list Z) :
  DecodeRow a D = (Ok row, D') ->
  exists bs z' d' ft raw p0,
    io_ReadFull_zlib (zlibR D) (length (cr D)) (dd D) = (bs, None, z', d')
    /\ overwrite bs (cr D) = ft :: raw
    /\ pr D = p0 :: tail (pr D)
    /\ unfilter ft raw (tail (pr D)) (bytesPerPixel D) = Filtered row
    /\ cur D' = other (cur D)
    /\ load D' (cur D) = ft :: row
    /\ load D' (other (cur D)) = load D (other (cur D))
    /\ y D' = to_int a (y D + 1)
    /\ y D < height (dd D).
Proof.
  unfold DecodeRow. destruct (Z.geb_spec (y D) (height (dd D))); [done|].
  destruct (io_ReadFull_zlib _ _ _) as [[[bs e] z'] d'] eqn:Hread.
  destruct e as [[]|]; try done.
  set (D1 := store (cur D) _ _).
  assert (cr D1 = overwrite bs (cr D)) as Hcr1.
  { unfold cr. subst D1. destruct D as [? ? ? ? ? [] ?]; reflexivity. }
  assert (pr D1 = pr D) as Hpr1.
  { unfold pr. subst D1. destruct D as [? ? ? ? ? [] ?]; reflexivity. }
  rewrite Hcr1, Hpr1.
  destruct (overwrite bs (cr D)) as [|ft raw] eqn:Hov; [done|].
  destruct (pr D) as [|p0 pdat] eqn:Hpr; [done|].
  assert (bytesPerPixel D1 = bytesPerPixel D) as ->.
  { subst D1. destruct D as [? ? ? ? ? [] ?]; reflexivity. }
  destruct (unfilter ft raw pdat (bytesPerPixel D)) as [row'| |] eqn:Hun; try done.
  intros [= <- <-].
  exists bs, z', d', ft, raw, p0. split_and!; try done;
    try (subst D1; destruct D as [? ? ? ? ? [] ?]; reflexivity).
Qed.

Lemma store_cur_frame (D : Decoder ZR) (v : list Z) (z : ZR) (d : decoder) :
  let D1 := store (cur D) v (set_zlibR z (set_dd d D)) in
  cur D1 = cur D /\ pr D1 = pr D /\ y D1 = y D.
Proof. unfold pr. destruct D as [? ? ? ? ? [] ?]; done. Qed.

Lemma DecodeRow_err_inv (D D' : Decoder ZR) (e : error) :
  DecodeRow a D = (Err e, D') ->
  cur D' = cur D /\ pr D' = pr D /\ y D' = y D.
Proof.
  unfold DecodeRow. destruct (Z.geb_spec (y D) (height (dd D))).
  { by intros [= <- <-]. }
  destruct (io_ReadFull_zlib _ _ _) as [[[bs e'] z'] d'] eqn:Hread.
  pose proof (store_cur_frame D (overwrite bs (cr D)) z' d') as HD1. cbv zeta in HD1.
  set (D1 := store (cur D) _ _) in |- *.
  destruct e' as [e'|].
  { destruct e'; intros [= <- <-]; exact HD1. }
  destruct (cr D1) as [|ft cdat]; [done|].
  destruct (pr D1) as [|p0 pdat]; [done|].
  destruct (unfilter ft cdat pdat _); try done.
  intros [= <- <-]. exact HD1.
Qed.

Lemma NewDecoder_ok_inv (input : list Z) (D : Decoder ZR) :
  NewDecoder a crc32_ieee input = Ok D ->
  exists n, buf0 D = repeat 0 n /\ buf1 D = repeat 0 n /\ cur D = Buf0 /\ y D = 0
            /\ bytesPerPixel D = 4.
Proof.
  unfold NewDecoder.
  destruct (eof_unexpected checkHeader _) as [[[]| | |] d1]; try done.
  destruct (chunk_loop _ _ _ _) as [[[]| | |] d2]; try done.
  destruct (zlib_NewReader d2) as [[z| | |] d3]; try done.
  destruct (negb _); [done|].
  intros [= <-]. eexists. simpl. done.
Qed.

(** [DecodeRow] keeps the two row buffers as long as each other. *)
Lemma DecodeRow_buffers (D : Decoder ZR) :
  bytesPerPixel D = 4 -> length (buf0 D) = length (buf1 D) ->
  bytesPerPixel (snd (DecodeRow a D)) = 4
  /\ length (buf0 (snd (DecodeRow a D))) = length (buf1 (snd (DecodeRow a D))).
Proof.
  intros Hb Hl. unfold DecodeRow.
  destruct (y D >=? height (dd D)); [done|].
  destruct (io_ReadFull_zlib _ _ _) as [[[bs e] z'] d'].
  set (D1 := store (cur D) (overwrite bs (cr D)) (set_zlibR z' (set_dd d' D))).
  assert (bytesPerPixel D1 = 4 /\ length (buf0 D1) = length (buf1 D1)
          /\ length (cr D1) = length (pr D1)) as (Hb1 & Hl1 & Hcp).
  { subst D1. unfold cr, pr.
    destruct D as [Dd Dz Dbpp Db0 Db1 [] Dy];
      cbn [store set_zlibR set_dd bytesPerPixel buf0 buf1 cur load other] in *;
      rewrite ?length_overwrite; split_and!; done. }
  destruct e as [e|]; [by destruct e|].
  destruct (cr D1) as [|ft cdat] eqn:Ecr; [done|].
  destruct (pr D1) as [|p0 pdat] eqn:Epr; [done|].
  rewrite Hb1.
  destruct (unfilter ft cdat pdat 4) as [row| |] eqn:Eun; try done.
  apply unfilter_reconstructs in Eun as (_ & Lrow & _); [|simpl in Hcp; lia].
  cbn [snd]. unfold cr, pr in *.
  destruct D1 as [Dd Dz Dbpp Db0 Db1 [] Dy];
    cbn [store set_y set_cur bytesPerPixel buf0 buf1 cur load other length] in *;
    subst; cbn [length] in *; split_and!; try done; lia.
Qed.

Lemma Reach_buffers (input : list Z) (D : Decoder ZR) (rows : list (list Z)) :
  Reach a crc32_ieee input D rows ->
  bytesPerPixel D = 4 /\ length (buf0 D) = length (buf1 D).
Proof.
  induction 1 as [D HD|D D' row rows HR IH Hrow|D D' e rows HR IH Herr].
  - apply NewDecoder_ok_inv in HD as (n & -> & -> & _ & _ & ->). done.
  - destruct IH as [Hb Hl]. pose proof (DecodeRow_buffers D Hb Hl) as H.
    by rewrite Hrow in H.
  - destruct IH as [Hb Hl]. pose proof (DecodeRow_buffers D Hb Hl) as H.
    by rewrite Herr in H.
Qed.

(** A successful call returns the reconstruction of the scanline it has
    read into the current-row buffer, with respect to the previous-row
    buffer. *)
Lemma DecodeRow_reconstructs (D D' : Decoder ZR) (row : list Z) :
  bytesPerPixel D = 4 -> length (buf0 D) = length (buf1 D) ->
  DecodeRow a D = (Ok row, D') ->
  exists bs z' d' ft raw,
    io_ReadFull_zlib (zlibR D) (length (cr D)) (dd D) = (bs, None, z', d')
    /\ overwrite bs (cr D) = ft :: raw
    /\ unfilter ft raw (tail (pr D)) (bytesPerPixel D) = Filtered row
    /\ reconstructs ft raw (tail (pr D)) row
    /\ length (tail (pr D)) = length raw.
Proof.
  intros Hb Hl Hrow.
  apply DecodeRow_ok_inv in Hrow
    as (bs & z' & d' & ft & raw & p0 & Hread & Hov & Hpr & Hun & _).
  assert (length (tail (pr D)) = length raw) as Hlen.
  { pose proof (length_overwrite bs (cr D)) as L. rewrite Hov in L.
    assert (length (pr D) = length (cr D)) as Lp by (unfold pr, cr; destruct (cur D); done).
    rewrite Hpr in Lp. simpl in *. lia. }
  exists bs, z', d', ft, raw. split_and!; try done.
  rewrite Hb in Hun. by apply unfilter_reconstructs.
Qed.

(** What a session keeps of the previous-row buffer. *)
Lemma Reach_previous_row (input : list Z) (D : Decoder ZR) (rows : list (list Z)) :
  Reach a crc32_ieee input D rows ->
  tail (pr D) = row_above rows (length (tail (pr D)))
  /\ match rows with
     | [] => True
     | row :: above =>
         exists D0 bs z' d' ft raw,
           Reach a crc32_ieee input D0 above
           /\ io_ReadFull_zlib (zlibR D0) (length (cr D0)) (dd D0) = (bs, None, z', d')
           /\ overwrite bs (cr D0) = ft :: raw
           /\ fst (DecodeRow a D0) = Ok row
           /\ reconstructs ft raw (row_above above (length raw)) row
     end.
Proof.
  induction 1 as [D HD|D D' row rows HR IH Hrow|D D' e rows HR IH Herr].
  - split; [|done].
    apply NewDecoder_ok_inv in HD as (n & H0 & H1 & Hc & _).
    unfold pr. rewrite Hc. simpl. rewrite H1. destruct n; simpl; [done|].
    by rewrite repeat_length.
  - destruct IH as [Hprev _].
    destruct (Reach_buffers input D rows HR) as [Hb Hl].
    destruct (DecodeRow_reconstructs D D' row Hb Hl Hrow)
      as (bs & z' & d' & ft & raw & Hread & Hov & _ & Hrec & Hlen).
    split.
    + apply DecodeRow_ok_inv in Hrow
        as (? & ? & ? & ? & ? & ? & _ & _ & _ & _ & Hc & Hld & _).
      unfold pr. rewrite Hc, other_other, Hld. done.
    + exists D, bs, z', d', ft, raw. split_and!; try done.
      * by rewrite Hrow.
      * rewrite <- Hlen, <- Hprev. exact Hrec.
  - apply DecodeRow_err_inv in Herr as (_ & E & _). rewrite E. exact IH.
Qed.

(** C7: between calls of [DecodeRow] the data part of the previous-row
    buffer holds the row the latest successful call returned, or zeros
    when no row has been decoded yet; and that row is the reconstruction
    (filter type None) of the scanline which that call read into the
    current-row buffer, with respect to the row returned before it (zeros
    above the first row).  A successful call keeps this by exchanging the
    two buffer references: it reconstructs the scanline it has read in
    place, with respect to the previous-row buffer; then the buffer that
    held the previous row becomes the current one with its bytes as they
    were, and the buffer the row was reconstructed in becomes the
    previous one.  A failed call leaves the previous row alone. *)
Theorem previous_row_invariant (input : list Z) (D : Decoder ZR) (rows : list (list Z)) :
  Reach a crc32_ieee input D rows ->
  (tail (pr D)
   = match rows with
     | [] => repeat 0 (length (tail (pr D)))
     | row :: _ => row
     end)
  /\ match rows with
     | [] => True
     | row :: above =>
         exists D0 bs z' d' ft raw,
           Reach a crc32_ieee input D0 above
           /\ io_ReadFull_zlib (zlibR D0) (length (cr D0)) (dd D0) = (bs, None, z', d')
           /\ overwrite bs (cr D0) = ft :: raw
           /\ fst (DecodeRow a D0) = Ok row
           /\ reconstructs ft raw (row_above above (length raw)) row
     end
  /\ (forall row D',
        DecodeRow a D = (Ok row, D') ->
        cur D' = other (cur D)
        /\ cr D' = pr D
        /\ tail (pr D') = row
        /\ exists bs z' d' ft raw,
             io_ReadFull_zlib (zlibR D) (length (cr D)) (dd D) = (bs, None, z', d')
             /\ overwrite bs (cr D) = ft :: raw
             /\ unfilter ft raw (tail (pr D)) (bytesPerPixel D) = Filtered row
             /\ reconstructs ft raw (tail (pr D)) row)
  /\ (forall e D',
        DecodeRow a D = (Err e, D') -> cur D' = cur D /\ pr D' = pr D).
Proof.
  intros HR. destruct (Reach_previous_row input D rows HR) as [Hprev Hrec].
  destruct (Reach_buffers input D rows HR) as [Hb Hl].
  split_and!; try done.
  - intros row D' Hrow.
    destruct (DecodeRow_reconstructs D D' row Hb Hl Hrow)
      as (bs & z' & d' & ft & raw & Hread & Hov & Hun & Hre & _).
    apply DecodeRow_ok_inv in Hrow
      as (? & ? & ? & ? & ? & ? & _ & _ & _ & _ & Hc & Hld & Ho & _).
    split_and!; try done.
    + unfold cr, pr. by rewrite Hc.
    + unfold pr. by rewrite Hc, other_other, Hld.
    + by exists bs, z', d', ft, raw.
  - intros e D' Herr. apply DecodeRow_err_inv in Herr as (? & ? & _). done.
Qed.

End RowFacts2.

(** ** The round trip through the encoder *)






Lemma BigEndian_roundtrip (v : Z) :
  0 <= v < 2 ^ 32 -> BigEndian_Uint32 (BigEndian_PutUint32 v) = v.
Proof.
  intros Hv. unfold BigEndian_Uint32, BigEndian_PutUint32. cbn [nth].
  change (2 ^ 24) with 16777216. change (2 ^ 16) with 65536. change (2 ^ 8) with 256.
  change (2 ^ 32) with 4294967296 in Hv.
  Z.div_mod_to_equations. lia.
Qed.

Lemma to_uint32_range (x : Z) : 0 <= to_uint32 x < 2 ^ 32.
Proof. unfold to_uint32. apply Z.mod_pos_bound. reflexivity. Qed.

Lemma length_PutUint32 (v : Z) : length (BigEndian_PutUint32 v) = 4%nat.
Proof. reflexivity. Qed.


Lemma maxInt_ge (a : arch) : 2 ^ 31 - 1 <= maxInt a.
Proof. destruct a; unfold maxInt; simpl; lia. Qed.

Lemma to_int_fits (a : arch) (v : Z) : 0 <= v <= maxInt a -> to_int a v = v.
Proof.
  intros Hv. apply wrap_signed_small; [by destruct a|]. unfold maxInt in Hv.
  assert (0 < 2 ^ (intSize a - 1)) by (destruct a; reflexivity). lia.
Qed.

Lemma bind_ok {A B : Type} (m : M A) (k : A -> M B) (d d' : decoder) (v : A) :
  m d = (Ok v, d') -> bind m k d = k v d'.
Proof. intros E. unfold bind. by rewrite E. Qed.


Lemma copy_at_next (pixdone row zeros : list Z) (offset : Z) :
  offset = Z.of_nat (length pixdone) ->
  copy_at (pixdone ++ repeat 0 (length row) ++ zeros) offset row
  = Some ((pixdone ++ row) ++ zeros).
Proof.
  intros ->. unfold copy_at, len.
  assert ((Z.of_nat (length pixdone) <? 0) = false) as -> by (apply Z.ltb_ge; lia).
  assert ((Z.of_nat (length (pixdone ++ repeat 0 (length row) ++ zeros))
           <? Z.of_nat (length pixdone)) = false) as ->
      by (apply Z.ltb_ge; rewrite length_app; lia).
  cbn [orb]. rewrite Nat2Z.id, take_app_length, drop_app_length.
  unfold overwrite. rewrite length_app, repeat_length.
  rewrite take_ge by lia. rewrite drop_app_length'; [|by rewrite repeat_length].
  by rewrite <- app_assoc.
Qed.





Section Stream.
Variable a : arch.
Variable crc32_ieee : list Z -> Z.

Lemma to_int_small (x : Z) : 0 <= x < 2 ^ 31 -> to_int a x = x.
Proof.
  intros Hx. apply wrap_signed_small; [by destruct a|].
  change (2 ^ 31) with 2147483648 in Hx.
  destruct a; simpl.
  - change (2 ^ (32 - 1)) with 2147483648. lia.
  - change (2 ^ (64 - 1)) with 9223372036854775808. lia.
Qed.


Lemma Read_within_segment (d : decoder) (n : nat) (done todo : list Z)
      (more : list (list Z)) (rest : list Z) :
  n <> 0%nat -> todo <> [] ->
  Adapter crc32_ieee d done todo more rest ->
  let k := Nat.min n (length todo) in
  exists d',
    Read a crc32_ieee n d = (Ok (take k todo, None), d')
    /\ Adapter crc32_ieee d' (done ++ take k todo) (drop k todo) more rest
    /\ meta d' = meta d.
Proof.
  intros Hn Ht (Hr & Hc & Hl & Hs & Hm) k.
  assert (0 < len todo < 2 ^ 31) as Hlen.
  { unfold len in *. rewrite length_app in Hs. destruct todo; [done|]. simpl in *. lia. }
  assert (to_int a (idatLength d) = len todo) as Hint by (rewrite Hl; apply to_int_small; lia).
  assert (Z.to_nat (Z.min (Z.of_nat n) (to_int a (idatLength d))) = k) as Hk.
  { rewrite Hint. unfold len. subst k. lia. }
  assert (take k (r d) = take k todo) as Htake.
  { rewrite Hr. unfold idat_tail. apply take_app_le. subst k. lia. }
  assert (drop k (r d) = idat_tail crc32_ieee (done ++ take k todo) (drop k todo) more rest)
    as Hdrop.
  { rewrite Hr. unfold idat_tail. rewrite drop_app_le by (subst k; lia).
    rewrite <- !app_assoc. by rewrite (take_drop k todo). }
  eexists. split; [|split].
  - rewrite Read_copy; try done; try lia.
    + cbv zeta. rewrite Hk, Htake. reflexivity.
    + rewrite Hr. unfold idat_tail. destruct todo; done.
  - repeat split; cbn [r crc idatLength set_idatLength set_crc set_r].
    + exact Hdrop.
    + rewrite Hc. by rewrite <- app_assoc.
    + rewrite Hl. unfold len, to_uint32. rewrite length_take, length_drop.
      change (2 ^ 31) with 2147483648 in *. change (2 ^ 32) with 4294967296.
      unfold len in Hlen. rewrite Z.mod_small; lia.
    + rewrite <- app_assoc, (take_drop k todo). exact Hs.
    + exact Hm.
  - reflexivity.
Qed.

(** Across segment boundaries: while compressed bytes remain, a [Read]
    delivers some of them and leaves the adapter at the bytes behind
    them. *)
Lemma Read_stream (n : nat) (rest : list Z) (more : list (list Z)) :
  n <> 0%nat ->
  forall (d : decoder) (done todo : list Z),
    Adapter crc32_ieee d done todo more rest ->
    todo ++ concat more <> [] ->
    exists bs d' done' todo' more',
      Read a crc32_ieee n d = (Ok (bs, None), d')
      /\ bs <> []
      /\ todo ++ concat more = bs ++ todo' ++ concat more'
      /\ Adapter crc32_ieee d' done' todo' more' rest
      /\ meta d' = meta d.
Proof.
  intros Hn. induction more as [|seg more IH]; intros d done todo HA Hne.
  - destruct todo as [|x todo]; [done|].
    destruct (Read_within_segment d n done (x :: todo) [] rest Hn ltac:(done) HA)
      as (d' & E & HA' & Hm).
    eexists _, d', _, _, []. split_and!; try done.
    + destruct n; done.
    + by rewrite app_assoc, take_drop.
  - destruct todo as [|x todo].
    + destruct HA as (Hr & Hc & Hl & Hs & Hm).
      apply Forall_cons in Hm as [[Hne' Hseg] Hm].
      unfold idat_tail in Hr. cbn [app map concat] in Hr. unfold chunk at 1 in Hr.
      rewrite <- !app_assoc in Hr.
      rewrite (Read_next_segment a crc32_ieee d n _ _ _ Hn Hl Hr); try done.
      2:{ rewrite BigEndian_roundtrip by apply to_uint32_range.
          unfold Sum32. rewrite Hc. by rewrite app_nil_r. }
      rewrite BigEndian_roundtrip.
      2:{ unfold len in *. change (2 ^ 32) with 4294967296.
          change (2 ^ 31) with 2147483648 in Hseg. lia. }
      match goal with |- context [Read a crc32_ieee n ?d2] => set (dn := d2) end.
      destruct (IH dn [] seg) as (bs & d' & done' & todo' & more' & E & Hbs & Hcat & HA' & Hmeta).
      * repeat split; done.
      * cbn [app concat] in Hne. done.
      * exists bs, d', done', todo', more'. split_and!; try done.
    + destruct (Read_within_segment d n done (x :: todo) (seg :: more) rest Hn ltac:(done) HA)
        as (d' & E & HA' & Hm).
      eexists _, d', _, _, (seg :: more). split_and!; try done.
      * destruct n; done.
      * by rewrite app_assoc, take_drop.
Qed.

End Stream.

Section Pull.
Variable a : arch.
Variable crc32_ieee : list Z -> Z.
Variable inflate : list Z -> list Z * zstatus.
Variable deflate : CompressionLevel -> list Z -> list Z.
Hypothesis codec : streaming_codec inflate deflate.

Variable level : CompressionLevel.
Variable x : list Z.
Hypothesis x_nonempty : x <> [].
Variable rest : list Z.

Local Abbreviation C := (deflate level x).





End Pull.

Section RoundTrip.
Variable a : arch.
Variable crc32_ieee : list Z -> Z.
Variable inflate : list Z -> list Z * zstatus.
Variable deflate : CompressionLevel -> list Z -> list Z.
Hypothesis codec : streaming_codec inflate deflate.

Variable level : CompressionLevel.

Variables w h : Z.
Hypothesis w_range : 0 < w < 2 ^ 31.
Hypothesis h_range : 0 < h < 2 ^ 31.
Hypothesis fits : w * h * 8 <= maxInt a.

(** The scanlines that were compressed. *)
Variable x : list Z.
Hypothesis x_nonempty : x <> [].

Local Abbreviation C := (deflate level x).
Local Abbreviation trailer := (chunk crc32_ieee tagIEND []).
Local Abbreviation zlibI := (PullZlib a crc32_ieee inflate).
Local Abbreviation rowlen := (Z.to_nat (4 * w)).








Lemma rowSize_fits :
  let rowSize := to_int64 (1 + Z.quot (to_int64 (32 * w + 7)) 8) in
  rowSize = 1 + 4 * w /\ to_int64 (to_int a rowSize) = rowSize.
Proof.
  cbv zeta. pose proof (maxInt_ge a).
  change (2 ^ 31) with 2147483648 in *.
  assert (forall v, 0 <= v < 2 ^ 40 -> to_int64 v = v) as small64.
  { intros v Hv. apply wrap_signed_small; [lia|].
    change (2 ^ 40) with 1099511627776 in Hv.
    change (2 ^ (64 - 1)) with 9223372036854775808. lia. }
  change (2 ^ 40) with 1099511627776 in small64.
  rewrite (small64 (32 * w + 7)) by lia.
  assert (Z.quot (32 * w + 7) 8 = 4 * w) as ->.
  { rewrite Z.quot_div_nonneg by lia. symmetry. apply Z.div_unique with 7; lia. }
  rewrite (small64 (1 + 4 * w)) by lia. split; [done|].
  assert (to_int a (1 + 4 * w) = 1 + 4 * w) as ->; [|apply small64; lia].
  apply wrap_signed_small; [by destruct a|].
  assert (1 + 4 * w <= maxInt a) by nia.
  unfold maxInt in *. lia.
Qed.

Variable choose : nat -> list Z -> list Z -> filterType.




Variable maxChunk : nat.
Hypothesis maxChunk_range : 0 < Z.of_nat maxChunk < 2 ^ 31.

Local Abbreviation stream :=
  (pngHeader ++ chunk crc32_ieee tagIHDR (ihdr_payload w h)
   ++ concat (map (chunk crc32_ieee tagIDAT) (segments (length C) maxChunk C))
   ++ trailer).



End RoundTrip.


(** ** Sessions, malformed input and what the code never does *)

(** ** Header fields are left alone *)

Lemma keeps_meta_ret {A} (x : A) : keeps_meta (ret x).
Proof. intros d. reflexivity. Qed.

Lemma keeps_meta_fail {A} (e : error) : keeps_meta (@fail A e).
Proof. intros d. reflexivity. Qed.

Lemma keeps_meta_get {A} (f : decoder -> A) : keeps_meta (get f).
Proof. intros d. reflexivity. Qed.

Lemma keeps_meta_modify (f : decoder -> decoder) :
  (forall d, meta (f d) = meta d) -> keeps_meta (modify f).
Proof. intros H d. apply H. Qed.

Lemma keeps_meta_bind {A B} (m : M A) (k : A -> M B) :
  keeps_meta m -> (forall x, keeps_meta (k x)) -> keeps_meta (bind m k).
Proof.
  intros Hm Hk d. unfold bind. specialize (Hm d).
  destruct (m d) as [[x| | |] d1]; simpl in *; try done.
  rewrite <- Hm. apply Hk.
Qed.

Lemma keeps_meta_if {A} (b : bool) (m1 m2 : M A) :
  keeps_meta m1 -> keeps_meta m2 -> keeps_meta (if b then m1 else m2).
Proof. by destruct b. Qed.

Lemma keeps_meta_ReadFull_tmp (n : nat) : keeps_meta (ReadFull_tmp n).
Proof.
  intros d. unfold ReadFull_tmp. destruct (io_ReadFull (r d) n) as [[bs [e|]] s']; reflexivity.
Qed.

Lemma keeps_meta_ReadFull_ignored (n : nat) : keeps_meta (ReadFull_ignored n).
Proof.
  intros d. unfold ReadFull_ignored. destruct (io_ReadFull (r d) n) as [[bs [e|]] s']; reflexivity.
Qed.

Ltac keeps_meta_step :=
  first
    [ apply keeps_meta_ret | apply keeps_meta_fail | apply keeps_meta_get
    | apply keeps_meta_ReadFull_tmp | apply keeps_meta_ReadFull_ignored
    | apply keeps_meta_modify; reflexivity
    | apply keeps_meta_if
    | apply keeps_meta_bind; [| intros ? ] ].

Section Frames.
Variable a : arch.
Variable crc32_ieee : list Z -> Z.

Lemma keeps_meta_verifyChecksum : keeps_meta (verifyChecksum crc32_ieee).
Proof. unfold verifyChecksum. repeat keeps_meta_step. Qed.

Lemma keeps_meta_skip_loop (fuel : nat) (n : Z) : keeps_meta (skip_loop a fuel n).
Proof.
  revert n. induction fuel as [|fuel IH]; intros n; simpl.
  - apply keeps_meta_if; [apply keeps_meta_ret | intros d; reflexivity].
  - unfold crc_Write. repeat first [ apply IH | keeps_meta_step ].
Qed.

Lemma keeps_meta_Read_loop (fuel : nat) : keeps_meta (Read_loop crc32_ieee fuel).
Proof.
  induction fuel as [|fuel IH]; intros d; simpl.
  - destruct (negb _); reflexivity.
  - destruct (negb _); [reflexivity|].
    match goal with |- meta (snd (?m d)) = _ => assert (keeps_meta m) as Hm end.
    { unfold crc_Reset, crc_Write.
      repeat first [ apply IH | apply keeps_meta_verifyChecksum | keeps_meta_step ]. }
    apply Hm.
Qed.

Lemma keeps_meta_Read (n : nat) : keeps_meta (Read a crc32_ieee n).
Proof.
  intros d. unfold Read. destruct (n =? 0)%nat; [reflexivity|].
  pose proof (keeps_meta_Read_loop (S (length (r d))) d) as H.
  destruct (Read_loop crc32_ieee (S (length (r d))) d) as [[[]| | |] d1]; try exact H.
  destruct (to_int a (idatLength d1) <? 0); [exact H|].
  destruct (io_Read _ _) as [[bs e] s']. exact H.
Qed.

Lemma reads_meta (d d' : decoder) : reads a crc32_ieee d d' -> meta d' = meta d.
Proof.
  induction 1 as [d|d d' n _ IH]; [done|]. by rewrite keeps_meta_Read.
Qed.

Lemma reads_trans (d1 d2 d3 : decoder) :
  reads a crc32_ieee d1 d2 -> reads a crc32_ieee d2 d3 -> reads a crc32_ieee d1 d3.
Proof.
  intros H12 H23. induction H23 as [d|d d' n _ IH]; [done|].
  apply reads_more. by apply IH.
Qed.

(** ** Loops come back *)

Lemma no_grow_Read_loop (fuel : nat) : no_grow (Read_loop crc32_ieee fuel).
Proof.
  induction fuel as [|fuel IH]; intros d; simpl.
  - destruct (negb _); simpl; lia.
  - destruct (negb _); [simpl; lia|].
    match goal with |- (length (r (snd (?m d))) <= _)%nat => assert (no_grow m) as Hm end.
    { repeat first [ apply IH | apply no_grow_crc_Reset | apply no_grow_crc_Write
                   | apply no_grow_verifyChecksum | no_grow_step ]. }
    apply Hm.
Qed.

Lemma Read_loop_returns (fuel : nat) :
  forall d, (length (r d) < fuel)%nat -> returned (fst (Read_loop crc32_ieee fuel d)).
Proof.
  induction fuel as [|fuel IH]; intros d Hf; [lia|].
  destruct (Z.eq_dec (idatLength d) 0) as [E0|E0].
  2:{ rewrite Read_loop_pending by done. done. }
  rewrite Read_loop_S by done.
  destruct (verifyChecksum crc32_ieee d) as [[[]| | |] d1] eqn:V; try done.
  2,3: (unfold verifyChecksum, bind, ReadFull_tmp in V;
        destruct (io_ReadFull (r d) 4) as [[bs [e|]] s']; [done|];
        unfold get in V; destruct (negb _); done).
  apply verifyChecksum_ok_inv in V as (c & E & L & _).
  destruct (ReadFull_tmp 8 d1) as [[t| | |] d2] eqn:R8; try done.
  2,3: (unfold ReadFull_tmp in R8; destruct (io_ReadFull (r d1) 8) as [[bs [e|]] s']; done).
  pose proof (no_grow_ReadFull_tmp 8 d1) as Hg. rewrite R8 in Hg. simpl in Hg.
  cbv zeta. destruct (bytes_eqb (drop 4 t) tagIDAT); [|done].
  apply IH. simpl. rewrite E, length_app in Hf. lia.
Qed.

(** [Read] always comes back, with its bytes and its error. *)
Lemma Read_returns_value (n : nat) (d : decoder) :
  exists bs e d', Read a crc32_ieee n d = (Ok (bs, e), d').
Proof.
  unfold Read. destruct (n =? 0)%nat; [by eexists _, _, _|].
  pose proof (Read_loop_returns (S (length (r d))) d ltac:(lia)) as H.
  destruct (Read_loop crc32_ieee (S (length (r d))) d) as [[[]| | |] d1]; try done.
  - destruct (to_int a (idatLength d1) <? 0); [by eexists _, _, _|].
    destruct (io_Read _ _) as [[bs e] s']. by eexists _, _, _.
  - by eexists _, _, _.
Qed.

End Frames.

Lemma returned_inv {A} (x : res A) :
  returned x -> (exists v, x = Ok v) \/ (exists e, x = Err e).
Proof. destruct x; try done; [left|right]; by eexists. Qed.

Lemma header_ok_meta (a : arch) (d d' : decoder) :
  meta d' = meta d -> header_ok a d -> header_ok a d'.
Proof. unfold meta, header_ok. intros [= -> -> -> -> _]. done. Qed.

Lemma set_r_crc_same (d : decoder) : set_crc (crc d ++ []) (set_r (r d) d) = d.
Proof. destruct d. unfold set_crc, set_r. simpl. by rewrite app_nil_r. Qed.

Lemma returned_bind {A B} (m : M A) (k : A -> M B) (d : decoder) :
  returned (fst (m d)) -> (forall x d', returned (fst (k x d'))) ->
  returned (fst (bind m k d)).
Proof.
  intros Hm Hk. unfold bind. destruct (m d) as [[x| | |] d1]; done.
Qed.

Lemma ReadFull_tmp_returns (n : nat) (d : decoder) : returned (fst (ReadFull_tmp n d)).
Proof. unfold ReadFull_tmp. by destruct (io_ReadFull (r d) n) as [[bs [e|]] s']. Qed.

Lemma eof_unexpected_returns {A} (m : M A) (d : decoder) :
  returned (fst (m d)) -> returned (fst (eof_unexpected m d)).
Proof. unfold eof_unexpected. by destruct (m d) as [[x|[]| |] d1]. Qed.

Ltac returns_step :=
  lazymatch goal with
  | |- returned (fst (bind _ _ _)) => apply returned_bind; [| intros ? ?]
  | |- returned (fst ((if ?b then _ else _) _)) => destruct b
  | |- returned (fst (fail _ _)) => exact I
  | |- returned (fst (ret _ _)) => exact I
  | |- returned (fst (modify _ _)) => exact I
  | |- returned (fst (get _ _)) => exact I
  | |- returned (fst (ReadFull_tmp _ _)) => apply ReadFull_tmp_returns
  | |- returned (fst (eof_unexpected _ _)) => apply eof_unexpected_returns
  end.

Section Chunks.
Variable a : arch.
Variable crc32_ieee : list Z -> Z.

(** The loop that skips a chunk reads its payload, whatever its length,
    and feeds it to the checksum. *)
Lemma skip_loop_payload (fuel : nat) :
  forall (payload s : list Z) (d : decoder),
    r d = payload ++ s ->
    len payload < 2 ^ 31 ->
    (length payload < fuel)%nat ->
    skip_loop a fuel (len payload) d = (Ok tt, set_crc (crc d ++ payload) (set_r s d)).
Proof.
  induction fuel as [|fuel IH]; intros payload s d Hr Hlen Hf; [lia|].
  cbn [skip_loop].
  destruct payload as [|x payload].
  { cbn. cbn in Hr. rewrite <- Hr. by rewrite set_r_crc_same. }
  assert (0 < len (x :: payload)) as Hpos by (unfold len; simpl; lia).
  destruct (Z.gtb_spec (len (x :: payload)) 0) as [_|]; [|lia]. cbn [negb].
  rewrite (to_int_small a) by lia.
  set (k := Z.to_nat (Z.min 4096 (len (x :: payload)))).
  assert (0 < k <= length (x :: payload))%nat as Hk by (unfold len in *; subst k; lia).
  unfold bind at 1. unfold ReadFull_ignored.
  rewrite Hr, io_ReadFull_ok by (rewrite length_app; lia).
  rewrite take_app_le, drop_app_le by lia.
  unfold bind at 1. unfold crc_Write at 1, modify at 1.
  assert (to_uint32 (len (x :: payload) - Z.of_nat (length (take k (x :: payload))))
          = len (drop k (x :: payload))) as ->.
  { unfold len, to_uint32 in *. rewrite length_take, length_drop.
    change (2 ^ 31) with 2147483648 in Hlen. change (2 ^ 32) with 4294967296.
    rewrite Z.mod_small; lia. }
  rewrite (IH (drop k (x :: payload)) s).
  - f_equal. cbn [crc set_crc set_r r]. unfold set_crc, set_r. cbn.
    rewrite <- app_assoc. by rewrite (take_drop k (x :: payload)).
  - reflexivity.
  - unfold len in *. rewrite length_drop. lia.
  - rewrite length_drop. lia.
Qed.

Lemma skip_loop_returns (fuel : nat) :
  forall (n : Z) (d : decoder),
    n < 2 ^ 31 -> (length (r d) < fuel)%nat ->
    returned (fst (skip_loop a fuel n d)).
Proof.
  induction fuel as [|fuel IH]; intros n d Hn Hf; [lia|].
  cbn [skip_loop]. destruct (Z.gtb_spec n 0) as [Hpos|]; [|done]. cbn [negb].
  rewrite (to_int_small a) by lia.
  unfold bind at 1. unfold ReadFull_ignored, io_ReadFull.
  destruct (decide _) as [Hle|]; [|done].
  unfold bind at 1. unfold crc_Write at 1, modify at 1.
  apply IH.
  - unfold to_uint32. rewrite length_take.
    change (2 ^ 31) with 2147483648 in *. change (2 ^ 32) with 4294967296.
    rewrite Z.mod_small; lia.
  - cbn. rewrite length_drop. lia.
Qed.

(** The checks of [parseIHDR] on the header fields, over any error results. *)
Lemma header_checks (w h b8 b9 b10 b11 : Z) (d2 d' : decoder) (e1 e2 e3 e4 e5 : res unit * decoder) :
  - 2 ^ 31 <= w < 2 ^ 31 -> - 2 ^ 31 <= h < 2 ^ 31 ->
  (if negb (b10 =? 0) then e1 else
   if negb (b11 =? 0) then e2 else
   if (w <=? 0) || (h <=? 0) then e3 else
   if negb (to_int64 (w * h) =? to_int64 (to_int a (to_int64 (w * h))))
      || negb (to_int a (to_int64 (w * h))
               =? Z.quot (to_int a (to_int a (to_int64 (w * h)) * 8)) 8)
   then e4 else
   if (b8 =? 8) && (b9 =? ctTrueColorAlpha)
   then verifyChecksum crc32_ieee d2
   else e5) = (Ok tt, d') ->
  fst e1 <> Ok tt -> fst e2 <> Ok tt -> fst e3 <> Ok tt -> fst e4 <> Ok tt -> fst e5 <> Ok tt ->
  0 < w /\ 0 < h /\ w * h * 8 <= maxInt a /\ b8 = 8 /\ b9 = ctTrueColorAlpha
  /\ verifyChecksum crc32_ieee d2 = (Ok tt, d').
Proof.
  intros Rw Rh H N1 N2 N3 N4 N5.
  destruct (negb (b10 =? 0)); [by rewrite H in N1|].
  destruct (negb (b11 =? 0)); [by rewrite H in N2|].
  destruct (Z.leb_spec w 0) as [|Hw]; [cbn [orb] in H; by rewrite H in N3|]. cbn [orb] in H.
  destruct (Z.leb_spec h 0) as [|Hh]; [by rewrite H in N3|].
  assert (0 < w * h < 2 ^ 62) as Hwh.
  { change (2 ^ 62) with (2 ^ 31 * 2 ^ 31). nia. }
  pose proof (dimension_overflow_test a (w * h) Hwh) as Hov. cbv zeta in Hov.
  rewrite Hov in H.
  destruct (Z.ltb_spec (maxInt a) (w * h * 8)) as [|Hfit]; [by rewrite H in N4|].
  destruct (Z.eqb_spec b8 8) as [E8|]; [|cbn [andb] in H; by rewrite H in N5]. cbn [andb] in H.
  destruct (Z.eqb_spec b9 ctTrueColorAlpha); [|by rewrite H in N5].
  done.
Qed.

(** What a successful [parseIHDR] leaves. *)
Lemma parseIHDR_ok_inv (n : Z) (d d' : decoder) :
  parseIHDR a crc32_ieee n d = (Ok tt, d') ->
  header_ok a d' /\ stage d' = stage d /\ n = 13.
Proof.
  intros H. destruct (Z.eq_dec n 13) as [->|Hn].
  2:{ unfold parseIHDR in H. destruct (Z.eqb_spec n 13); done. }
  destruct (le_lt_dec 13 (length (r d))) as [L|L].
  2:{ unfold parseIHDR in H. change (negb (13 =? 13)) with false in H. cbv iota in H.
      unfold bind at 1 in H. rewrite ReadFull_tmp_short in H by lia. done. }
  rewrite (parseIHDR_unfold a crc32_ieee d (take 13 (r d)) (drop 13 (r d))) in H.
  2:{ by rewrite take_drop. }
  2:{ rewrite length_take. lia. }
  cbv zeta in H.
  apply header_checks in H; try (cbn [fst]; discriminate).
  2,3: pose proof (wrap_signed_range 32 (BigEndian_Uint32 (take 4 (take 13 (r d)))) ltac:(lia));
       pose proof (wrap_signed_range 32 (BigEndian_Uint32 (take 4 (drop 4 (take 13 (r d))))) ltac:(lia));
       change (2 ^ (32 - 1)) with (2 ^ 31) in *; unfold to_int32; lia.
  destruct H as (Hw & Hh & Hfit & E8 & E9 & H).
  destruct (verifyChecksum_ok_inv _ _ _ H) as (c & _ & _ & _ & _ & E).
  pose proof (wrap_signed_range 32 (BigEndian_Uint32 (take 4 (take 13 (r d)))) ltac:(lia)).
  pose proof (wrap_signed_range 32 (BigEndian_Uint32 (take 4 (drop 4 (take 13 (r d))))) ltac:(lia)).
  change (2 ^ (32 - 1)) with (2 ^ 31) in *. fold (to_int32 (BigEndian_Uint32 (take 4 (take 13 (r d))))) in *.
  fold (to_int32 (BigEndian_Uint32 (take 4 (drop 4 (take 13 (r d)))))) in *.
  rewrite E. unfold header_ok.
  cbn [width height depth cb stage r crc tmp idatLength
       set_tmp set_r set_height set_width set_cb set_depth set_crc].
  split_and!; try done; lia.
Qed.

(** [parseIHDR] has no loop and no indexing that can fail. *)
Lemma parseIHDR_returns (n : Z) (d : decoder) :
  returned (fst (parseIHDR a crc32_ieee n d)).
Proof. unfold parseIHDR, verifyChecksum, crc_Write. repeat returns_step. Qed.

Lemma verifyChecksum_returns (d : decoder) : returned (fst (verifyChecksum crc32_ieee d)).
Proof. unfold verifyChecksum. repeat returns_step. Qed.

Lemma readIEND_returns (d : decoder) : returned (fst (readIEND crc32_ieee d)).
Proof. unfold readIEND, verifyChecksum, crc_Reset, crc_Write. repeat returns_step. Qed.

End Chunks.

Section Chunks2.
Variable a : arch.
Variable crc32_ieee : list Z -> Z.

Lemma chunk_round_returns (d : decoder) : returned (fst (chunk_round a crc32_ieee d)).
Proof.
  unfold chunk_round, crc_Reset, crc_Write.
  apply returned_bind; [apply ReadFull_tmp_returns|]. intros t d1. cbv zeta.
  do 2 (apply returned_bind; [exact I|]; intros ? ?).
  destruct (bytes_eqb (drop 4 t) tagIHDR).
  { repeat first [ apply parseIHDR_returns | returns_step ]. }
  destruct (bytes_eqb (drop 4 t) tagIDAT).
  { repeat returns_step. }
  destruct (Z.gtb_spec (BigEndian_Uint32 (take 4 t)) 2147483647) as [|Hlen]; [exact I|].
  unfold bind at 1. unfold get at 1.
  apply returned_bind.
  { apply skip_loop_returns; [change (2 ^ 31) with 2147483648|]; lia. }
  intros ? ?. repeat first [ apply verifyChecksum_returns | returns_step ].
Qed.

Lemma chunk_loop_returns (fuel : nat) :
  forall d, (length (r d) < fuel)%nat -> returned (fst (chunk_loop a crc32_ieee fuel d)).
Proof.
  induction fuel as [|fuel IH]; intros d Hf; [lia|].
  cbn [chunk_loop]. unfold bind.
  pose proof (chunk_round_returns d) as Hr.
  destruct (chunk_round a crc32_ieee d) as [[[]| | |] d1] eqn:E; try done.
  apply IH. apply chunk_round_consumes in E. lia.
Qed.

(** What a round of the chunk loop does to the stage and the header
    fields. *)
Lemma chunk_round_inv (d d' : decoder) (b : bool) :
  chunk_round a crc32_ieee d = (Ok b, d') ->
  if b
  then meta d' = meta d
       \/ (stage d = dsStart /\ stage d' = dsSeenIHDR /\ header_ok a d')
  else (stage d = dsSeenIHDR \/ stage d = dsSeenIDAT)
       /\ stage d' = dsSeenIDAT
       /\ (width d', height d', depth d', cb d') = (width d, height d, depth d, cb d).
Proof.
  unfold chunk_round. unfold bind at 1.
  pose proof (keeps_meta_ReadFull_tmp 8 d) as Hm1.
  destruct (ReadFull_tmp 8 d) as [[t| | |] d1]; try done. cbn [snd] in Hm1.
  cbv zeta. unfold bind at 1, crc_Reset at 1, modify at 1.
  unfold bind at 1, crc_Write at 1, modify at 1.
  set (d2 := set_crc _ _).
  assert (meta d2 = meta d) as Hm2 by (rewrite <- Hm1; reflexivity).
  destruct (bytes_eqb (drop 4 t) tagIHDR).
  { unfold bind at 1, get at 1.
    destruct (Z.eqb_spec (stage d2) dsStart) as [Hs|]; [|done]. cbn [negb].
    unfold bind at 1, modify at 1. unfold bind at 1.
    unfold eof_unexpected.
    destruct (parseIHDR a crc32_ieee _ _) as [[[]|e| |] d4] eqn:HP; try done.
    2:{ by destruct e. }
    apply parseIHDR_ok_inv in HP as (Hok & Hst & _).
    unfold bind at 1, get at 1.
    destruct (negb (cb d4 =? cbTCA8)); [done|].
    intros [= <- <-]. right. split_and!; try done.
    unfold meta in Hm2. injection Hm2 as _ _ _ _ <-. done. }
  destruct (bytes_eqb (drop 4 t) tagIDAT).
  { unfold bind at 1, get at 1.
    destruct (Z.ltb_spec (stage d2) dsSeenIHDR) as [|H1]; [done|].
    destruct (Z.gtb_spec (stage d2) dsSeenIDAT) as [|H2]; [done|]. cbn [orb].
    unfold bind, modify, ret. intros [= <- <-].
    unfold meta in Hm2. injection Hm2 as <- <- <- <- <-.
    unfold dsSeenIHDR, dsSeenIDAT in *. split_and!; try done. subst d2. cbn in H1, H2. lia. }
  destruct (BigEndian_Uint32 (take 4 t) >? 2147483647); [done|].
  unfold bind at 1, get at 1. unfold bind at 1.
  pose proof (keeps_meta_skip_loop a (S (length (r d2))) (BigEndian_Uint32 (take 4 t)) d2) as Hm3.
  destruct (skip_loop a _ _ d2) as [[[]| | |] d3]; try done. cbn [snd] in Hm3.
  unfold bind at 1.
  pose proof (keeps_meta_verifyChecksum crc32_ieee d3) as Hm4.
  destruct (verifyChecksum crc32_ieee d3) as [[[]| | |] d4]; try done. cbn [snd] in Hm4.
  intros [= <- <-]. left. congruence.
Qed.

(** When the chunk loop is left, an IHDR chunk has been parsed and the
    stage is "IDAT seen". *)
Lemma chunk_loop_inv (fuel : nat) :
  forall d d',
    chunk_loop a crc32_ieee fuel d = (Ok tt, d') ->
    stage d = dsStart \/ (stage d = dsSeenIHDR /\ header_ok a d) ->
    stage d' = dsSeenIDAT /\ header_ok a d'.
Proof.
  induction fuel as [|fuel IH]; intros d d' H HI; [done|].
  cbn [chunk_loop] in H. unfold bind in H.
  destruct (chunk_round a crc32_ieee d) as [[b| | |] d1] eqn:E; try done.
  apply chunk_round_inv in E. destruct b.
  - apply (IH d1 d' H). destruct E as [Hm|(Hs & Hs' & Hok)].
    + destruct HI as [Hs|[Hs Hok]].
      * left. unfold meta in Hm. injection Hm as _ _ _ _ ->. done.
      * right. split; [|by apply (header_ok_meta a d)].
        unfold meta in Hm. injection Hm as _ _ _ _ ->. done.
    + by right.
  - injection H as <-. destruct E as (Hst & Hs' & Hf). split; [done|].
    destruct HI as [Hs|[_ Hok]].
    + unfold dsStart, dsSeenIHDR, dsSeenIDAT in *. lia.
    + unfold header_ok in *. injection Hf as -> -> -> ->. done.
Qed.

Context {ZR : Type} {zlib : ZlibReader ZR}.

(** What a successful [NewDecoder] hands over. *)
Lemma NewDecoder_SessInv (input : list Z) (D : Decoder ZR) :
  reads_only a crc32_ieee zlib ->
  NewDecoder a crc32_ieee input = Ok D ->
  SessInv a D /\ y D = 0 /\ cur D = Buf0
  /\ buf0 D = repeat 0 (S (Z.to_nat (4 * width (dd D))))
  /\ buf1 D = repeat 0 (S (Z.to_nat (4 * width (dd D)))).
Proof.
  intros [Hnew _]. unfold NewDecoder.
  destruct (eof_unexpected checkHeader _) as [[[]| | |] d1] eqn:Hh; try done.
  assert (stage d1 = dsStart) as Hs1.
  { unfold eof_unexpected, checkHeader, bind, ReadFull_tmp in Hh.
    destruct (io_ReadFull _ _) as [[bs [e|]] s']; [by destruct e|].
    destruct (negb _); [done|]. by injection Hh as <-. }
  destruct (chunk_loop _ _ _ _) as [[[]| | |] d2] eqn:Hl; try done.
  apply chunk_loop_inv in Hl as [Hs2 Hok2]; [|by left].
  destruct (Hnew d2) as [Hreads _].
  destruct (zlib_NewReader d2) as [[z| | |] d3]; try done. cbn [snd] in Hreads.
  apply reads_meta in Hreads.
  assert (header_ok a d3) as Hok3 by (by apply (header_ok_meta a d2)).
  assert (stage d3 = dsSeenIDAT) as Hs3.
  { unfold meta in Hreads. injection Hreads as _ _ _ _ ->. done. }
  pose proof Hok3 as (Hw & Hh' & Hfit & _).
  destruct (rowSize_fits a (width d3) (height d3) Hw Hh' Hfit) as [Hrow Hint].
  cbv zeta in Hrow, Hint. cbv zeta. rewrite Hint, Z.eqb_refl. cbn [negb]. rewrite Hrow.
  intros [= <-]. cbn [dd y cur buf0 buf1].
  replace (Z.to_nat (1 + 4 * width d3)) with (S (Z.to_nat (4 * width d3))) by lia.
  split_and!; try done.
  unfold SessInv. cbn [dd y cur buf0 buf1 bytesPerPixel]. rewrite !repeat_length.
  split_and!; try done. lia.
Qed.

(** [NewDecoder] comes back whatever the input is. *)
Lemma NewDecoder_returns_any (input : list Z) :
  reads_only a crc32_ieee zlib ->
  returned (NewDecoder a crc32_ieee (ZR := ZR) input).
Proof.
  intros [Hnew _]. unfold NewDecoder.
  pose proof (eof_unexpected_returns checkHeader (new_decoder input)) as Hh.
  destruct (eof_unexpected checkHeader _) as [[[]| | |] d1]; try done.
  2,3: (apply Hh; unfold checkHeader; repeat returns_step).
  pose proof (chunk_loop_returns (S (length (r d1))) d1 ltac:(lia)) as Hl.
  destruct (chunk_loop _ _ _ _) as [[[]| | |] d2]; try done.
  destruct (Hnew d2) as [_ Hret].
  destruct (zlib_NewReader d2) as [[z| | |] d3]; try done.
  cbv zeta. destruct (negb _); done.
Qed.

End Chunks2.

(** On a row of whole pixels with a row above of the same length the
    filters do not index out of range, and they keep the length. *)
Lemma unfilter_total (ft : Z) (cdat pdat : list Z) :
  length pdat = length cdat -> (4 <= length cdat)%nat ->
  match unfilter ft cdat pdat 4 with
  | Filtered out => length out = length cdat /\ 0 <= ft <= 4
  | BadFilter => ft < 0 \/ 4 < ft
  | FilterPanic => False
  end.
Proof.
  intros Hlen H4. unfold unfilter, ftNone, ftSub, ftUp, ftAverage, ftPaeth.
  destruct (Z.eqb_spec ft 0); [split; [done|lia]|].
  destruct (Z.eqb_spec ft 1).
  { destruct (unfilterSub_pointwise 4 cdat ltac:(lia)) as (out & E & L & _).
    change (Z.of_nat 4) with 4 in E. rewrite E. split; [done|lia]. }
  destruct (Z.eqb_spec ft 2).
  { destruct (unfilterUp_pointwise cdat pdat Hlen) as (out & E & L & _).
    rewrite E. split; [done|lia]. }
  destruct (Z.eqb_spec ft 3).
  { destruct (unfilterAverage_pointwise 4 cdat pdat ltac:(lia) Hlen) as (out & E & L & _).
    change (Z.of_nat 4) with 4 in E. rewrite E. split; [done|lia]. }
  destruct (Z.eqb_spec ft 4).
  { destruct (filterPaeth_pointwise 4 cdat pdat ltac:(lia) Hlen) as (out & E & L & _).
    change (Z.of_nat 4) with 4 in E. rewrite E. split; [done|lia]. }
  lia.
Qed.

Section Rows.
Variable a : arch.
Variable crc32_ieee : list Z -> Z.
Context {ZR : Type} {zlib : ZlibReader ZR}.
Hypothesis zlib_reads : reads_only a crc32_ieee zlib.

(** One call of [DecodeRow] in a session. *)
Lemma DecodeRow_keeps (D : Decoder ZR) :
  SessInv a D ->
  SessInv a (snd (DecodeRow a D))
  /\ width (dd (snd (DecodeRow a D))) = width (dd D)
  /\ height (dd (snd (DecodeRow a D))) = height (dd D)
  /\ match fst (DecodeRow a D) with
     | Ok row => length row = Z.to_nat (4 * width (dd D))
                 /\ y (snd (DecodeRow a D)) = y D + 1 /\ y D < height (dd D)
     | Err _ => y (snd (DecodeRow a D)) = y D
     | Panic | OutOfFuel => False
     end.
Proof.
  intros (Hok & Hst & Hbpp & L0 & L1 & Hy).
  pose proof Hok as (Hw & Hh & _).
  unfold DecodeRow.
  destruct (Z.geb_spec (y D) (height (dd D))) as [|Hlt].
  { cbn [fst snd]. split_and!; done. }
  assert (length (cr D) = S (Z.to_nat (4 * width (dd D)))
          /\ length (pr D) = S (Z.to_nat (4 * width (dd D)))) as [Lcr Lpr].
  { unfold cr, pr. destruct (cur D); done. }
  destruct zlib_reads as [_ Hread].
  specialize (Hread (zlibR D) (length (cr D)) (dd D)).
  assert (io_ReadFull_zlib (zlibR D) (length (cr D)) (dd D)
          = zlib_ReadFull (zlibR D) (length (cr D)) (dd D)) as Eio.
  { unfold io_ReadFull_zlib. by rewrite Lcr. }
  rewrite Eio.
  destruct (zlib_ReadFull (zlibR D) (length (cr D)) (dd D)) as [[[bs e] z'] d'].
  cbn [snd] in Hread. apply (reads_meta a crc32_ieee) in Hread.
  assert (width d' = width (dd D) /\ height d' = height (dd D) /\ stage d' = stage (dd D))
    as (Ew & Eh & Es) by (unfold meta in Hread; by injection Hread).
  pose proof (header_ok_meta a _ _ Hread Hok) as Hok'.
  set (D1 := store (cur D) (overwrite bs (cr D)) (set_zlibR z' (set_dd d' D))).
  assert (dd D1 = d' /\ bytesPerPixel D1 = 4 /\ y D1 = y D /\ cur D1 = cur D
          /\ cr D1 = overwrite bs (cr D) /\ pr D1 = pr D
          /\ length (buf0 D1) = S (Z.to_nat (4 * width (dd D)))
          /\ length (buf1 D1) = S (Z.to_nat (4 * width (dd D))))
    as (Ed1 & Eb1 & Ey1 & Ec1 & Ecr1 & Epr1 & L01 & L11).
  { subst D1. unfold cr, pr in *.
    destruct D as [Dd Dz Dbpp Db0 Db1 [] Dy];
      cbn [store set_zlibR set_dd dd bytesPerPixel y cur buf0 buf1 load other] in *;
      rewrite ?length_overwrite; split_and!; done. }
  assert (SessInv a D1) as HI1.
  { unfold SessInv. rewrite Ed1, Eb1, Ey1, Ew, Eh, Es. done. }
  destruct e as [e|].
  { assert (forall e0, SessInv a (snd (@Err (list Z) e0, D1))
                       /\ width (dd (snd (@Err (list Z) e0, D1))) = width (dd D)
                       /\ height (dd (snd (@Err (list Z) e0, D1))) = height (dd D)
                       /\ y (snd (@Err (list Z) e0, D1)) = y D) as Herr.
    { intros e0. cbn [snd]. rewrite Ed1. done. }
    destruct e; cbn [fst]; apply Herr. }
  rewrite Ecr1, Epr1.
  destruct (overwrite bs (cr D)) as [|ft cdat] eqn:Eov.
  { pose proof (length_overwrite bs (cr D)) as L. rewrite Eov, Lcr in L. done. }
  assert (length cdat = Z.to_nat (4 * width (dd D))) as Lc.
  { pose proof (length_overwrite bs (cr D)) as L. rewrite Eov, Lcr in L. simpl in L. lia. }
  destruct (pr D) as [|p0 pdat] eqn:Epr; [done|].
  assert (length pdat = length cdat) as Lp by (simpl in Lpr; lia).
  rewrite Eb1.
  pose proof (unfilter_total ft cdat pdat Lp ltac:(lia)) as Hun.
  destruct (unfilter ft cdat pdat 4) as [out| |]; [|cbn [fst snd]; rewrite Ed1; done|done].
  destruct Hun as [Lout _].
  assert (to_int a (y D + 1) = y D + 1) as Ey.
  { apply to_int_small. lia. }
  cbn [fst snd].
  assert (forall D2, D2 = set_y (to_int a (y (store (cur D1) (ft :: out) D1) + 1))
                          (set_cur (other (cur (store (cur D1) (ft :: out) D1)))
                             (store (cur D1) (ft :: out) D1)) ->
          dd D2 = d' /\ bytesPerPixel D2 = 4 /\ y D2 = y D + 1
          /\ length (buf0 D2) = S (Z.to_nat (4 * width (dd D)))
          /\ length (buf1 D2) = S (Z.to_nat (4 * width (dd D)))) as HD2.
  { intros D2 ->. subst D1. unfold cr, pr in *.
    destruct D as [Dd Dz Dbpp Db0 Db1 [] Dy];
      cbn [store set_zlibR set_dd dd bytesPerPixel y cur buf0 buf1 load other set_y set_cur
           length] in *;
      rewrite ?length_overwrite; split_and!; try done; try lia. }
  destruct (HD2 _ eq_refl) as (E1 & E2 & E3 & E4 & E5).
  rewrite E1, E3. split_and!; try done; try lia.
  unfold SessInv. rewrite E1, E2, E3, E4, E5, Ew, Eh, Es. split_and!; try done; lia.
Qed.

(** What holds all along a session. *)
Lemma Reach_inv (input : list Z) (D : Decoder ZR) (rows : list (list Z)) :
  Reach a crc32_ieee input D rows ->
  SessInv a D
  /\ y D = Z.of_nat (length rows)
  /\ Forall (fun row => length row = Z.to_nat (4 * width (dd D))) rows.
Proof.
  induction 1 as [D HD|D D' row rows HR IH Hrow|D D' e rows HR IH Herr].
  - apply (NewDecoder_SessInv a crc32_ieee) in HD as (HI & Hy & _); [|done].
    split_and!; done.
  - destruct IH as (HI & Hy & Hrows).
    pose proof (DecodeRow_keeps D HI) as (HI' & Ew & Eh & Hres).
    rewrite Hrow in *. cbn [fst snd] in *. destruct Hres as (Lrow & Hy' & _).
    rewrite Ew. split_and!; try done.
    + rewrite Hy', Hy. cbn [length]. lia.
    + by constructor.
  - destruct IH as (HI & Hy & Hrows).
    pose proof (DecodeRow_keeps D HI) as (HI' & Ew & Eh & Hres).
    rewrite Herr in *. cbn [fst snd] in *.
    rewrite Ew. split_and!; try done. congruence.
Qed.

End Rows.

Lemma copy_at_in_range (dst src : list Z) (offset : Z) :
  0 <= offset <= len dst ->
  exists pix, copy_at dst offset src = Some pix /\ length pix = length dst.
Proof.
  intros Ho. unfold copy_at, len in *.
  destruct (Z.ltb_spec offset 0); [lia|].
  destruct (Z.ltb_spec (Z.of_nat (length dst)) offset); [lia|]. cbn [orb].
  eexists. split; [reflexivity|].
  rewrite length_app, length_overwrite, length_take, length_drop. lia.
Qed.

Section ReadPNGFacts.
Variable a : arch.
Variable crc32_ieee : list Z -> Z.
Context {ZR : Type} {zlib : ZlibReader ZR}.
Hypothesis zlib_reads : reads_only a crc32_ieee zlib.

Lemma Close_returns (D : Decoder ZR) : returned (fst (Close crc32_ieee D)).
Proof.
  unfold Close. destruct (stage (dd D) =? dsSeenIEND); [done|].
  destruct (zlib_Close (zlibR D)) as [[e|] z']; [done|]. cbv zeta.
  pose proof (returned_bind (verifyChecksum crc32_ieee) (fun _ => readIEND crc32_ieee)
                (dd (set_zlibR z' D)) (verifyChecksum_returns crc32_ieee _)
                (fun _ d' => readIEND_returns crc32_ieee d')) as H.
  destruct (bind _ _ _) as [[[]| | |] d']; done.
Qed.

(** The loop of [readPNG]: it never indexes out of range, and it keeps
    the image's shape. *)
Lemma readPNG_rows_inv (n : nat) :
  forall (yy : Z) (img : NRGBA) (D : Decoder ZR),
    let w := width (dd D) in
    let h := height (dd D) in
    SessInv a D -> y D = yy ->
    Stride img = 4 * w -> length (Pix img) = Z.to_nat (4 * w * h) ->
    yy + Z.of_nat n <= h ->
    match fst (readPNG_rows a n yy w h img D) with
    | Ok img' => Stride img' = Stride img /\ Rect img' = Rect img
                 /\ length (Pix img') = length (Pix img)
    | Err _ => True
    | Panic | OutOfFuel => False
    end.
Proof.
  induction n as [|n IH]; intros yy img D w h HI Hy Hs Lp Hn; [done|].
  cbn [readPNG_rows].
  pose proof (DecodeRow_keeps a crc32_ieee zlib_reads D HI) as (HI' & Ew & Eh & Hres).
  destruct (DecodeRow a D) as [[row|e| |] D'] eqn:ED; cbn [fst snd] in *; try done.
  destruct Hres as (Lrow & Hy' & Hlt).
  pose proof HI as ((Hw & Hh & Hfit & _) & _ & _ & _ & _ & Hy0).
  fold w in Hw, Hfit, Lrow, Ew. fold h in Hh, Hfit, Hlt, Eh, Hy0.
  pose proof (maxInt_ge a) as Hmi.
  rewrite (to_int_fits a (w * 4)) by nia.
  assert ((len row =? w * 4) = true) as -> by (apply Z.eqb_eq; unfold len; lia).
  cbn [negb].
  rewrite Hs, (to_int_fits a (yy * (4 * w))) by nia.
  destruct (copy_at_in_range (Pix img) row (yy * (4 * w))) as (pix & -> & Lpix).
  { unfold len. nia. }
  specialize (IH (yy + 1) (mkNRGBA pix (4 * w) (Rect img)) D').
  cbv zeta in IH. rewrite Ew, Eh in IH. fold w h in IH.
  cbn [Stride Rect Pix] in IH. rewrite Lpix in IH.
  apply IH; try done; lia.
Qed.

(** [readPNG] comes back whatever the input is, and an image it returns
    has the shape its header declares. *)
Lemma readPNG_shape (input : list Z) :
  match readPNG a crc32_ieee input with
  | Ok img =>
      exists w h, Rect img = (0, 0, w, h) /\ Stride img = 4 * w
                  /\ length (Pix img) = Z.to_nat (4 * w * h)
                  /\ 0 < w < 2 ^ 31 /\ 0 < h < 2 ^ 31 /\ w * h * 8 <= maxInt a
  | Err _ => True
  | Panic | OutOfFuel => False
  end.
Proof.
  unfold readPNG.
  pose proof (NewDecoder_returns_any a crc32_ieee input zlib_reads) as Hret.
  destruct (NewDecoder a crc32_ieee input) as [D| | |] eqn:EN; try done.
  apply (NewDecoder_SessInv a crc32_ieee) in EN as (HI & Hy & _); [|done].
  unfold Bounds.
  pose proof HI as ((Hw & Hh & Hfit & _) & _).
  set (w := width (dd D)) in *. set (h := height (dd D)) in *.
  pose proof (maxInt_ge a) as Hmi.
  rewrite (to_int_fits a (4 * w * h)), (to_int_fits a (4 * w)) by nia.
  pose proof (readPNG_rows_inv (Z.to_nat h) 0
                (mkNRGBA (repeat 0 (Z.to_nat (4 * w * h))) (4 * w) (0, 0, w, h)) D
                HI Hy eq_refl) as Hrows.
  cbn [Stride Rect Pix] in Hrows. rewrite repeat_length in Hrows.
  fold w h in Hrows. specialize (Hrows eq_refl ltac:(lia)).
  destruct (readPNG_rows a _ _ _ _ _ D) as [[img| | |] D1]; cbn [fst] in Hrows; try done.
  pose proof (Close_returns D1) as HC.
  destruct (Close crc32_ieee D1) as [[[]| | |] D2]; cbn [fst] in HC; try done.
  destruct Hrows as (Es & Er & Lp).
  exists w, h. split_and!; try done; lia.
Qed.

End ReadPNGFacts.

Section PullReads.
Variable a : arch.
Variable crc32_ieee : list Z -> Z.
Variable inflate : list Z -> list Z * zstatus.

Lemma zfill_reads (z : zstate) (d : decoder) :
  snd (zfill a crc32_ieee z d) = snd (Read a crc32_ieee defaultBufSize d).
Proof.
  unfold zfill. by destruct (Read a crc32_ieee defaultBufSize d) as [[[bs [e|]]| | |] d'].
Qed.

Lemma zneed_reads (fuel k : nat) :
  forall z d, reads a crc32_ieee d (snd (zneed a crc32_ieee fuel k z d)).
Proof.
  induction fuel as [|fuel IH]; intros z d; cbn [zneed].
  - destruct (decide _); [constructor|]. destruct (zerr z); constructor.
  - destruct (decide _); [constructor|]. destruct (zerr z); [constructor|].
    pose proof (zfill_reads z d) as Hz.
    destruct (zfill a crc32_ieee z d) as [z' d']. cbn [snd] in Hz. subst d'.
    eapply reads_trans; [|apply IH]. apply reads_more. constructor.
Qed.

Lemma pull_ReadFull_loop_reads (fuel n : nat) :
  forall z d, reads a crc32_ieee d (snd (pull_ReadFull_loop a crc32_ieee inflate fuel z n d)).
Proof.
  induction fuel as [|fuel IH]; intros z d; cbn [pull_ReadFull_loop].
  - destruct (inflate (zin z)) as [out st].
    destruct (decide _); [destruct (decide _)|];
      destruct (zerr z); try constructor; destruct st; constructor.
  - assert (reads a crc32_ieee d
              (snd (let '(z', d') := zfill a crc32_ieee z d in
                    pull_ReadFull_loop a crc32_ieee inflate fuel z' n d'))) as Hfill.
    { pose proof (zfill_reads z d) as Hz.
      destruct (zfill a crc32_ieee z d) as [z' d']. cbn [snd] in Hz. subst d'.
      eapply reads_trans; [|apply IH]. apply reads_more. constructor. }
    destruct (inflate (zin z)) as [out st].
    destruct (decide _); [destruct (decide _)|];
      destruct (zerr z); try constructor; destruct st; try constructor; exact Hfill.
Qed.

(** The pull-based reader reaches the decoder through [Read] only. *)
Lemma PullZlib_reads_only : reads_only a crc32_ieee (PullZlib a crc32_ieee inflate).
Proof.
  split.
  - intros d. cbn [zlib_NewReader PullZlib]. unfold pull_NewReader.
    pose proof (zneed_reads (S (length (r d))) 2 (mkZ [] 0 None) d) as H.
    destruct (zneed _ _ _ _ _ _) as [z d']. cbn [snd] in H.
    destruct (decide _); [|done].
    destruct (inflate (take 2 (zin z))) as [out [| | |msg]]; done.
  - intros z n d. cbn [zlib_ReadFull PullZlib]. unfold pull_ReadFull.
    apply pull_ReadFull_loop_reads.
Qed.

End PullReads.

Section NewDecoderFacts.
Variable a : arch.
Variable crc32_ieee : list Z -> Z.

(** A round of the chunk loop at a chunk that is neither IHDR nor IDAT:
    the payload is read and the checksum behind it is compared. *)
Lemma chunk_round_skip (d : decoder) (tag payload crcb rest : list Z) :
  r d = BigEndian_PutUint32 (len payload) ++ tag ++ payload ++ crcb ++ rest ->
  length tag = 4%nat -> tag <> tagIHDR -> tag <> tagIDAT ->
  len payload < 2 ^ 31 -> length crcb = 4%nat ->
  exists d',
    chunk_round a crc32_ieee d
    = (if BigEndian_Uint32 crcb =? to_uint32 (crc32_ieee (tag ++ payload))
       then Ok true else Err (FormatError "invalid checksum"), d')
    /\ r d' = rest /\ meta d' = meta d /\ idatLength d' = idatLength d.
Proof.
  intros Hr Lt Hn1 Hn2 Hlen Lc.
  assert (0 <= len payload) as Hpos by (unfold len; lia).
  unfold chunk_round.
  erewrite bind_ok.
  2:{ apply (ReadFull_tmp_app (BigEndian_PutUint32 (len payload) ++ tag)
               (payload ++ crcb ++ rest)).
      - by rewrite <- app_assoc.
      - rewrite length_app, Lt. reflexivity. }
  rewrite take_app_length', drop_app_length' by done.
  rewrite BigEndian_roundtrip.
  2:{ change (2 ^ 31) with 2147483648 in Hlen. change (2 ^ 32) with 4294967296. lia. }
  cbv zeta.
  erewrite bind_ok by reflexivity.
  erewrite bind_ok by reflexivity.
  apply bytes_eqb_neq in Hn1, Hn2. rewrite Hn1, Hn2.
  destruct (Z.gtb_spec (len payload) 2147483647) as [Hgt|_].
  { change (2 ^ 31) with 2147483648 in Hlen. lia. }
  erewrite bind_ok by reflexivity.
  match goal with |- context [bind (skip_loop a ?f _) _ ?d0] => set (ds := d0); set (fuel := f) end.
  erewrite bind_ok.
  2:{ apply (skip_loop_payload a fuel payload (crcb ++ rest) ds); [reflexivity|done|].
      subst fuel ds. cbn [r set_crc set_tmp set_r]. rewrite !length_app. lia. }
  match goal with |- context [bind (verifyChecksum _) _ ?d0] => set (dv := d0) end.
  unfold bind.
  rewrite (verifyChecksum_app crc32_ieee crcb rest dv) by done.
  unfold Sum32. subst dv ds. cbn [crc set_crc set_tmp set_r app].
  eexists. split.
  - destruct (BigEndian_Uint32 crcb =? _); reflexivity.
  - split_and!; reflexivity.
Qed.

Context {ZR : Type} {zlib : ZlibReader ZR}.

(** An error of the chunk loop is the error of [NewDecoder]. *)
Lemma NewDecoder_round_error (input : list Z) (d1 d d' : decoder) (e : error) :
  checkHeader (new_decoder input) = (Ok tt, d1) ->
  rounds a crc32_ieee d1 d ->
  chunk_round a crc32_ieee d = (Err e, d') ->
  NewDecoder a crc32_ieee (ZR := ZR) input = Err e.
Proof.
  intros Hh Hr E. unfold NewDecoder, eof_unexpected. rewrite Hh.
  destruct (chunk_loop_rounds a crc32_ieee d1 d Hr (S (length (r d1)))) as (f' & Hf' & ->); [lia|].
  destruct f' as [|f']; [lia|]. cbn [chunk_loop]. unfold bind. by rewrite E.
Qed.

(** X1: an input shorter than the eight-byte signature, the empty
    input included, makes [NewDecoder] return [io.ErrUnexpectedEOF]: the
    [io.EOF] of an empty input is converted. *)
Theorem NewDecoder_short_input (input : list Z) :
  (length input < 8)%nat ->
  NewDecoder a crc32_ieee (ZR := ZR) input = Err ErrUnexpectedEOF.
Proof.
  intros H. unfold NewDecoder, eof_unexpected, checkHeader, bind.
  rewrite ReadFull_tmp_short by exact H. cbn [r new_decoder].
  destruct input; reflexivity.
Qed.

(** X2: an input of at least eight bytes whose first eight are not the
    PNG signature makes [NewDecoder] return the format error "not a PNG
    file". *)
Theorem NewDecoder_not_png (input : list Z) :
  (8 <= length input)%nat ->
  take 8 input <> pngHeader ->
  NewDecoder a crc32_ieee (ZR := ZR) input = Err (FormatError "not a PNG file").
Proof.
  intros L H. unfold NewDecoder, eof_unexpected, checkHeader, bind.
  rewrite (ReadFull_tmp_app (take 8 input) (drop 8 input)).
  - apply bytes_eqb_neq in H. by rewrite H.
  - cbn. by rewrite take_drop.
  - change (length pngHeader) with 8%nat. rewrite length_take. lia.
Qed.

(** X3: when the input ends where the chunk loop of [NewDecoder] wants
    the next chunk header, before any IDAT chunk, [NewDecoder] returns the
    error of [io.ReadFull] as it is: [io.EOF] when no byte is left,
    [io.ErrUnexpectedEOF] when one to seven bytes are. *)
Theorem NewDecoder_input_ends (input : list Z) (d1 d : decoder) :
  checkHeader (new_decoder input) = (Ok tt, d1) ->
  rounds a crc32_ieee d1 d ->
  (length (r d) < 8)%nat ->
  NewDecoder a crc32_ieee (ZR := ZR) input
  = Err (match r d with [] => EOF | _ => ErrUnexpectedEOF end).
Proof.
  intros Hh Hr L.
  eapply (NewDecoder_round_error input d1 d); [done|done|].
  unfold chunk_round, bind. rewrite ReadFull_tmp_short by done. reflexivity.
Qed.

(** X4: a chunk that is neither IHDR nor IDAT and declares more than
    0x7fffffff bytes makes [NewDecoder] return the format error "Bad chunk
    length: " followed by the declared length in decimal; nothing of the
    chunk is read. *)
Theorem NewDecoder_bad_chunk_length (input : list Z) (d1 d : decoder)
        (lenb tag rest : list Z) :
  checkHeader (new_decoder input) = (Ok tt, d1) ->
  rounds a crc32_ieee d1 d ->
  r d = lenb ++ tag ++ rest -> length lenb = 4%nat -> length tag = 4%nat ->
  tag <> tagIHDR -> tag <> tagIDAT ->
  2147483647 < BigEndian_Uint32 lenb ->
  NewDecoder a crc32_ieee (ZR := ZR) input
  = Err (FormatError ("Bad chunk length: " ++ fmt_d (BigEndian_Uint32 lenb))).
Proof.
  intros Hh Hr Hd L1 L2 Hn1 Hn2 Hlen.
  eapply (NewDecoder_round_error input d1 d); [done|done|].
  unfold chunk_round.
  erewrite bind_ok.
  2:{ apply (ReadFull_tmp_app (lenb ++ tag) rest); [by rewrite <- app_assoc|].
      rewrite length_app. lia. }
  rewrite take_app_length', drop_app_length' by done. cbv zeta.
  erewrite bind_ok by reflexivity.
  erewrite bind_ok by reflexivity.
  apply bytes_eqb_neq in Hn1, Hn2. rewrite Hn1, Hn2.
  destruct (Z.gtb_spec (BigEndian_Uint32 lenb) 2147483647); [reflexivity|lia].
Qed.

(** X5: a chunk that is neither IHDR nor IDAT, of any length below 2^31
    and with the right checksum, is skipped: the round of the chunk loop
    at its header ends behind its checksum and asks for another round,
    with the header fields, the stage and the remaining IDAT length as
    they were. *)
Theorem chunk_round_skips_chunk (d : decoder) (tag payload rest : list Z) :
  r d = chunk crc32_ieee tag payload ++ rest ->
  length tag = 4%nat -> tag <> tagIHDR -> tag <> tagIDAT ->
  len payload < 2 ^ 31 ->
  exists d',
    chunk_round a crc32_ieee d = (Ok true, d')
    /\ r d' = rest /\ meta d' = meta d /\ idatLength d' = idatLength d.
Proof.
  intros Hr Lt Hn1 Hn2 Hlen. unfold chunk in Hr. rewrite <- !app_assoc in Hr.
  destruct (chunk_round_skip d tag payload _ rest Hr Lt Hn1 Hn2 Hlen eq_refl)
    as (d' & E & H).
  rewrite BigEndian_roundtrip, Z.eqb_refl in E by apply to_uint32_range.
  by exists d'.
Qed.

(** X6: a chunk that is neither IHDR nor IDAT and whose checksum field
    differs from the CRC-32 of its tag and payload makes [NewDecoder]
    return the format error "invalid checksum". *)
Theorem NewDecoder_chunk_checksum (input : list Z) (d1 d : decoder)
        (tag payload crcb rest : list Z) :
  checkHeader (new_decoder input) = (Ok tt, d1) ->
  rounds a crc32_ieee d1 d ->
  r d = BigEndian_PutUint32 (len payload) ++ tag ++ payload ++ crcb ++ rest ->
  length tag = 4%nat -> tag <> tagIHDR -> tag <> tagIDAT ->
  len payload < 2 ^ 31 -> length crcb = 4%nat ->
  BigEndian_Uint32 crcb <> to_uint32 (crc32_ieee (tag ++ payload)) ->
  NewDecoder a crc32_ieee (ZR := ZR) input = Err (FormatError "invalid checksum").
Proof.
  intros Hh Hr Hd Lt Hn1 Hn2 Hlen Lc Hc.
  destruct (chunk_round_skip d tag payload crcb rest Hd Lt Hn1 Hn2 Hlen Lc) as (d' & E & _).
  apply Z.eqb_neq in Hc. rewrite Hc in E.
  by eapply (NewDecoder_round_error input d1 d).
Qed.

(** X7: what a successful [NewDecoder] hands over, for every input: the
    bounds are [(0, 0, w, h)] with both dimensions positive and below
    2^31 and [w * h * 8] within the platform's [int]; depth 8, the RGBA
    profile, stage "IDAT seen"; four bytes per pixel, row counter 0, and
    two zeroed row buffers of [1 + 4 * w] bytes. *)
Theorem NewDecoder_ok (input : list Z) (D : Decoder ZR) :
  reads_only a crc32_ieee zlib ->
  NewDecoder a crc32_ieee input = Ok D ->
  exists w h,
    Bounds D = (0, 0, w, h)
    /\ 0 < w < 2 ^ 31 /\ 0 < h < 2 ^ 31 /\ w * h * 8 <= maxInt a
    /\ depth (dd D) = 8 /\ cb (dd D) = cbTCA8 /\ stage (dd D) = dsSeenIDAT
    /\ bytesPerPixel D = 4 /\ y D = 0
    /\ cr D = repeat 0 (Z.to_nat (1 + 4 * w))
    /\ pr D = repeat 0 (Z.to_nat (1 + 4 * w)).
Proof.
  intros Hz HD.
  apply (NewDecoder_SessInv a crc32_ieee) in HD as (HI & Hy & Hc & H0 & H1); [|done].
  destruct HI as ((Hw & Hh & Hfit & Hd & Hcb) & Hst & Hbpp & _).
  exists (width (dd D)), (height (dd D)).
  replace (Z.to_nat (1 + 4 * width (dd D))) with (S (Z.to_nat (4 * width (dd D)))) by lia.
  unfold cr, pr. rewrite Hc. cbn [load other]. split_and!; try done; lia.
Qed.

End NewDecoderFacts.

Section IHDRFacts.
Variable a : arch.
Variable crc32_ieee : list Z -> Z.

(** X8: [parseIHDR] never looks at the interlace byte: a header payload
    of the supported profile is accepted with any value there (1, Adam7,
    included), and width and height are recorded as declared. *)
Theorem parseIHDR_any_interlace (d : decoder) (w h il : Z) (rest : list Z) :
  0 < w < 2 ^ 31 -> 0 < h < 2 ^ 31 -> w * h * 8 <= maxInt a ->
  is_byte il ->
  let p := BigEndian_PutUint32 w ++ BigEndian_PutUint32 h ++ [8; ctTrueColorAlpha; 0; 0; il] in
  r d = p ++ BigEndian_PutUint32 (to_uint32 (crc32_ieee (crc d ++ p))) ++ rest ->
  exists d',
    parseIHDR a crc32_ieee 13 d = (Ok tt, d')
    /\ width d' = w /\ height d' = h /\ depth d' = 8 /\ cb d' = cbTCA8
    /\ r d' = rest.
Proof.
  intros Hw Hh Hfit Hil p Hr.
  assert (0 <= w < 2 ^ 32 /\ 0 <= h < 2 ^ 32) as [Hw32 Hh32].
  { change (2 ^ 31) with 2147483648 in *. change (2 ^ 32) with 4294967296. lia. }
  assert (Forall is_byte p) as Hb.
  { subst p. unfold BigEndian_PutUint32, ctTrueColorAlpha. cbn [app].
    repeat (constructor; [unfold is_byte in *; try apply Z.mod_pos_bound; lia|]).
    constructor. }
  pose proof (parseIHDR_payload a crc32_ieee d p _ Hr eq_refl Hb) as Hp.
  cbv zeta in Hp.
  assert (ihdr_checks a p = None) as Hchk.
  { unfold ihdr_checks.
    change (take 4 p) with (BigEndian_PutUint32 w).
    change (take 4 (drop 4 p)) with (BigEndian_PutUint32 h).
    rewrite !BigEndian_roundtrip by done.
    subst p. cbn [BigEndian_PutUint32 app nth].
    change (0 =? 0) with true. cbn [negb].
    destruct (Z.ltb_spec 0 w), (Z.ltb_spec w (2 ^ 31)), (Z.ltb_spec 0 h),
             (Z.ltb_spec h (2 ^ 31)); try lia.
    cbn [andb negb].
    destruct (Z.ltb_spec (maxInt a) (w * h * 8)); [lia|]. reflexivity. }
  rewrite Hchk in Hp. rewrite Hp.
  rewrite (verifyChecksum_app crc32_ieee _ rest) by reflexivity.
  unfold Sum32.
  cbn [crc set_height set_width set_cb set_depth set_crc set_tmp set_r].
  rewrite BigEndian_roundtrip by apply to_uint32_range.
  rewrite Z.eqb_refl.
  eexists. split; [reflexivity|].
  cbn [width height depth cb r set_height set_width set_cb set_depth set_crc set_tmp set_r].
  change (take 4 p) with (BigEndian_PutUint32 w).
  change (take 4 (drop 4 p)) with (BigEndian_PutUint32 h).
  rewrite !BigEndian_roundtrip by done. done.
Qed.

End IHDRFacts.

Section FilterFacts.
Variable a : arch.
Context {ZR : Type} {zlib : ZlibReader ZR}.

Lemma pr_after_row (D : Decoder ZR) (z' : ZR) (d' : decoder) (v1 v2 : list Z) (yy : Z) :
  pr (set_y yy (set_cur (other (cur D))
                  (store (cur D) v2 (store (cur D) v1 (set_zlibR z' (set_dd d' D))))))
  = v2.
Proof. unfold pr. destruct D as [Dd Dz Dbpp Db0 Db1 [] Dy]; reflexivity. Qed.

(** X9: for a row whose filter byte is 0 (None), [DecodeRow] returns
    the bytes behind the filter byte as they were read, and they become
    the previous row. *)
Theorem DecodeRow_none (D : Decoder ZR) (bs : list Z) (z' : ZR) (d' : decoder)
        (p0 : Z) (raw pdat : list Z) :
  y D < height (dd D) ->
  io_ReadFull_zlib (zlibR D) (length (cr D)) (dd D) = (bs, None, z', d') ->
  overwrite bs (cr D) = ftNone :: raw ->
  pr D = p0 :: pdat ->
  exists D', DecodeRow a D = (Ok raw, D') /\ pr D' = ftNone :: raw.
Proof.
  intros Hy Hread Hcr Hpr.
  rewrite (DecodeRow_read a D bs z' d' ftNone p0 raw pdat) by done. cbv zeta.
  unfold unfilter. change (ftNone =? ftNone) with true. cbv iota.
  eexists. split; [reflexivity|]. apply pr_after_row.
Qed.

(** X10: for a row whose filter byte is 1 (Sub), [DecodeRow] leaves
    the first pixel's four bytes as read and adds to every later byte,
    modulo 256, the reconstructed byte four places to its left. *)
Theorem DecodeRow_sub (D : Decoder ZR) (bs : list Z) (z' : ZR) (d' : decoder)
        (p0 : Z) (raw pdat : list Z) :
  y D < height (dd D) ->
  bytesPerPixel D = 4 ->
  io_ReadFull_zlib (zlibR D) (length (cr D)) (dd D) = (bs, None, z', d') ->
  overwrite bs (cr D) = ftSub :: raw ->
  pr D = p0 :: pdat ->
  (4 <= length raw)%nat ->
  exists out D',
    DecodeRow a D = (Ok out, D')
    /\ pr D' = ftSub :: out
    /\ length out = length raw
    /\ (forall i, (i < 4)%nat -> nth i out 0 = nth i raw 0)
    /\ (forall i, (4 <= i < length raw)%nat ->
          nth i out 0 = (nth i raw 0 + nth (i - 4) out 0) mod 256).
Proof.
  intros Hy Hbpp Hread Hcr Hpr H4.
  rewrite (DecodeRow_read a D bs z' d' ftSub p0 raw pdat) by done. cbv zeta.
  rewrite Hbpp. unfold unfilter. cbn [Z.eqb ftNone ftSub Pos.eqb].
  destruct (unfilterSub_pointwise 4 raw ltac:(lia)) as (out & E & L & H1 & H2).
  change (Z.of_nat 4) with 4 in E. rewrite E. cbn [of_option].
  eexists out, _. split; [reflexivity|]. split_and!; try done.
  apply pr_after_row.
Qed.

(** X11: for a row whose filter byte is 2 (Up), [DecodeRow] adds to
    every byte, modulo 256, the byte above it in the previous row. *)
Theorem DecodeRow_up (D : Decoder ZR) (bs : list Z) (z' : ZR) (d' : decoder)
        (p0 : Z) (raw pdat : list Z) :
  y D < height (dd D) ->
  io_ReadFull_zlib (zlibR D) (length (cr D)) (dd D) = (bs, None, z', d') ->
  overwrite bs (cr D) = ftUp :: raw ->
  pr D = p0 :: pdat ->
  length pdat = length raw ->
  exists out D',
    DecodeRow a D = (Ok out, D')
    /\ pr D' = ftUp :: out
    /\ length out = length raw
    /\ (forall i, (i < length raw)%nat ->
          nth i out 0 = (nth i raw 0 + nth i pdat 0) mod 256).
Proof.
  intros Hy Hread Hcr Hpr Hlen.
  rewrite (DecodeRow_read a D bs z' d' ftUp p0 raw pdat) by done. cbv zeta.
  unfold unfilter. cbn [Z.eqb ftNone ftSub ftUp Pos.eqb].
  destruct (unfilterUp_pointwise raw pdat Hlen) as (out & E & L & H1).
  rewrite E. cbn [of_option].
  eexists out, _. split; [reflexivity|]. split_and!; try done.
  apply pr_after_row.
Qed.

End FilterFacts.

Section SessionFacts.
Variable a : arch.
Variable crc32_ieee : list Z -> Z.
Context {ZR : Type} {zlib : ZlibReader ZR}.

(** X12: in a session the filter byte decides alone whether a row that
    was read in full is decoded: with a byte from 0 to 4 [DecodeRow]
    returns a row as long as the bytes read behind it; with any other
    byte it returns the format error "bad filter type" and neither counts
    the row nor exchanges the row buffers. *)
Theorem DecodeRow_filter_byte (input : list Z) (D : Decoder ZR) (rows : list (list Z))
        (bs : list Z) (z' : ZR) (d' : decoder) (ft : Z) (raw : list Z) :
  reads_only a crc32_ieee zlib ->
  Reach a crc32_ieee input D rows ->
  y D < height (dd D) ->
  io_ReadFull_zlib (zlibR D) (length (cr D)) (dd D) = (bs, None, z', d') ->
  overwrite bs (cr D) = ft :: raw ->
  (0 <= ft <= 4 ->
   exists out, fst (DecodeRow a D) = Ok out /\ length out = length raw
               /\ y (snd (DecodeRow a D)) = y D + 1
               /\ cur (snd (DecodeRow a D)) = other (cur D))
  /\ (ft < 0 \/ 4 < ft ->
      fst (DecodeRow a D) = Err (FormatError "bad filter type")
      /\ y (snd (DecodeRow a D)) = y D
      /\ cur (snd (DecodeRow a D)) = cur D
      /\ pr (snd (DecodeRow a D)) = pr D).
Proof.
  intros Hz HR Hy Hread Hcr.
  apply (Reach_inv a crc32_ieee Hz) in HR as (HI & _).
  destruct HI as (Hok & Hst & Hbpp & L0 & L1 & Hy0).
  assert (length (cr D) = S (Z.to_nat (4 * width (dd D)))
          /\ length (pr D) = S (Z.to_nat (4 * width (dd D)))) as [Lcr Lpr].
  { unfold cr, pr. destruct (cur D); done. }
  destruct (pr D) as [|p0 pdat] eqn:Epr; [done|].
  pose proof (length_overwrite bs (cr D)) as Lov. rewrite Hcr, Lcr in Lov.
  cbn [length] in Lov, Lpr.
  destruct Hok as (Hw & Hh & _).
  rewrite (DecodeRow_read a D bs z' d' ft p0 raw pdat) by done. cbv zeta.
  rewrite Hbpp.
  assert (length pdat = length raw) as Lp by lia.
  assert (4 <= length raw)%nat as L4 by lia.
  pose proof (unfilter_total ft raw pdat Lp L4) as Hun.
  pose proof (to_int_small a (y D + 1) ltac:(lia)) as Hy1.
  destruct (unfilter ft raw pdat 4) as [out| |]; [| |done].
  - destruct Hun as [Lout Hft]. cbn [fst snd]. split.
    + intros _. exists out. split_and!; try done; try rewrite <- Hy1;
        destruct D as [Dd Dz Dbpp Db0 Db1 [] Dy]; reflexivity.
    + lia.
  - cbn [fst snd]. split; [lia|]. intros _.
    rewrite <- Epr.
    pose proof (store_cur_frame D (ft :: raw) z' d') as (Hc & Hp & Hyy).
    split_and!; done.
Qed.

(** X13: all along a session the row counter is the number of rows
    returned so far, it never exceeds the height, and every row returned
    has [4 * width] bytes. *)
Theorem session_rows (input : list Z) (D : Decoder ZR) (rows : list (list Z)) :
  reads_only a crc32_ieee zlib ->
  Reach a crc32_ieee input D rows ->
  y D = Z.of_nat (length rows)
  /\ Z.of_nat (length rows) <= height (dd D)
  /\ Forall (fun row => len row = 4 * width (dd D)) rows.
Proof.
  intros Hz HR.
  apply (Reach_inv a crc32_ieee Hz) in HR as (HI & Hy & Hrows).
  destruct HI as ((Hw & _) & _ & _ & _ & _ & Hy0).
  split_and!; [done|lia|].
  eapply Forall_impl; [exact Hrows|]. intros row L. cbv beta in L. unfold len. lia.
Qed.

(** X14: in a session [DecodeRow] returns [io.EOF] exactly when as many
    rows as the height have been returned; it then leaves the decoder as
    it is, so every later call returns [io.EOF] again. *)
Theorem DecodeRow_EOF (input : list Z) (D : Decoder ZR) (rows : list (list Z)) :
  reads_only a crc32_ieee zlib ->
  Reach a crc32_ieee input D rows ->
  (fst (DecodeRow a D) = Err EOF <-> Z.of_nat (length rows) = height (dd D))
  /\ (fst (DecodeRow a D) = Err EOF -> snd (DecodeRow a D) = D).
Proof.
  intros Hz HR.
  apply (Reach_inv a crc32_ieee Hz) in HR as (HI & Hy & _).
  destruct HI as (_ & _ & _ & _ & _ & Hy0).
  unfold DecodeRow.
  destruct (Z.geb_spec (y D) (height (dd D))) as [Hge|Hlt].
  { cbn [fst snd]. split; [|done]. split; [lia|done]. }
  assert (Z.of_nat (length rows) <> height (dd D)) as Hne by lia.
  destruct (io_ReadFull_zlib _ _ _) as [[[bs e] z'] d'].
  destruct e as [[]|]; cbn [fst snd]; try (split; [split|]; done).
  destruct (cr _) as [|ft cdat]; [split; [split|]; done|].
  destruct (pr _) as [|p0 pdat]; [split; [split|]; done|].
  destruct (unfilter _ _ _ _); split; try split; done.
Qed.

(** X15: in a session [DecodeRow] never panics: the row buffers keep
    the length [1 + 4 * width] that [NewDecoder] gave them, so no filter
    indexes out of range. *)
Theorem DecodeRow_never_panics (input : list Z) (D : Decoder ZR) (rows : list (list Z)) :
  reads_only a crc32_ieee zlib ->
  Reach a crc32_ieee input D rows ->
  returned (fst (DecodeRow a D)).
Proof.
  intros Hz HR.
  apply (Reach_inv a crc32_ieee Hz) in HR as (HI & _).
  pose proof (DecodeRow_keeps a crc32_ieee Hz D HI) as (_ & _ & _ & H).
  by destruct (fst (DecodeRow a D)).
Qed.

Lemma Reach_bounds (input : list Z) (D0 D : Decoder ZR) (rows : list (list Z)) :
  reads_only a crc32_ieee zlib ->
  NewDecoder a crc32_ieee input = Ok D0 ->
  Reach a crc32_ieee input D rows ->
  Bounds D = Bounds D0.
Proof.
  intros Hz H0 HR.
  induction HR as [D HD|D D' row rows HR IH Hrow|D D' e rows HR IH Herr].
  - congruence.
  - rewrite <- IH.
    apply (Reach_inv a crc32_ieee Hz) in HR as (HI & _).
    pose proof (DecodeRow_keeps a crc32_ieee Hz D HI) as (_ & Ew & Eh & _).
    rewrite Hrow in *. cbn [snd] in *. unfold Bounds. by rewrite Ew, Eh.
  - rewrite <- IH.
    apply (Reach_inv a crc32_ieee Hz) in HR as (HI & _).
    pose proof (DecodeRow_keeps a crc32_ieee Hz D HI) as (_ & Ew & Eh & _).
    rewrite Herr in *. cbn [snd] in *. unfold Bounds. by rewrite Ew, Eh.
Qed.

(** X16: [Bounds] answers the same all along a session. *)
Theorem Bounds_stable (input : list Z) (D0 D : Decoder ZR) (rows : list (list Z)) :
  reads_only a crc32_ieee zlib ->
  NewDecoder a crc32_ieee input = Ok D0 ->
  Reach a crc32_ieee input D rows ->
  Bounds D = Bounds D0.
Proof. apply Reach_bounds. Qed.

Lemma keeps_meta_readIEND : keeps_meta (readIEND crc32_ieee).
Proof.
  unfold readIEND, crc_Reset, crc_Write.
  repeat first [ apply keeps_meta_verifyChecksum | keeps_meta_step ].
Qed.

(** X17: [Close] never records that the IEND chunk was read: after a
    successful [Close] the stage is still "IDAT seen", so a second [Close]
    runs its checks again on what follows the IEND chunk; when fewer than
    four bytes follow and the zlib reader closes without error, it
    returns the error of [io.ReadFull], [io.EOF] at the end of the
    input. *)
Theorem Close_twice (input : list Z) (D D' : Decoder ZR) (rows : list (list Z)) :
  reads_only a crc32_ieee zlib ->
  Reach a crc32_ieee input D rows ->
  Close crc32_ieee D = (Ok tt, D') ->
  stage (dd D') = dsSeenIDAT
  /\ (forall z'',
        zlib_Close (zlibR D') = (None, z'') ->
        (length (r (dd D')) < 4)%nat ->
        fst (Close crc32_ieee D')
        = Err (match r (dd D') with [] => EOF | _ => ErrUnexpectedEOF end)).
Proof.
  intros Hz HR HC.
  apply (Reach_inv a crc32_ieee Hz) in HR as ((_ & Hst & _) & _).
  assert (stage (dd D') = dsSeenIDAT) as Hst'.
  { unfold Close in HC. rewrite Hst in HC.
    change (dsSeenIDAT =? dsSeenIEND) with false in HC. cbv iota in HC.
    destruct (zlib_Close (zlibR D)) as [[e|] z']; [done|]. cbv zeta in HC.
    assert (keeps_meta (bind (verifyChecksum crc32_ieee) (fun _ => readIEND crc32_ieee)))
      as Hk.
    { apply keeps_meta_bind; [apply keeps_meta_verifyChecksum|].
      intros _. apply keeps_meta_readIEND. }
    specialize (Hk (dd (set_zlibR z' D))).
    destruct (bind _ _ _) as [[[]| | |] d1]; try done.
    injection HC as <-. cbn [snd dd set_dd set_zlibR] in *.
    unfold meta in Hk. injection Hk as _ _ _ _ ->. done. }
  split; [done|].
  intros z'' Hclose Hlen. unfold Close. rewrite Hst'.
  change (dsSeenIDAT =? dsSeenIEND) with false. cbv iota.
  rewrite Hclose. cbv zeta. unfold bind, verifyChecksum at 1, bind.
  rewrite ReadFull_tmp_short by (destruct D'; exact Hlen).
  destruct D'; reflexivity.
Qed.

(** X18: [NewDecoder] comes back on every input: its loops end and
    nothing indexes out of range. *)
Theorem NewDecoder_returns (input : list Z) :
  reads_only a crc32_ieee zlib ->
  returned (NewDecoder a crc32_ieee (ZR := ZR) input).
Proof. apply NewDecoder_returns_any. Qed.

(** X19: once [image.NewNRGBA] has returned the pixel buffer, the rest
    of [readPNG] comes back, with the image or with an error, whatever
    the input is: every call of [DecodeRow] returns, no row is copied
    outside the pixel buffer, and [Close] returns. *)
Theorem readPNG_rows_return (input : list Z) (D : Decoder ZR) (w h : Z) (pix : list Z) :
  reads_only a crc32_ieee zlib ->
  NewDecoder a crc32_ieee input = Ok D ->
  Bounds D = (0, 0, w, h) ->
  len pix = 4 * w * h ->
  returned (fst (readPNG_rows a (Z.to_nat h) 0 w h
                   (mkNRGBA pix (to_int a (4 * w)) (0, 0, w, h)) D))
  /\ returned (fst (Close crc32_ieee
                      (snd (readPNG_rows a (Z.to_nat h) 0 w h
                              (mkNRGBA pix (to_int a (4 * w)) (0, 0, w, h)) D)))).
Proof.
  intros Hz EN HB Lp. split; [|by apply Close_returns].
  apply (NewDecoder_SessInv a crc32_ieee) in EN as (HI & Hy & _); [|done].
  unfold Bounds in HB. injection HB as Ew Eh.
  pose proof HI as ((Hw & Hh & Hfit & _) & _).
  rewrite Ew in Hw, Hfit. rewrite Eh in Hh, Hfit.
  pose proof (maxInt_ge a) as Hmi.
  rewrite (to_int_fits a (4 * w)) by nia.
  pose proof (readPNG_rows_inv a crc32_ieee Hz (Z.to_nat h) 0
                (mkNRGBA pix (4 * w) (0, 0, w, h)) D HI Hy) as Hrows.
  cbv zeta in Hrows. rewrite Ew, Eh in Hrows. cbn [Stride Pix] in Hrows.
  specialize (Hrows eq_refl ltac:(unfold len in Lp; lia) ltac:(lia)).
  by destruct (readPNG_rows a _ _ _ _ _ D) as [[img| | |] D1].
Qed.

(** X20: an image [readPNG] returns has the shape its header declares:
    bounds [(0, 0, w, h)] with positive dimensions, stride [4 * w] and
    [4 * w * h] pixel bytes. *)
Theorem readPNG_ok_shape (input : list Z) (img : NRGBA) :
  reads_only a crc32_ieee zlib ->
  readPNG a crc32_ieee (ZR := ZR) input = Ok img ->
  exists w h,
    Rect img = (0, 0, w, h) /\ Stride img = 4 * w
    /\ len (Pix img) = 4 * w * h
    /\ 0 < w < 2 ^ 31 /\ 0 < h < 2 ^ 31 /\ w * h * 8 <= maxInt a.
Proof.
  intros Hz E. pose proof (readPNG_shape a crc32_ieee Hz input) as H.
  rewrite E in H. destruct H as (w & h & Hr & Hs & Lp & Hw & Hh & Hfit).
  exists w, h. split_and!; try done; try lia. unfold len. lia.
Qed.

End SessionFacts.

Section ReadFacts.
Variable a : arch.
Variable crc32_ieee : list Z -> Z.

(** X21: [Read] comes back in every state: the loop over exhausted
    segments ends; it hands out at most as many bytes as the buffer
    holds, it never puts bytes back into the input, and it leaves the
    header fields and the stage alone. *)
Theorem Read_returns (n : nat) (d : decoder) :
  exists bs e d',
    Read a crc32_ieee n d = (Ok (bs, e), d')
    /\ (length bs <= n)%nat
    /\ (length (r d') <= length (r d))%nat
    /\ meta d' = meta d.
Proof.
  destruct (Read_returns_value a crc32_ieee n d) as (bs & e & d' & E).
  exists bs, e, d'. split; [done|].
  pose proof (keeps_meta_Read a crc32_ieee n d) as Hm. rewrite E in Hm.
  split_and!; [| |exact Hm].
  - unfold Read in E. destruct (n =? 0)%nat; [injection E as <- _ _; simpl; lia|].
    destruct (Read_loop _ _ _) as [[[]| | |] d1]; try done.
    + destruct (to_int a (idatLength d1) <? 0); [injection E as <- _ _; simpl; lia|].
      unfold io_Read in E. destruct (r d1) as [|x s].
      * injection E as <- _ _. simpl. lia.
      * injection E as <- _ _. rewrite length_take. lia.
    + injection E as <- _ _. simpl. lia.
  - unfold Read in E. destruct (n =? 0)%nat; [by injection E as _ _ <-|].
    pose proof (no_grow_Read_loop crc32_ieee (S (length (r d))) d) as Hg.
    destruct (Read_loop _ _ _) as [[[]| | |] d1]; try done; cbn [snd] in Hg.
    + destruct (to_int a (idatLength d1) <? 0); [by injection E as _ _ <-|].
      unfold io_Read in E. destruct (r d1) as [|x s] eqn:Er.
      * injection E as _ _ <-. cbn. lia.
      * injection E as _ _ <-. cbn [r set_idatLength set_crc set_r].
        rewrite length_drop. cbn [length] in *. lia.
    + by injection E as _ _ <-.
Qed.

(** X22: [Read] presents the payloads of consecutive IDAT chunks as one
    stream: standing anywhere in a sequence of IDAT chunks with right
    checksums of which payload bytes remain, a [Read] with a buffer that
    is not empty returns, without error, at least one and at most
    [len(p)] of the next payload bytes, crossing chunk boundaries where
    it has to, and stands behind the bytes it returned. *)
Theorem Read_presents_stream (n : nat) (d : decoder) (done todo : list Z)
        (more : list (list Z)) (rest : list Z) :
  n <> 0%nat ->
  Adapter crc32_ieee d done todo more rest ->
  todo ++ concat more <> [] ->
  exists bs d' done' todo' more',
    Read a crc32_ieee n d = (Ok (bs, None), d')
    /\ bs <> [] /\ (length bs <= n)%nat
    /\ todo ++ concat more = bs ++ todo' ++ concat more'
    /\ Adapter crc32_ieee d' done' todo' more' rest.
Proof.
  intros Hn HA Hne.
  destruct (Read_stream a crc32_ieee n rest more Hn d done todo HA Hne)
    as (bs & d' & done' & todo' & more' & E & Hbs & Hcat & HA' & _).
  exists bs, d', done', todo', more'. split_and!; try done.
  unfold Read in E. destruct (n =? 0)%nat; [injection E as <- _; done|].
  destruct (Read_loop _ _ _) as [[[]| | |] d1]; try done.
  destruct (to_int a (idatLength d1) <? 0); [done|].
  unfold io_Read in E. destruct (r d1) as [|x s]; [done|].
  injection E as <- _. rewrite length_take. lia.
Qed.

End ReadFacts.

(** ** Which errors a call can return *)

Section FailsOnly.
Variable P : error -> Prop.
Hypothesis P_EOF : P EOF.
Hypothesis P_UEOF : P ErrUnexpectedEOF.
Hypothesis P_Format : forall msg, P (FormatError msg).

Lemma fails_only_bind {A B} (m : M A) (k : A -> M B) (d : decoder) :
  fails_only P (fst (m d)) -> (forall x d', fails_only P (fst (k x d'))) ->
  fails_only P (fst (bind m k d)).
Proof.
  intros Hm Hk. unfold bind. destruct (m d) as [[x| | |] d1]; done.
Qed.

Lemma fails_only_ReadFull_tmp (n : nat) (d : decoder) : fails_only P (fst (ReadFull_tmp n d)).
Proof.
  unfold ReadFull_tmp, io_ReadFull. destruct (decide _); [done|]. by destruct (r d).
Qed.

Lemma fails_only_ReadFull_ignored (n : nat) (d : decoder) :
  fails_only P (fst (ReadFull_ignored n d)).
Proof.
  unfold ReadFull_ignored, io_ReadFull. destruct (decide _); [done|]. by destruct (r d).
Qed.

Lemma fails_only_eof_unexpected {A} (m : M A) (d : decoder) :
  fails_only P (fst (m d)) -> fails_only P (fst (eof_unexpected m d)).
Proof. unfold eof_unexpected. by destruct (m d) as [[x|[]| |] d1]. Qed.

Lemma fails_only_verifyChecksum (crc32_ieee : list Z -> Z) (d : decoder) :
  fails_only P (fst (verifyChecksum crc32_ieee d)).
Proof.
  unfold verifyChecksum. apply fails_only_bind; [apply fails_only_ReadFull_tmp|].
  intros t d'. apply fails_only_bind; [exact I|]. intros s d''.
  destruct (negb _); [apply P_Format | exact I].
Qed.

Lemma fails_only_Read_loop (crc32_ieee : list Z -> Z) (fuel : nat) :
  forall d, fails_only P (fst (Read_loop crc32_ieee fuel d)).
Proof.
  induction fuel as [|fuel IH]; intros d; cbn [Read_loop].
  - by destruct (negb _).
  - destruct (negb _); [done|].
    apply fails_only_bind; [apply fails_only_verifyChecksum|]. intros _ d1.
    apply fails_only_bind; [apply fails_only_ReadFull_tmp|]. intros t d2.
    apply fails_only_bind; [exact I|]. intros _ d3.
    destruct (negb _); [apply P_Format|].
    apply fails_only_bind; [exact I|]. intros _ d4.
    apply fails_only_bind; [exact I|]. intros _ d5. apply IH.
Qed.

Lemma fails_only_skip_loop (a : arch) (fuel : nat) :
  forall n d, fails_only P (fst (skip_loop a fuel n d)).
Proof.
  induction fuel as [|fuel IH]; intros n d; cbn [skip_loop].
  - by destruct (negb _).
  - destruct (negb _); [done|].
    apply fails_only_bind; [apply fails_only_ReadFull_ignored|]. intros bs d1.
    apply fails_only_bind; [exact I|]. intros _ d2. apply IH.
Qed.

End FailsOnly.

Section ErrorFacts.
Variable a : arch.
Variable crc32_ieee : list Z -> Z.

Lemma fails_only_parseIHDR (n : Z) (d : decoder) :
  fails_only no_Errorf (fst (parseIHDR a crc32_ieee n d)).
Proof.
  unfold parseIHDR, crc_Write. destruct (negb _); [done|].
  apply fails_only_bind; [by apply fails_only_ReadFull_tmp|]. intros t d1.
  apply fails_only_bind; [exact I|]. intros _ d2. cbv zeta.
  destruct (negb _); [done|]. destruct (negb _); [done|]. destruct (_ || _); [done|].
  destruct (negb _); [done|]. destruct (negb _); [done|].
  apply fails_only_bind; [exact I|]. intros _ d3.
  apply fails_only_bind; [exact I|]. intros _ d4.
  apply fails_only_bind; [by destruct (_ && _)|]. intros _ d5.
  apply fails_only_bind; [exact I|]. intros c d6.
  destruct (c =? cbInvalid); [done|].
  apply fails_only_bind; [exact I|]. intros _ d7.
  by apply fails_only_verifyChecksum.
Qed.

(** The profile check behind [parseIHDR] in the chunk loop never fires:
    no round fails with an error of [fmt.Errorf]. *)
Lemma chunk_round_no_Errorf (d : decoder) :
  fails_only no_Errorf (fst (chunk_round a crc32_ieee d)).
Proof.
  unfold chunk_round, crc_Reset, crc_Write.
  apply fails_only_bind; [by apply fails_only_ReadFull_tmp|]. intros t d1. cbv zeta.
  apply fails_only_bind; [exact I|]. intros _ d2.
  apply fails_only_bind; [exact I|]. intros _ d3.
  destruct (bytes_eqb (drop 4 t) tagIHDR).
  { apply fails_only_bind; [exact I|]. intros st d4.
    destruct (negb _); [done|].
    apply fails_only_bind; [exact I|]. intros _ d5.
    unfold bind at 1.
    assert (fails_only no_Errorf
              (fst (eof_unexpected (parseIHDR a crc32_ieee (BigEndian_Uint32 (take 4 t))) d5)))
      as He by (apply fails_only_eof_unexpected; try exact I; apply fails_only_parseIHDR).
    unfold eof_unexpected in *.
    destruct (parseIHDR a crc32_ieee _ d5) as [[[]|e| |] d6] eqn:HP; try done.
    2:{ by destruct e. }
    apply parseIHDR_ok_inv in HP as ((_ & _ & _ & _ & Hcb) & _).
    unfold bind, get. rewrite Hcb. reflexivity. }
  destruct (bytes_eqb (drop 4 t) tagIDAT).
  { apply fails_only_bind; [exact I|]. intros st d4.
    destruct (_ || _); [done|].
    apply fails_only_bind; [exact I|]. intros _ d5.
    apply fails_only_bind; [exact I|]. intros _ d6. exact I. }
  destruct (_ >? _); [done|].
  apply fails_only_bind; [exact I|]. intros n d4.
  apply fails_only_bind; [by apply fails_only_skip_loop|]. intros _ d5.
  apply fails_only_bind; [by apply fails_only_verifyChecksum|]. intros _ d6. exact I.
Qed.

Lemma chunk_loop_no_Errorf (fuel : nat) :
  forall d, fails_only no_Errorf (fst (chunk_loop a crc32_ieee fuel d)).
Proof.
  induction fuel as [|fuel IH]; intros d; cbn [chunk_loop]; [done|].
  apply fails_only_bind; [apply chunk_round_no_Errorf|]. intros [] d1; [apply IH | exact I].
Qed.

Context {ZR : Type} {zlib : ZlibReader ZR}.

(** X23: the error "color type and bit depth not cbTCA8" that
    [NewDecoder] makes with [fmt.Errorf] behind [parseIHDR] is never
    returned: [parseIHDR] has already rejected every other profile.  With
    a zlib reader whose [NewReader] makes no such error either,
    [NewDecoder] returns no error of [fmt.Errorf] at all. *)
Theorem NewDecoder_never_Errorf (input : list Z) :
  (forall d, not_Errorf (fst (zlib_NewReader d))) ->
  not_Errorf (NewDecoder a crc32_ieee (ZR := ZR) input).
Proof.
  intros Hz. unfold NewDecoder.
  assert (fails_only no_Errorf (fst (eof_unexpected checkHeader (new_decoder input)))) as Hh.
  { apply fails_only_eof_unexpected; try exact I.
    unfold checkHeader. apply fails_only_bind; [by apply fails_only_ReadFull_tmp|].
    intros t d'. by destruct (negb _). }
  destruct (eof_unexpected checkHeader _) as [[[]|e| |] d1]; try done; try (by destruct e).
  pose proof (chunk_loop_no_Errorf (S (length (r d1))) d1) as Hl.
  destruct (chunk_loop _ _ _ _) as [[[]|e| |] d2]; try done; try (by destruct e).
  specialize (Hz d2).
  destruct (zlib_NewReader d2) as [[z|e| |] d3]; try done.
  cbv zeta. by destruct (negb _).
Qed.

End ErrorFacts.

Section PullErrors.
Variable a : arch.
Variable crc32_ieee : list Z -> Z.
Variable inflate : list Z -> list Z * zstatus.

Lemma Read_error_no_Errorf (n : nat) (d : decoder) (bs : list Z) (e : error) (d' : decoder) :
  Read a crc32_ieee n d = (Ok (bs, Some e), d') -> no_Errorf e.
Proof.
  unfold Read. destruct (n =? 0)%nat; [done|].
  assert (fails_only no_Errorf (fst (Read_loop crc32_ieee (S (length (r d))) d))) as H
      by (by apply fails_only_Read_loop).
  destruct (Read_loop _ _ _) as [[[]|e0| |] d1]; try done.
  - destruct (_ <? _); [by intros [= _ <- _]|].
    unfold io_Read. destruct (r d1); [by intros [= _ <- _]|done].
  - by intros [= _ <- _].
Qed.

Lemma zneed_no_Errorf (fuel k : nat) :
  forall z d,
    match zerr z with Some e => no_Errorf e | None => True end ->
    match zerr (fst (zneed a crc32_ieee fuel k z d)) with
    | Some e => no_Errorf e
    | None => True
    end.
Proof.
  induction fuel as [|fuel IH]; intros z d Hz; cbn [zneed].
  - destruct (decide _); [done|]. destruct (zerr z) eqn:Ez; cbn [fst zerr]; [by rewrite Ez|done].
  - destruct (decide _); [done|]. destruct (zerr z) eqn:Ez; [cbn [fst]; by rewrite Ez|].
    destruct (zfill a crc32_ieee z d) as [z' d'] eqn:Ef. apply IH.
    unfold zfill in Ef.
    destruct (Read a crc32_ieee defaultBufSize d) as [[[bs [e|]]| | |] d1] eqn:ER;
      injection Ef as <- _; cbn [zerr]; try done.
    + apply Read_error_no_Errorf in ER. by destruct e.
    + by rewrite Ez.
Qed.

Lemma PullZlib_NewReader_no_Errorf (d : decoder) :
  not_Errorf (fst (zlib_NewReader (ZlibReader := PullZlib a crc32_ieee inflate) d)).
Proof.
  cbn [zlib_NewReader PullZlib]. unfold pull_NewReader.
  pose proof (zneed_no_Errorf (S (length (r d))) 2 (mkZ [] 0 None) d I) as H.
  destruct (zneed _ _ _ _ _ _) as [z d']. cbn [fst] in H.
  destruct (decide _).
  - by destruct (inflate (take 2 (zin z))) as [out [| | |msg]].
  - cbn. destruct (zerr z) as [[]|]; done.
Qed.

End PullErrors.

Lemma checkHeader_ok_stage (input : list Z) (d1 : decoder) :
  checkHeader (new_decoder input) = (Ok tt, d1) -> stage d1 = dsStart.
Proof.
  unfold checkHeader, bind, ReadFull_tmp.
  destruct (io_ReadFull _ _) as [[bs [e|]] s']; [done|].
  destruct (negb _); [done|]. by intros [= <-].
Qed.

Lemma to_int_uint32_pos (a : arch) (v : Z) :
  0 < v < 2 ^ 32 -> 0 <= to_int a v -> 0 < to_int a v.
Proof.
  intros Hv. unfold to_int, wrap_signed. change (2 ^ 32) with 4294967296 in Hv.
  destruct a; cbn [intSize].
  - change (2 ^ (32 - 1)) with 2147483648. change (2 ^ 32) with 4294967296.
    intros H. Z.div_mod_to_equations. lia.
  - change (2 ^ (64 - 1)) with 9223372036854775808. change (2 ^ 64) with 18446744073709551616.
    intros H. Z.div_mod_to_equations. lia.
Qed.

Lemma to_int64_uint32 (v : Z) : 0 <= v < 2 ^ 32 -> to_int Arch64 v = v.
Proof.
  intros Hv. apply wrap_signed_small; [done|]. cbn [intSize].
  change (2 ^ 32) with 4294967296 in Hv.
  change (2 ^ (64 - 1)) with 9223372036854775808. lia.
Qed.

Lemma length_concat_rows (k : nat) (rows : list (list Z)) :
  Forall (fun row => length row = k) rows ->
  length (concat rows) = (length rows * k)%nat.
Proof.
  induction 1 as [|row rows Hrow _ IH]; [done|].
  cbn [concat length]. rewrite length_app, IH, Hrow. lia.
Qed.

Section More.
Variable a : arch.
Variable crc32_ieee : list Z -> Z.

(** X24: the chunk loop of [NewDecoder] begins every round in stage
    Start or in stage "IHDR seen", and in the latter the header has been
    parsed: in the IDAT case the test [d.stage > dsSeenIDAT] is never
    true, and no round begins after an IDAT chunk. *)
Theorem chunk_loop_stage (input : list Z) (d1 d : decoder) :
  checkHeader (new_decoder input) = (Ok tt, d1) ->
  rounds a crc32_ieee d1 d ->
  stage d = dsStart \/ (stage d = dsSeenIHDR /\ header_ok a d).
Proof.
  intros Hh Hr. induction Hr as [d|d0 d d' Hr IH Hround].
  - left. by apply (checkHeader_ok_stage input).
  - specialize (IH Hh). apply chunk_round_inv in Hround.
    destruct Hround as [Hm|(_ & Hs & Hok)]; [|by right].
    destruct IH as [Hs|[Hs Hok]].
    + left. unfold meta in Hm. injection Hm as _ _ _ _ ->. done.
    + right. split; [|by apply (header_ok_meta a d)].
      unfold meta in Hm. injection Hm as _ _ _ _ ->. done.
Qed.

Lemma Read_loop_keeps_well_typed (fuel : nat) :
  forall d, well_typed d -> well_typed (snd (Read_loop crc32_ieee fuel d)).
Proof.
  induction fuel as [|fuel IH]; intros d Hwt.
  { cbn [Read_loop]. by destruct (negb _). }
  destruct (Z.eq_dec (idatLength d) 0) as [E0|E0].
  2:{ rewrite Read_loop_pending by done. done. }
  rewrite Read_loop_S by done.
  destruct Hwt as [Hi Hb].
  assert (well_typed (snd (verifyChecksum crc32_ieee d))) as Hwt1.
  { unfold verifyChecksum, bind, ReadFull_tmp, io_ReadFull.
    destruct (decide _).
    - unfold get. destruct (negb _); (split; [done|]); cbn [snd r set_tmp set_r];
        by apply Forall_drop.
    - split; [done|]. constructor. }
  destruct (verifyChecksum crc32_ieee d) as [[[]|e1| |] d1]; try done.
  cbn [snd] in Hwt1. destruct Hwt1 as [Hi1 Hb1].
  destruct (ReadFull_tmp 8 d1) as [[t|e1| |] d2] eqn:R8;
    unfold ReadFull_tmp, io_ReadFull in R8; destruct (decide _) as [L|L]; try done.
  2:{ injection R8 as _ <-. split; [done|]. constructor. }
  injection R8 as <- <-. cbv zeta.
  assert (0 <= BigEndian_Uint32 (take 4 (take 8 (r d1))) < 2 ^ 32) as Hrange
      by (apply BigEndian_Uint32_range; by apply Forall_take, Forall_take).
  assert (Forall is_byte (drop 8 (r d1))) as Hb2 by (by apply Forall_drop).
  destruct (bytes_eqb _ tagIDAT).
  - apply IH. split; done.
  - split; done.
Qed.

Lemma Read_loop_well_typed (fuel : nat) (d d' : decoder) :
  well_typed d ->
  Read_loop crc32_ieee fuel d = (Ok tt, d') ->
  well_typed d' /\ idatLength d' <> 0.
Proof.
  intros Hwt H. split.
  { pose proof (Read_loop_keeps_well_typed fuel d Hwt) as Hk. by rewrite H in Hk. }
  revert d Hwt H. induction fuel as [|fuel IH]; intros d Hwt H.
  - cbn [Read_loop] in H. destruct (Z.eqb_spec (idatLength d) 0); [done|].
    by injection H as <-.
  - destruct (Z.eq_dec (idatLength d) 0) as [E0|E0].
    2:{ rewrite Read_loop_pending in H by done. by injection H as <-. }
    pose proof (Read_loop_keeps_well_typed 1 d Hwt) as Hk.
    rewrite Read_loop_S in H, Hk by done.
    destruct (verifyChecksum crc32_ieee d) as [[[]| | |] d1]; try done.
    destruct (ReadFull_tmp 8 d1) as [[t| | |] d2]; try done.
    cbv zeta in H, Hk. destruct (bytes_eqb (drop 4 t) tagIDAT); [|done].
    apply IH in H; [done|].
    cbn [Read_loop] in Hk.
    destruct (negb _) in Hk; [exact Hk|].
    destruct Hk as [Hi Hb]. split; done.
Qed.

(** X25: with a buffer that is not empty, [Read] never returns
    [(0, nil)]: it hands out at least one byte or it returns an error;
    and it leaves the remaining length a [uint32] and the input a stream
    of bytes. *)
Theorem Read_progress (n : nat) (d : decoder) :
  n <> 0%nat ->
  well_typed d ->
  exists bs e d',
    Read a crc32_ieee n d = (Ok (bs, e), d')
    /\ (bs = [] -> exists err, e = Some err)
    /\ well_typed d'.
Proof.
  intros Hn Hwt. rewrite Read_nonempty by done.
  pose proof (no_grow_Read_loop crc32_ieee (S (length (r d))) d) as Hg.
  pose proof (Read_loop_returns crc32_ieee (S (length (r d))) d ltac:(lia)) as Hret.
  destruct (Read_loop _ _ _) as [[[]|e0| |] d1] eqn:EL; try done.
  2:{ eexists _, _, _. split; [reflexivity|]. split; [by eexists|].
      pose proof (Read_loop_keeps_well_typed (S (length (r d))) d Hwt) as Hk.
      by rewrite EL in Hk. }
  apply Read_loop_well_typed in EL as [[Hi Hb] Hne]; [|done].
  destruct (Z.ltb_spec (to_int a (idatLength d1)) 0) as [|Hpos].
  { eexists _, _, _. split; [reflexivity|]. split; [by eexists|]. split; done. }
  pose proof (to_int_uint32_pos a (idatLength d1) ltac:(lia) Hpos) as Hk.
  unfold io_Read. destruct (r d1) as [|x s] eqn:Er.
  { eexists _, _, _. split; [reflexivity|]. split; [by eexists|].
    split; cbn [idatLength r set_idatLength set_crc set_r]; [apply to_uint32_range|constructor]. }
  eexists _, _, _. split; [reflexivity|]. split.
  - intros E. exfalso. revert E.
    replace (Z.to_nat (Z.min (Z.of_nat n) (to_int a (idatLength d1))))
      with (S (Z.to_nat (Z.min (Z.of_nat n) (to_int a (idatLength d1)) - 1))) by lia.
    done.
  - split; cbn [idatLength r set_idatLength set_crc set_r]; [apply to_uint32_range|].
    by apply Forall_drop.
Qed.

End More.

Section Read64.
Variable crc32_ieee : list Z -> Z.

(** X26: where [int] has 64 bits, [Read] never returns the error
    "IDAT chunk length overflow": a [uint32] length is never negative as
    an [int]. *)
Theorem Read_no_overflow_64 (n : nat) (d : decoder) :
  well_typed d ->
  exists bs e d',
    Read Arch64 crc32_ieee n d = (Ok (bs, e), d')
    /\ match e with Some err => io_or_format err | None => True end.
Proof.
  intros Hwt. unfold Read. destruct (n =? 0)%nat; [by eexists _, _, _|].
  assert (fails_only io_or_format (fst (Read_loop crc32_ieee (S (length (r d))) d))) as Hf
      by (by apply fails_only_Read_loop).
  pose proof (Read_loop_returns crc32_ieee (S (length (r d))) d ltac:(lia)) as Hret.
  destruct (Read_loop _ _ _) as [[[]|e0| |] d1] eqn:EL; try done.
  2:{ by eexists _, _, _. }
  apply Read_loop_well_typed in EL as [[Hi Hb] Hne]; [|done].
  rewrite to_int64_uint32 by done.
  destruct (Z.ltb_spec (idatLength d1) 0); [lia|].
  unfold io_Read. destruct (r d1); by eexists _, _, _.
Qed.

End Read64.

Section ReadPNGRows.
Variable a : arch.
Variable crc32_ieee : list Z -> Z.
Context {ZR : Type} {zlib : ZlibReader ZR}.
Hypothesis zlib_reads : reads_only a crc32_ieee zlib.

Lemma readPNG_rows_session (input : list Z) (n : nat) :
  forall (rows : list (list Z)) (img : NRGBA) (D : Decoder ZR) (yy : Z),
    let w := width (dd D) in
    let h := height (dd D) in
    Reach a crc32_ieee input D rows ->
    y D = yy ->
    Stride img = 4 * w ->
    Pix img = concat (rev rows) ++ repeat 0 (n * Z.to_nat (4 * w)) ->
    Z.of_nat (length rows) + Z.of_nat n = h ->
    forall img' D',
      readPNG_rows a n yy w h img D = (Ok img', D') ->
      exists rows',
        Reach a crc32_ieee input D' rows'
        /\ Pix img' = concat (rev rows')
        /\ Z.of_nat (length rows') = height (dd D')
        /\ Rect img' = Rect img.
Proof.
  induction n as [|n IH]; intros rows img D yy w h HR <- Hs Hp Hn img' D' E.
  { cbn [readPNG_rows] in E. injection E as <- <-. exists rows.
    split_and!; try done; [|lia]. rewrite Hp. cbn. apply app_nil_r. }
  cbn [readPNG_rows] in E.
  destruct (DecodeRow a D) as [[row|e| |] D1] eqn:ED; try done.
  pose proof (Reach_row a crc32_ieee input D D1 row rows HR ED) as HR1.
  pose proof (Reach_inv a crc32_ieee zlib_reads input D rows HR) as (HI & Hy & Hrows).
  pose proof (DecodeRow_keeps a crc32_ieee zlib_reads D HI) as (_ & Ew & Eh & Hres).
  rewrite ED in Ew, Eh, Hres. cbn [fst snd] in Ew, Eh, Hres.
  destruct Hres as (Lrow & Hy1 & Hlt).
  pose proof HI as ((Hw & Hh & Hfit & _) & _).
  fold w in Hw, Hfit, Lrow, Ew, Hrows. fold h in Hh, Hfit, Hlt, Eh.
  pose proof (maxInt_ge a) as Hmi.
  rewrite (to_int_fits a (w * 4)) in E by nia.
  assert ((len row =? w * 4) = true) as Hlen by (apply Z.eqb_eq; unfold len; lia).
  rewrite Hlen in E. cbn [negb] in E.
  rewrite Hs, (to_int_fits a (y D * (4 * w))) in E by nia.
  rewrite Hp in E.
  replace (repeat 0 (S n * Z.to_nat (4 * w)))
    with (repeat 0 (length row) ++ repeat 0 (n * Z.to_nat (4 * w))) in E
    by (rewrite <- repeat_app; f_equal; lia).
  rewrite copy_at_next in E.
  2:{ rewrite (length_concat_rows (Z.to_nat (4 * w))).
      - rewrite length_rev. nia.
      - by apply Forall_rev. }
  specialize (IH (row :: rows)
                (mkNRGBA ((concat (rev rows) ++ row) ++ repeat 0 (n * Z.to_nat (4 * w)))
                   (4 * w) (Rect img)) D1 (y D + 1)).
  cbv zeta in IH. rewrite Ew, Eh in IH. fold w h in IH.
  destruct (IH HR1 Hy1 eq_refl) with (img' := img') (D' := D') as (rows' & H1 & H2 & H3 & H4).
  - cbn [Pix rev]. rewrite concat_app. cbn [concat]. by rewrite app_nil_r.
  - cbn [length]. lia.
  - exact E.
  - exists rows'. split_and!; done.
Qed.

(** X27: the image [readPNG] returns holds the rows that [DecodeRow]
    returned in its session, in their order and nothing else: its pixel
    bytes are the concatenation of as many rows as the height. *)
Theorem readPNG_rows_of_session (input : list Z) (img : NRGBA) :
  readPNG a crc32_ieee input = Ok img ->
  exists (D : Decoder ZR) (rows : list (list Z)),
    Reach a crc32_ieee input D rows
    /\ Z.of_nat (length rows) = height (dd D)
    /\ Pix img = concat (rev rows)
    /\ Rect img = Bounds D.
Proof.
  unfold readPNG.
  destruct (NewDecoder a crc32_ieee input) as [D0| | |] eqn:EN; try done.
  pose proof (Reach_new a crc32_ieee input D0 EN) as HR0.
  pose proof EN as EN0.
  apply (NewDecoder_SessInv a crc32_ieee) in EN as (HI & Hy & _); [|done].
  unfold Bounds.
  pose proof HI as ((Hw & Hh & Hfit & _) & _).
  set (w := width (dd D0)) in *. set (h := height (dd D0)) in *.
  pose proof (maxInt_ge a) as Hmi.
  rewrite (to_int_fits a (4 * w * h)), (to_int_fits a (4 * w)) by nia.
  destruct (readPNG_rows a _ _ _ _ _ D0) as [[img1| | |] D1] eqn:ER; try done.
  destruct (Close crc32_ieee D1) as [[[]| | |] D2]; try done.
  intros [= <-].
  destruct (readPNG_rows_session input (Z.to_nat h) []
              (mkNRGBA (repeat 0 (Z.to_nat (4 * w * h))) (4 * w) (0, 0, w, h)) D0 0
              HR0 Hy eq_refl)
    with (img' := img1) (D' := D1) as (rows' & H1 & H2 & H3 & H4).
  - cbn [Pix rev concat app]. fold w. f_equal. nia.
  - cbn [length]. fold h. lia.
  - exact ER.
  - exists D1, rows'. split_and!; try done. rewrite H4. cbn [Rect].
    assert (Bounds D1 = Bounds D0) as HB
        by exact (Reach_bounds a crc32_ieee input D0 D1 rows' zlib_reads EN0 H1).
    unfold Bounds in HB. by injection HB as -> ->.
Qed.

End ReadPNGRows.

(** * The properties at sample inputs *)

Ltac bytes_ok := repeat (constructor; [unfold is_byte; lia|]); constructor.

(** The Average theorem at the second row of [sample_png]. *)
Lemma DecodeRow_average_witness :
  exists out D',
    DecodeRow Arch64 (zlib := sample_zlib) (session sample_png 1) = (Ok out, D')
    /\ pr D' = ftAverage :: out
    /\ length out = length [200; 0; 0; 0; 0; 0; 0; 0]
    /\ (forall i, (i < 4)%nat ->
          nth i out 0
          = (nth i [200; 0; 0; 0; 0; 0; 0; 0] 0 + nth i [0; 0; 0; 0; 100; 0; 0; 0] 0 / 2) mod 256)
    /\ (forall i, (4 <= i < length [200; 0; 0; 0; 0; 0; 0; 0])%nat ->
          nth i out 0
          = (nth i [200; 0; 0; 0; 0; 0; 0; 0] 0
             + (nth (i - 4) out 0 + nth i [0; 0; 0; 0; 100; 0; 0; 0] 0) / 2) mod 256).
Proof.
  eapply (DecodeRow_average Arch64 (zlib := sample_zlib) (session sample_png 1)
            _ _ _ 0 [200; 0; 0; 0; 0; 0; 0; 0] [0; 0; 0; 0; 100; 0; 0; 0]).
  - vm_compute. reflexivity.
  - reflexivity.
  - vm_compute. reflexivity.
  - vm_compute. reflexivity.
  - vm_compute. reflexivity.
  - reflexivity.
  - simpl. lia.
  - bytes_ok.
Defined.

(** C1 as stated fails: the second row of [sample_png] has filter byte 3,
    [raw[4] = 0], [out[0] = 200] and the byte above index 4 is 100.  The
    code yields [out[4] = (200 + 100) / 2 = 150]; with the sum wrapped at
    8 bits the value would be [((200 + 100) mod 256) / 2 = 22]. *)
Lemma average_sum_does_not_wrap :
  fst (sample_DecodeRow (session sample_png 1)) = Ok [200; 0; 0; 0; 150; 0; 0; 0]
  /\ take 9 (drop 9 sample_scanlines) = [ftAverage; 200; 0; 0; 0; 0; 0; 0; 0]
  /\ tail (pr (session sample_png 1)) = [0; 0; 0; 0; 100; 0; 0; 0]
  /\ average_wrapped 0 200 100 = 22
  /\ readPNG Arch64 crc32 (zlib := sample_zlib) sample_png
     = Ok (mkNRGBA [0; 0; 0; 0; 100; 0; 0; 0;
                    200; 0; 0; 0; 150; 0; 0; 0;
                    201; 2; 3; 4; 155; 8; 10; 12] 8 (0, 0, 2, 3)).
Proof. split_and!; vm_compute; reflexivity. Qed.

(** The Paeth theorem at the third row of [sample_png]. *)
Lemma DecodeRow_paeth_witness :
  exists out D',
    DecodeRow Arch64 (zlib := sample_zlib) (session sample_png 2) = (Ok out, D')
    /\ pr D' = ftPaeth :: out
    /\ length out = length [1; 2; 3; 4; 5; 6; 7; 8]
    /\ (forall i, (i < length [1; 2; 3; 4; 5; 6; 7; 8])%nat ->
          let a := if decide (i < 4)%nat then 0 else nth (i - 4) out 0 in
          let b := nth i [200; 0; 0; 0; 150; 0; 0; 0] 0 in
          let c := if decide (i < 4)%nat then 0 else nth (i - 4) [200; 0; 0; 0; 150; 0; 0; 0] 0 in
          let p := (a + b - c) mod 256 in
          exists pred,
            nth i out 0 = (nth i [1; 2; 3; 4; 5; 6; 7; 8] 0 + pred) mod 256
            /\ pred = paeth a b c
            /\ (pred = a \/ pred = b \/ pred = c)
            /\ Z.abs (p - pred) <= Z.abs (p - a)
            /\ Z.abs (p - pred) <= Z.abs (p - b)
            /\ Z.abs (p - pred) <= Z.abs (p - c)
            /\ (Z.abs (p - a) <= Z.abs (p - b) -> Z.abs (p - a) <= Z.abs (p - c) -> pred = a)
            /\ (~ (Z.abs (p - a) <= Z.abs (p - b) /\ Z.abs (p - a) <= Z.abs (p - c)) ->
                Z.abs (p - b) <= Z.abs (p - c) -> pred = b)
            /\ (~ (Z.abs (p - a) <= Z.abs (p - b) /\ Z.abs (p - a) <= Z.abs (p - c)) ->
                Z.abs (p - c) < Z.abs (p - b) -> pred = c)).
Proof.
  eapply (DecodeRow_paeth Arch64 (zlib := sample_zlib) (session sample_png 2)
            _ _ _ ftAverage [1; 2; 3; 4; 5; 6; 7; 8] [200; 0; 0; 0; 150; 0; 0; 0]).
  - vm_compute. reflexivity.
  - reflexivity.
  - vm_compute. reflexivity.
  - vm_compute. reflexivity.
  - vm_compute. reflexivity.
  - reflexivity.
Defined.

(** The chunk-order theorem at a stream with two header chunks. *)
Lemma NewDecoder_chunk_order_witness :
  sample_NewDecoder twice_IHDR_png = Err chunkOrderError.
Proof.
  eapply (NewDecoder_chunk_order Arch64 crc32 (zlib := sample_zlib) twice_IHDR_png _ _
            [0; 0; 0; 13] tagIHDR
            (ihdr_payload 2 3
             ++ BigEndian_PutUint32 (to_uint32 (crc32 (tagIHDR ++ ihdr_payload 2 3)))
             ++ chunk crc32 tagIDAT (stored_deflate sample_scanlines)
             ++ chunk crc32 tagIEND [])).
  - vm_compute. reflexivity.
  - eapply rounds_next; [apply rounds_first|]. vm_compute. reflexivity.
  - vm_compute. reflexivity.
  - reflexivity.
  - left. split; [reflexivity|]. vm_compute. discriminate.
Defined.

(** The header theorem at a payload with compression method 1, and at
    one of 32768 x 32768 pixels on a 32-bit platform. *)
Lemma parseIHDR_first_failure_witness :
  fst (parseIHDR Arch64 crc32 13
         (set_r ([0; 0; 0; 0; 0; 0; 0; 1; 8; 6; 1; 1; 0] ++ [1; 2; 3; 4]) (new_decoder [])))
  = Err (UnsupportedError "compression method")
  /\ fst (parseIHDR Arch32 crc32 13
         (set_r ([0; 0; 128; 0; 0; 0; 128; 0; 16; 2; 0; 0; 0] ++ [1; 2; 3; 4]) (new_decoder [])))
  = Err (UnsupportedError "dimension overflow").
Proof.
  split.
  - refine (proj2 (parseIHDR_first_failure Arch64 crc32 _)
              [0; 0; 0; 0; 0; 0; 0; 1; 8; 6; 1; 1; 0] [1; 2; 3; 4] _ _ _);
      [reflexivity | reflexivity | bytes_ok].
  - refine (proj2 (parseIHDR_first_failure Arch32 crc32 _)
              [0; 0; 128; 0; 0; 0; 128; 0; 16; 2; 0; 0; 0] [1; 2; 3; 4] _ _ _);
      [reflexivity | reflexivity | bytes_ok].
Defined.

(** The [Read] theorem at the boundary between the two IDAT chunks of
    [split_png]. *)
Lemma Read_segment_exhausted_witness :
  Read Arch64 crc32 defaultBufSize (dd (session split_png 0))
  = Read Arch64 crc32 defaultBufSize
      (set_crc tagIDAT
         (set_idatLength 18
            (set_tmp (overwrite ([0; 0; 0; 18] ++ tagIDAT)
                        (overwrite [75; 203; 197; 57] (tmp (dd (session split_png 0)))))
               (set_r (drop 12 (r (dd (session split_png 0)))) (dd (session split_png 0)))))).
Proof.
  refine (proj1 (proj2 (proj2
    (Read_segment_exhausted Arch64 crc32 (dd (session split_png 0)) defaultBufSize
       [75; 203; 197; 57] [0; 0; 0; 18] tagIDAT
       (drop 12 (r (dd (session split_png 0)))) _ _ _ _ _ _))) _ _).
  - unfold defaultBufSize. lia.
  - vm_compute. reflexivity.
  - vm_compute. reflexivity.
  - reflexivity.
  - reflexivity.
  - reflexivity.
  - vm_compute. reflexivity.
  - reflexivity.
Defined.

(** The invariant after two rows of [sample_png], and before the first:
    the previous-row buffer holds the second row, which is the
    reconstruction of the scanline read for it (filter type Average) with
    respect to the first row. *)
Lemma previous_row_invariant_witness :
  tail (pr (session sample_png 2)) = [200; 0; 0; 0; 150; 0; 0; 0]
  /\ tail (pr (session sample_png 0)) = repeat 0 8%nat
  /\ exists D0 bs z' d' ft raw,
       Reach Arch64 crc32 (zlib := sample_zlib) sample_png D0 [[0; 0; 0; 0; 100; 0; 0; 0]]
       /\ io_ReadFull_zlib (zlib := sample_zlib) (zlibR D0) (length (cr D0)) (dd D0)
          = (bs, None, z', d')
       /\ overwrite bs (cr D0) = ft :: raw
       /\ fst (DecodeRow Arch64 (zlib := sample_zlib) D0) = Ok [200; 0; 0; 0; 150; 0; 0; 0]
       /\ reconstructs ft raw (row_above [[0; 0; 0; 0; 100; 0; 0; 0]] (length raw))
            [200; 0; 0; 0; 150; 0; 0; 0].
Proof.
  assert (Reach Arch64 crc32 (zlib := sample_zlib) sample_png (session sample_png 2)
            [[200; 0; 0; 0; 150; 0; 0; 0]; [0; 0; 0; 0; 100; 0; 0; 0]]) as H2.
  { eapply Reach_row; [eapply Reach_row; [eapply Reach_new|]|].
    - vm_compute. reflexivity.
    - vm_compute. reflexivity.
    - vm_compute. reflexivity. }
  assert (Reach Arch64 crc32 (zlib := sample_zlib) sample_png (session sample_png 0) []) as H0.
  { eapply Reach_new. vm_compute. reflexivity. }
  split_and!.
  - exact (proj1 (previous_row_invariant Arch64 crc32 (zlib := sample_zlib) sample_png
                    (session sample_png 2) _ H2)).
  - exact (proj1 (previous_row_invariant Arch64 crc32 (zlib := sample_zlib) sample_png
                    (session sample_png 0) _ H0)).
  - exact (proj1 (proj2 (previous_row_invariant Arch64 crc32 (zlib := sample_zlib) sample_png
                           (session sample_png 2) _ H2))).
Defined.

(** The [Close] theorem after the rows of [surplus_png]. *)
Lemma Close_checks_witness :
  fst (Close crc32 (zlib := sample_zlib) (session surplus_png 3))
  = Err (FormatError ("not IEND " ++ string_of_bytes tagIDAT)).
Proof.
  refine (proj1 (proj2 (proj1 (proj2
    (Close_checks crc32 (zlib := sample_zlib) (session surplus_png 3) _))
      (zlibR (session surplus_png 3))
      (take 4 (r (dd (session surplus_png 3)))) [0; 0; 0; 1] tagIDAT
      (drop 12 (r (dd (session surplus_png 3)))) _ _ _ _ _)) _ _).
  - vm_compute. discriminate.
  - vm_compute. reflexivity.
  - vm_compute. reflexivity.
  - reflexivity.
  - reflexivity.
  - reflexivity.
  - vm_compute. reflexivity.
  - vm_compute. discriminate.
Defined.

(** C8 as stated fails on the message: after the rows of [surplus_png]
    the next chunk is an IDAT chunk, and [Close] returns the format error
    "not IEND IDAT", not "not IEND". *)
Lemma Close_not_IEND_names_the_tag :
  readPNG Arch64 crc32 (zlib := sample_zlib) surplus_png = Err (FormatError "not IEND IDAT")
  /\ stage (dd (session surplus_png 3)) = dsSeenIDAT
  /\ fst (Close crc32 (zlib := sample_zlib) (session surplus_png 3))
     = Err (FormatError "not IEND IDAT")
  /\ (FormatError "not IEND IDAT" = FormatError "not IEND" -> False).
Proof. split_and!; try (vm_compute; reflexivity). discriminate. Qed.

(** The overflow theorem on a 32-bit platform, at a segment of 2^31
    bytes. *)
Lemma Read_length_overflow_witness :
  Read Arch32 crc32 1 overflow_decoder
  = (Ok ([], Some (UnsupportedError "IDAT chunk length overflow")), overflow_decoder).
Proof.
  apply (Read_length_overflow Arch32 crc32 overflow_decoder 1); [lia | vm_compute; reflexivity].
Defined.

(** C9 as stated fails for an empty buffer: the remaining length is
    negative as an [int], and [Read] returns [(0, nil)]. *)
Lemma Read_overflow_empty_buffer :
  to_int Arch32 (idatLength overflow_decoder) = - 2147483648
  /\ Read Arch32 crc32 0 overflow_decoder = (Ok ([], None), overflow_decoder).
Proof. split; vm_compute; reflexivity. Qed.

(** The store-only codec is a streaming codec. *)
Lemma stored_codec : streaming_codec stored_inflate (fun _ => stored_deflate).
Proof.
  unfold streaming_codec, stored_deflate, stored_inflate, len. split_and!.
  - intros _ x. destruct (Z.ltb_spec (Z.of_nat (length x)) (Z.of_nat (length x))); [lia|].
    by rewrite Nat2Z.id, firstn_all.
  - intros _ x c s Hx E Hs. destruct c as [|n rest].
    + exists [], x. split; [done|]. by left.
    + simpl in E. injection E as <- ->. exists rest, s. split; [done|]. left. split; [done|].
      destruct (Z.ltb_spec (Z.of_nat (length rest)) (Z.of_nat (length (rest ++ s)))); [done|].
      rewrite length_app in *. destruct s; [done|]. simpl in *. lia.
  - intros _ x Hx. destruct x; [done|]. simpl. lia.
Qed.





Lemma sample_zlib_reads_only : reads_only Arch64 crc32 sample_zlib.
Proof. apply PullZlib_reads_only. Qed.

(** A signature cut short, and no input at all. *)
Lemma NewDecoder_short_input_witness :
  sample_NewDecoder [137; 80; 78] = Err ErrUnexpectedEOF
  /\ sample_NewDecoder [] = Err ErrUnexpectedEOF.
Proof.
  split.
  - apply (NewDecoder_short_input Arch64 crc32 (zlib := sample_zlib) [137; 80; 78]).
    simpl. lia.
  - apply (NewDecoder_short_input Arch64 crc32 (zlib := sample_zlib) []). simpl. lia.
Defined.

(** The first bytes of a JPEG file. *)
Lemma NewDecoder_not_png_witness :
  sample_NewDecoder [255; 216; 255; 224; 0; 16; 74; 70; 73; 70]
  = Err (FormatError "not a PNG file").
Proof.
  apply (NewDecoder_not_png Arch64 crc32 (zlib := sample_zlib)
           [255; 216; 255; 224; 0; 16; 74; 70; 73; 70]).
  - simpl. lia.
  - vm_compute. discriminate.
Defined.

(** A stream that ends behind its header chunk. *)
Lemma NewDecoder_input_ends_witness :
  sample_NewDecoder (pngHeader ++ chunk crc32 tagIHDR (ihdr_payload 2 3)) = Err EOF.
Proof.
  refine (eq_trans
            (NewDecoder_input_ends Arch64 crc32 (zlib := sample_zlib)
               (pngHeader ++ chunk crc32 tagIHDR (ihdr_payload 2 3))
               (after_signature (pngHeader ++ chunk crc32 tagIHDR (ihdr_payload 2 3)))
               (snd (chunk_round Arch64 crc32
                       (after_signature (pngHeader ++ chunk crc32 tagIHDR (ihdr_payload 2 3)))))
               _ _ _) _).
  - vm_compute. reflexivity.
  - eapply rounds_next; [apply rounds_first|]. vm_compute. reflexivity.
  - vm_compute. lia.
  - vm_compute. reflexivity.
Defined.

(** A text chunk that declares 2^32 - 1 bytes. *)
Lemma NewDecoder_bad_chunk_length_witness :
  sample_NewDecoder (pngHeader ++ [255; 255; 255; 255] ++ tagtEXt ++ [1; 2; 3])
  = Err (FormatError "Bad chunk length: 4294967295").
Proof.
  refine (eq_trans
            (NewDecoder_bad_chunk_length Arch64 crc32 (zlib := sample_zlib)
               (pngHeader ++ [255; 255; 255; 255] ++ tagtEXt ++ [1; 2; 3])
               (after_signature (pngHeader ++ [255; 255; 255; 255] ++ tagtEXt ++ [1; 2; 3]))
               (after_signature (pngHeader ++ [255; 255; 255; 255] ++ tagtEXt ++ [1; 2; 3]))
               [255; 255; 255; 255] tagtEXt [1; 2; 3] _ _ _ _ _ _ _ _) _).
  - vm_compute. reflexivity.
  - apply rounds_first.
  - vm_compute. reflexivity.
  - reflexivity.
  - reflexivity.
  - vm_compute. discriminate.
  - vm_compute. discriminate.
  - vm_compute. reflexivity.
  - vm_compute. reflexivity.
Defined.

(** The text chunk of [text_png], 5000 bytes long. *)
Lemma chunk_round_skips_chunk_witness :
  exists d',
    chunk_round Arch64 crc32 (snd (chunk_round Arch64 crc32 (after_signature text_png)))
    = (Ok true, d')
    /\ r d' = chunk crc32 tagIDAT (stored_deflate sample_scanlines) ++ chunk crc32 tagIEND []
    /\ meta d' = meta (snd (chunk_round Arch64 crc32 (after_signature text_png)))
    /\ idatLength d'
       = idatLength (snd (chunk_round Arch64 crc32 (after_signature text_png))).
Proof.
  apply (chunk_round_skips_chunk Arch64 crc32
           (snd (chunk_round Arch64 crc32 (after_signature text_png)))
           tagtEXt (repeat 65 5000)).
  - vm_compute. reflexivity.
  - reflexivity.
  - vm_compute. discriminate.
  - vm_compute. discriminate.
  - vm_compute. reflexivity.
Defined.

(** A text chunk with the checksum field 0. *)
Lemma NewDecoder_chunk_checksum_witness :
  sample_NewDecoder bad_text_png = Err (FormatError "invalid checksum").
Proof.
  apply (NewDecoder_chunk_checksum Arch64 crc32 (zlib := sample_zlib) bad_text_png
           (after_signature bad_text_png) (after_signature bad_text_png)
           tagtEXt [104; 105] [0; 0; 0; 0] (chunk crc32 tagIEND [])).
  - vm_compute. reflexivity.
  - apply rounds_first.
  - vm_compute. reflexivity.
  - reflexivity.
  - vm_compute. discriminate.
  - vm_compute. discriminate.
  - vm_compute. reflexivity.
  - reflexivity.
  - vm_compute. discriminate.
Defined.

(** [NewDecoder] on [sample_png]. *)
Lemma NewDecoder_ok_witness :
  exists w h,
    Bounds (session sample_png 0) = (0, 0, w, h)
    /\ 0 < w < 2 ^ 31 /\ 0 < h < 2 ^ 31 /\ w * h * 8 <= maxInt Arch64
    /\ depth (dd (session sample_png 0)) = 8 /\ cb (dd (session sample_png 0)) = cbTCA8
    /\ stage (dd (session sample_png 0)) = dsSeenIDAT
    /\ bytesPerPixel (session sample_png 0) = 4 /\ y (session sample_png 0) = 0
    /\ cr (session sample_png 0) = repeat 0 (Z.to_nat (1 + 4 * w))
    /\ pr (session sample_png 0) = repeat 0 (Z.to_nat (1 + 4 * w)).
Proof.
  apply (NewDecoder_ok Arch64 crc32 (zlib := sample_zlib) sample_png (session sample_png 0)).
  - exact sample_zlib_reads_only.
  - vm_compute. reflexivity.
Defined.

(** A header payload that declares Adam7 interlacing. *)
Lemma parseIHDR_any_interlace_witness :
  exists d',
    parseIHDR Arch64 crc32 13
      (set_crc tagIHDR
         (set_r ((BigEndian_PutUint32 2 ++ BigEndian_PutUint32 3 ++ [8; ctTrueColorAlpha; 0; 0; 1])
                 ++ BigEndian_PutUint32
                      (to_uint32
                         (crc32 (tagIHDR ++ BigEndian_PutUint32 2 ++ BigEndian_PutUint32 3
                                 ++ [8; ctTrueColorAlpha; 0; 0; 1])))
                 ++ [9; 9])
            (new_decoder [])))
    = (Ok tt, d')
    /\ width d' = 2 /\ height d' = 3 /\ depth d' = 8 /\ cb d' = cbTCA8 /\ r d' = [9; 9].
Proof.
  apply (parseIHDR_any_interlace Arch64 crc32 _ 2 3 1 [9; 9]).
  - lia.
  - lia.
  - vm_compute. discriminate.
  - unfold is_byte. lia.
  - reflexivity.
Defined.

Ltac literal_bytes :=
  match goal with
  | |- Forall is_byte ?l => let v := eval vm_compute in l in change (Forall is_byte v)
  end;
  bytes_ok.

(** The first row of [sample_png]. *)
Lemma DecodeRow_none_witness :
  exists D',
    DecodeRow Arch64 (zlib := sample_zlib) (session sample_png 0)
    = (Ok [0; 0; 0; 0; 100; 0; 0; 0], D')
    /\ pr D' = ftNone :: [0; 0; 0; 0; 100; 0; 0; 0].
Proof.
  eapply (DecodeRow_none Arch64 (zlib := sample_zlib) (session sample_png 0)
            _ _ _ 0 [0; 0; 0; 0; 100; 0; 0; 0] (repeat 0 8%nat)).
  - vm_compute. reflexivity.
  - vm_compute. reflexivity.
  - vm_compute. reflexivity.
  - vm_compute. reflexivity.
Defined.

(** The first row of [sub_up_png]. *)
Lemma DecodeRow_sub_witness :
  exists out D',
    DecodeRow Arch64 (zlib := sample_zlib) (session sub_up_png 0) = (Ok out, D')
    /\ pr D' = ftSub :: out
    /\ length out = length [10; 20; 30; 40; 1; 2; 3; 4]
    /\ (forall i, (i < 4)%nat -> nth i out 0 = nth i [10; 20; 30; 40; 1; 2; 3; 4] 0)
    /\ (forall i, (4 <= i < length [10; 20; 30; 40; 1; 2; 3; 4])%nat ->
          nth i out 0 = (nth i [10; 20; 30; 40; 1; 2; 3; 4] 0 + nth (i - 4) out 0) mod 256).
Proof.
  eapply (DecodeRow_sub Arch64 (zlib := sample_zlib) (session sub_up_png 0)
            _ _ _ 0 [10; 20; 30; 40; 1; 2; 3; 4] (repeat 0 8%nat)).
  - vm_compute. reflexivity.
  - reflexivity.
  - vm_compute. reflexivity.
  - vm_compute. reflexivity.
  - vm_compute. reflexivity.
  - simpl. lia.
Defined.

(** The second row of [sub_up_png]. *)
Lemma DecodeRow_up_witness :
  exists out D',
    DecodeRow Arch64 (zlib := sample_zlib) (session sub_up_png 1) = (Ok out, D')
    /\ pr D' = ftUp :: out
    /\ length out = length [250; 0; 0; 0; 0; 0; 0; 250]
    /\ (forall i, (i < length [250; 0; 0; 0; 0; 0; 0; 250])%nat ->
          nth i out 0
          = (nth i [250; 0; 0; 0; 0; 0; 0; 250] 0
             + nth i [10; 20; 30; 40; 11; 22; 33; 44] 0) mod 256).
Proof.
  eapply (DecodeRow_up Arch64 (zlib := sample_zlib) (session sub_up_png 1)
            _ _ _ ftSub [250; 0; 0; 0; 0; 0; 0; 250] [10; 20; 30; 40; 11; 22; 33; 44]).
  - vm_compute. reflexivity.
  - vm_compute. reflexivity.
  - vm_compute. reflexivity.
  - vm_compute. reflexivity.
  - reflexivity.
Defined.

(** The row of [bad_filter_png]. *)
Lemma DecodeRow_filter_byte_witness :
  fst (sample_DecodeRow (session bad_filter_png 0)) = Err (FormatError "bad filter type")
  /\ y (snd (sample_DecodeRow (session bad_filter_png 0))) = y (session bad_filter_png 0)
  /\ cur (snd (sample_DecodeRow (session bad_filter_png 0))) = cur (session bad_filter_png 0).
Proof.
  pose (t := io_ReadFull_zlib (zlib := sample_zlib) (zlibR (session bad_filter_png 0))
              (length (cr (session bad_filter_png 0))) (dd (session bad_filter_png 0))).
  destruct (DecodeRow_filter_byte Arch64 crc32 (zlib := sample_zlib) bad_filter_png
              (session bad_filter_png 0) [] (fst (fst (fst t))) (snd (fst t)) (snd t)
              7 [1; 2; 3; 4])
    as (_ & Hbad).
  - exact sample_zlib_reads_only.
  - apply Reach_new. vm_compute. reflexivity.
  - vm_compute. reflexivity.
  - vm_compute. reflexivity.
  - vm_compute. reflexivity.
  - destruct Hbad as (H1 & H2 & H3 & _); [right; lia|].
    unfold sample_DecodeRow. split_and!; done.
Defined.

Lemma sample_png_two_rows :
  Reach Arch64 crc32 (zlib := sample_zlib) sample_png (session sample_png 2)
    [[200; 0; 0; 0; 150; 0; 0; 0]; [0; 0; 0; 0; 100; 0; 0; 0]].
Proof.
  eapply Reach_row; [eapply Reach_row; [eapply Reach_new|]|].
  - vm_compute. reflexivity.
  - vm_compute. reflexivity.
  - vm_compute. reflexivity.
Qed.

Lemma sample_png_rows :
  Reach Arch64 crc32 (zlib := sample_zlib) sample_png (session sample_png 3)
    [[201; 2; 3; 4; 155; 8; 10; 12]; [200; 0; 0; 0; 150; 0; 0; 0]; [0; 0; 0; 0; 100; 0; 0; 0]].
Proof.
  eapply Reach_row; [exact sample_png_two_rows|]. vm_compute. reflexivity.
Qed.

(** [sample_png] after two rows. *)
Lemma session_rows_witness :
  y (session sample_png 2)
  = Z.of_nat (length [[200; 0; 0; 0; 150; 0; 0; 0]; [0; 0; 0; 0; 100; 0; 0; 0]])
  /\ Z.of_nat (length [[200; 0; 0; 0; 150; 0; 0; 0]; [0; 0; 0; 0; 100; 0; 0; 0]])
     <= height (dd (session sample_png 2))
  /\ Forall (fun row => len row = 4 * width (dd (session sample_png 2)))
       [[200; 0; 0; 0; 150; 0; 0; 0]; [0; 0; 0; 0; 100; 0; 0; 0]].
Proof.
  apply (session_rows Arch64 crc32 (zlib := sample_zlib) sample_png (session sample_png 2)
           [[200; 0; 0; 0; 150; 0; 0; 0]; [0; 0; 0; 0; 100; 0; 0; 0]]).
  - exact sample_zlib_reads_only.
  - exact sample_png_two_rows.
Defined.


(** [sample_png] after its three rows. *)
Lemma DecodeRow_EOF_witness :
  fst (sample_DecodeRow (session sample_png 3)) = Err EOF
  /\ snd (sample_DecodeRow (session sample_png 3)) = session sample_png 3.
Proof.
  unfold sample_DecodeRow.
  destruct (DecodeRow_EOF Arch64 crc32 (zlib := sample_zlib) sample_png (session sample_png 3)
              _ sample_zlib_reads_only sample_png_rows) as [Hiff Hsame].
  assert (fst (DecodeRow Arch64 (zlib := sample_zlib) (session sample_png 3)) = Err EOF) as H.
  { apply Hiff. vm_compute. reflexivity. }
  split; [exact H | exact (Hsame H)].
Defined.

(** The decoder of [bad_filter_png]. *)
Lemma DecodeRow_never_panics_witness :
  returned (fst (sample_DecodeRow (session bad_filter_png 0))).
Proof.
  apply (DecodeRow_never_panics Arch64 crc32 (zlib := sample_zlib) bad_filter_png
           (session bad_filter_png 0) []).
  - exact sample_zlib_reads_only.
  - apply Reach_new. vm_compute. reflexivity.
Defined.

(** [sample_png] after its three rows. *)
Lemma Bounds_stable_witness :
  Bounds (session sample_png 3) = Bounds (session sample_png 0).
Proof.
  apply (Bounds_stable Arch64 crc32 (zlib := sample_zlib) sample_png
           (session sample_png 0) (session sample_png 3)
           [[201; 2; 3; 4; 155; 8; 10; 12]; [200; 0; 0; 0; 150; 0; 0; 0];
            [0; 0; 0; 0; 100; 0; 0; 0]]
           sample_zlib_reads_only).
  - vm_compute. reflexivity.
  - exact sample_png_rows.
Defined.

(** [Close] twice at the end of [sample_png]. *)
Lemma Close_twice_witness :
  stage (dd (snd (Close crc32 (zlib := sample_zlib) (session sample_png 3)))) = dsSeenIDAT
  /\ fst (Close crc32 (zlib := sample_zlib)
            (snd (Close crc32 (zlib := sample_zlib) (session sample_png 3))))
     = Err EOF.
Proof.
  destruct (Close_twice Arch64 crc32 (zlib := sample_zlib) sample_png (session sample_png 3)
              (snd (Close crc32 (zlib := sample_zlib) (session sample_png 3))) _
              sample_zlib_reads_only sample_png_rows) as [H1 H2].
  - vm_compute. reflexivity.
  - split; [exact H1|].
    refine (eq_trans (H2 _ _ _) _).
    + vm_compute. reflexivity.
    + vm_compute. lia.
    + vm_compute. reflexivity.
Defined.

(** A stream with two header chunks. *)
Lemma NewDecoder_returns_witness : returned (sample_NewDecoder twice_IHDR_png).
Proof.
  apply (NewDecoder_returns Arch64 crc32 (zlib := sample_zlib) twice_IHDR_png).
  exact sample_zlib_reads_only.
Defined.

(** The rows of [sample_png], copied into a buffer of 24 bytes. *)
Lemma readPNG_rows_return_witness :
  returned (fst (readPNG_rows Arch64 (zlib := sample_zlib) (Z.to_nat 3) 0 2 3
                   (mkNRGBA (repeat 0 24) (to_int Arch64 (4 * 2)) (0, 0, 2, 3))
                   (session sample_png 0)))
  /\ returned (fst (Close crc32 (zlib := sample_zlib)
                      (snd (readPNG_rows Arch64 (zlib := sample_zlib) (Z.to_nat 3) 0 2 3
                              (mkNRGBA (repeat 0 24) (to_int Arch64 (4 * 2)) (0, 0, 2, 3))
                              (session sample_png 0))))).
Proof.
  apply (readPNG_rows_return Arch64 crc32 (zlib := sample_zlib) sample_png
           (session sample_png 0) 2 3 (repeat 0 24) sample_zlib_reads_only).
  - vm_compute. reflexivity.
  - vm_compute. reflexivity.
  - reflexivity.
Defined.

(** The image of [sample_png]. *)
Lemma readPNG_ok_shape_witness :
  exists w h,
    Rect sample_image = (0, 0, w, h) /\ Stride sample_image = 4 * w
    /\ len (Pix sample_image) = 4 * w * h
    /\ 0 < w < 2 ^ 31 /\ 0 < h < 2 ^ 31 /\ w * h * 8 <= maxInt Arch64.
Proof.
  apply (readPNG_ok_shape Arch64 crc32 (zlib := sample_zlib)
           (Encode crc32 (fun _ => stored_deflate) BestSpeed cycle_filters 10 sample_image)
           sample_image).
  - exact sample_zlib_reads_only.
  - vm_compute. reflexivity.
Defined.

(** At the boundary between the two IDAT chunks of [split_png]. *)
Lemma Read_presents_stream_witness :
  exists bs d' done' todo' more',
    Read Arch64 crc32 defaultBufSize (dd (session split_png 0)) = (Ok (bs, None), d')
    /\ bs <> [] /\ (length bs <= defaultBufSize)%nat
    /\ [] ++ concat [drop 10 (stored_deflate sample_scanlines)]
       = bs ++ todo' ++ concat more'
    /\ Adapter crc32 d' done' todo' more' (chunk crc32 tagIEND []).
Proof.
  apply (Read_presents_stream Arch64 crc32 defaultBufSize (dd (session split_png 0))
           (take 10 (stored_deflate sample_scanlines)) []
           [drop 10 (stored_deflate sample_scanlines)] (chunk crc32 tagIEND [])).
  - unfold defaultBufSize. lia.
  - unfold Adapter. split_and!.
    + vm_compute. reflexivity.
    + vm_compute. reflexivity.
    + vm_compute. reflexivity.
    + vm_compute. reflexivity.
    + constructor; [|constructor]. split; [vm_compute; discriminate | vm_compute; reflexivity].
  - vm_compute. discriminate.
Defined.

(** A header chunk that declares 16-bit RGB. *)
Lemma NewDecoder_never_Errorf_witness :
  not_Errorf
    (sample_NewDecoder
       (pngHeader
        ++ chunk crc32 tagIHDR
             (BigEndian_PutUint32 2 ++ BigEndian_PutUint32 3 ++ [16; 2; 0; 0; 0]))).
Proof.
  apply (NewDecoder_never_Errorf Arch64 crc32 (zlib := sample_zlib)).
  intros d. apply PullZlib_NewReader_no_Errorf.
Defined.

(** [sample_png] behind its header chunk. *)
Lemma chunk_loop_stage_witness :
  stage (snd (chunk_round Arch64 crc32 (after_signature sample_png))) = dsStart
  \/ (stage (snd (chunk_round Arch64 crc32 (after_signature sample_png))) = dsSeenIHDR
      /\ header_ok Arch64 (snd (chunk_round Arch64 crc32 (after_signature sample_png)))).
Proof.
  apply (chunk_loop_stage Arch64 crc32 sample_png (after_signature sample_png)).
  - vm_compute. reflexivity.
  - eapply rounds_next; [apply rounds_first|]. vm_compute. reflexivity.
Defined.

Lemma split_png_well_typed : well_typed (dd (session split_png 0)).
Proof.
  split; [vm_compute; split; [discriminate | reflexivity]|]. literal_bytes.
Qed.

(** At the boundary between the two IDAT chunks of [split_png]. *)
Lemma Read_progress_witness :
  exists bs e d',
    Read Arch64 crc32 defaultBufSize (dd (session split_png 0)) = (Ok (bs, e), d')
    /\ (bs = [] -> exists err, e = Some err)
    /\ well_typed d'.
Proof.
  apply (Read_progress Arch64 crc32 defaultBufSize (dd (session split_png 0))).
  - unfold defaultBufSize. lia.
  - exact split_png_well_typed.
Defined.

Lemma Read_no_overflow_64_witness :
  exists bs e d',
    Read Arch64 crc32 defaultBufSize (dd (session split_png 0)) = (Ok (bs, e), d')
    /\ match e with Some err => io_or_format err | None => True end.
Proof.
  apply (Read_no_overflow_64 crc32 defaultBufSize (dd (session split_png 0))).
  exact split_png_well_typed.
Defined.

(** The image of [sample_png]. *)
Lemma readPNG_rows_of_session_witness :
  exists (D : Decoder zstate) (rows : list (list Z)),
    Reach Arch64 crc32 (zlib := sample_zlib) sample_png D rows
    /\ Z.of_nat (length rows) = height (dd D)
    /\ Pix sample_image = concat (rev rows)
    /\ Rect sample_image = Bounds D.
Proof.
  apply (readPNG_rows_of_session Arch64 crc32 (zlib := sample_zlib) sample_zlib_reads_only
           sample_png sample_image).
  vm_compute. reflexivity.
Defined.
